(** * WAV-to-MP3 converter: the WAV decoder, the codec adapter and the job queue

    A shallow embedding of
    - [utils/dataViewUtils.ts]   (getStringFromDataView),
    - [utils/wavParser.ts]       (parseWavFile),
    - [hooks/useWavToMp3Converter.ts] (the encode loop of convertWavToMp3),
    - the application component  (the job queue controller),
    and the properties of the specification stated over it.

    JavaScript numbers are modelled by [Z] where the program only ever holds
    integers, and by [Q] for the quotients the program computes:
    [bitsPerSampleOriginal / 8] and [dataChunkSize / bytesPerSample], both
    exact in binary floating point for the values that reach them, and
    [samples.length / channels], which is only compared with integers and
    truncated, so that rounding does not change what the program does.  A
    call that may raise an exception returns a [completion]. *)

From Stdlib Require Import ZArith List String Ascii Bool Lia QArith Qround.
From Stdlib Require Import Init.Byte Strings.Byte DecimalString.
From Stdlib Require DecimalPos DecimalN DecimalZ.
Import ListNotations.

Local Open Scope Z_scope.

(* ------------------------------------------------------------------ *)
(** ** The JavaScript primitives the program uses *)

Module JS.

Inductive exn : Type := RangeError | EncoderError.

(** Normal or abrupt completion of a call. *)
Inductive completion (A : Type) : Type :=
| Normal (a : A)
| Throws (e : exn).
Arguments Normal {A} a.
Arguments Throws {A} e.

Definition bind {A B} (c : completion A) (k : A -> completion B) : completion B :=
  match c with
  | Normal a => k a
  | Throws e => Throws e
  end.

(** An [ArrayBuffer] is its sequence of bytes; a [DataView] over the whole
    buffer is the buffer itself. *)
Definition ArrayBuffer := list byte.

Definition byteLength (b : ArrayBuffer) : Z := Z.of_nat (List.length b).

Definition byteAt (b : ArrayBuffer) (i : Z) : Z :=
  Z.of_N (Byte.to_N (nth (Z.to_nat i) b x00)).

(** [DataView.prototype.getUintN]: a [RangeError] when the read does not lie
    inside the view. *)
Definition inView (b : ArrayBuffer) (i width : Z) : bool :=
  (0 <=? i) && (i + width <=? byteLength b).

Definition getUint8 (b : ArrayBuffer) (i : Z) : completion Z :=
  if inView b i 1 then Normal (byteAt b i) else Throws RangeError.

(** Little-endian reads (the program always passes [true]). *)
Definition getUint16 (b : ArrayBuffer) (i : Z) : completion Z :=
  if inView b i 2 then Normal (byteAt b i + 256 * byteAt b (i + 1))
  else Throws RangeError.

Definition getUint32 (b : ArrayBuffer) (i : Z) : completion Z :=
  if inView b i 4
  then Normal (byteAt b i + 256 * byteAt b (i + 1)
               + 65536 * byteAt b (i + 2) + 16777216 * byteAt b (i + 3))
  else Throws RangeError.

(** [ToInt32], [ToInt16] and the [<<] operator. *)
Definition toInt32 (z : Z) : Z := (z + 2 ^ 31) mod 2 ^ 32 - 2 ^ 31.
Definition toInt16 (z : Z) : Z := (z + 2 ^ 15) mod 2 ^ 16 - 2 ^ 15.
Definition shl (a n : Z) : Z := toInt32 (Z.shiftl (toInt32 a) (Z.land n 31)).

(** [ToIndex] on a number that is finite here: truncate towards zero, a
    negative result is a [RangeError]. *)
Definition truncate (q : Q) : Z :=
  if Qle_bool 0%Q q then Qfloor q else Qceiling q.

Definition toIndex (q : Q) : completion Z :=
  let n := truncate q in
  if n <? 0 then Throws RangeError else Normal n.

(** The signed 16-bit element stored little-endian at byte [i]. *)
Definition int16At (b : ArrayBuffer) (i : Z) : Z :=
  toInt16 (byteAt b i + 256 * byteAt b (i + 1)).

Definition indices (n : Z) : list Z := map Z.of_nat (seq 0 (Z.to_nat n)).

(** [new Int16Array(buffer, byteOffset, length)]: the offset must be a
    multiple of the element size and the view must fit in the buffer. *)
Definition Int16Array_on (b : ArrayBuffer) (byteOffset : Z) (len : Q)
  : completion (list Z) :=
  if negb (byteOffset mod 2 =? 0) then Throws RangeError
  else
    bind (toIndex len) (fun n =>
      if byteOffset + n * 2 >? byteLength b then Throws RangeError
      else Normal (map (fun k => int16At b (byteOffset + 2 * k)) (indices n))).

(** [new Uint8Array(buffer, byteOffset, length)]. *)
Definition Uint8Array_on (b : ArrayBuffer) (byteOffset : Z) (len : Q)
  : completion (list Z) :=
  bind (toIndex len) (fun n =>
    if byteOffset + n >? byteLength b then Throws RangeError
    else Normal (map (fun k => byteAt b (byteOffset + k)) (indices n))).

End JS.

Import JS.

Notation "x <- c ;; k" := (bind c (fun x => k))
  (at level 61, c at next level, right associativity).

(* ------------------------------------------------------------------ *)
(** ** utils/dataViewUtils.ts *)

Module DataViewUtils.

(** [for (i = 0; i < length; i++) str += String.fromCharCode(view.getUint8(offset + i))] *)
Fixpoint getStringFromDataView (view : ArrayBuffer) (offset : Z) (length : nat)
  : completion string :=
  match length with
  | O => Normal EmptyString
  | S k =>
      c <- getUint8 view offset ;;
      rest <- getStringFromDataView view (offset + 1) k ;;
      Normal (String (ascii_of_N (Z.to_N c)) rest)
  end.

End DataViewUtils.

Import DataViewUtils.

(* ------------------------------------------------------------------ *)
(** ** utils/wavParser.ts *)

Module WavParser.

Record WavData : Type := mkWavData {
  channels : Z;
  sampleRate : Z;
  samples : list Z;
  bitsPerSampleOriginal : Z
}.

(** The variables of [parseWavFile] that the chunk loop updates. *)
Record vars : Type := mkVars {
  offset : Z;
  v_channels : Z;
  v_sampleRate : Z;
  v_bits : Z;
  dataChunkOffset : Z;
  dataChunkSize : Z;
  foundFmt : bool
}.

Definition initVars : vars := mkVars 12 0 0 0 (-1) 0 false.

(** What one turn of the [while] body does. *)
Inductive turn : Type :=
| Continue (v : vars)      (* falls through to the next iteration *)
| Break (v : vars)         (* [break] *)
| ReturnNull               (* [return null] *)
| Raise (e : exn).         (* an exception leaves the function *)

Definition reading {A} (c : completion A) (k : A -> turn) : turn :=
  match c with
  | Normal a => k a
  | Throws e => Raise e
  end.

(** [offset += chunkSize; if (chunkSize % 2 !== 0) offset++] *)
Definition skipChunk (chunkSize : Z) (v : vars) : vars :=
  let o := offset v + chunkSize in
  let o := if negb (chunkSize mod 2 =? 0) then o + 1 else o in
  mkVars o (v_channels v) (v_sampleRate v) (v_bits v)
         (dataChunkOffset v) (dataChunkSize v) (foundFmt v).

Definition loopBody (view : ArrayBuffer) (v : vars) : turn :=
  if offset v + 8 >? byteLength view then Break v
  else
    reading (getStringFromDataView view (offset v) 4) (fun chunkId =>
    reading (getUint32 view (offset v + 4)) (fun chunkSize =>
    let off := offset v + 8 in
    if String.eqb chunkId "fmt "%string then
      if chunkSize <? 16 then ReturnNull
      else
        reading (getUint16 view off) (fun audioFormat =>
        if negb (audioFormat =? 1) then ReturnNull
        else
          reading (getUint16 view (off + 2)) (fun ch =>
          reading (getUint32 view (off + 4)) (fun sr =>
          reading (getUint16 view (off + 14)) (fun bits =>
          if negb (bits =? 8) && negb (bits =? 16) then ReturnNull
          else
            Continue (skipChunk chunkSize
                        (mkVars off ch sr bits
                                (dataChunkOffset v) (dataChunkSize v) true))))))
    else if String.eqb chunkId "data"%string then
      if negb (foundFmt v) then ReturnNull
      else Break (mkVars off (v_channels v) (v_sampleRate v) (v_bits v)
                         off chunkSize (foundFmt v))
    else
      Continue (skipChunk chunkSize
                  (mkVars off (v_channels v) (v_sampleRate v) (v_bits v)
                          (dataChunkOffset v) (dataChunkSize v) (foundFmt v))))).

(** How the [while (offset < view.byteLength)] loop ends. *)
Inductive scanned : Type :=
| Exited (v : vars)
| Nulled
| Raised (e : exn)
| OutOfFuel.

Fixpoint scanLoop (fuel : nat) (view : ArrayBuffer) (v : vars) : scanned :=
  if offset v <? byteLength view then
    match fuel with
    | O => OutOfFuel
    | S fuel' =>
        match loopBody view v with
        | Continue v' => scanLoop fuel' view v'
        | Break v' => Exited v'
        | ReturnNull => Nulled
        | Raise e => Raised e
        end
    end
  else Exited v.

(** Every turn moves [offset] forward by at least 8, so the length of the
    buffer bounds the number of turns. *)
Definition scanChunks (view : ArrayBuffer) : scanned :=
  scanLoop (List.length view) view initVars.

(** [samples[i] = (eightBitSamples[i] - 128) << 8], stored in an
    [Int16Array]. *)
Definition convert8 (x : Z) : Z := toInt16 (shl (x - 128) 8).

(** The result of [parseWavFile]: a record, [null], or an exception. *)
Inductive decoded : Type :=
| Record_ (w : WavData)
| Null
| Exception (e : exn)
| Diverges.

Definition ofCompletion (c : completion (list Z)) (k : list Z -> WavData) : decoded :=
  match c with
  | Normal s => Record_ (k s)
  | Throws e => Exception e
  end.

(** The part of [parseWavFile] after the chunk loop. *)
Definition buildRecord (arrayBuffer : ArrayBuffer) (v : vars) : decoded :=
  if negb (foundFmt v) || (dataChunkOffset v =? -1) || (dataChunkSize v =? 0)
  then Null
  else
    let bytesPerSample : Q := (inject_Z (v_bits v) / 8)%Q in
    if Qeq_bool bytesPerSample 0%Q then Null
    else
      let numSamplesTotal : Q := (inject_Z (dataChunkSize v) / bytesPerSample)%Q in
      let result s := mkWavData (v_channels v) (v_sampleRate v) s (v_bits v) in
      if v_bits v =? 16 then
        ofCompletion (Int16Array_on arrayBuffer (dataChunkOffset v) numSamplesTotal)
                     result
      else if v_bits v =? 8 then
        ofCompletion
          (eightBitSamples <- Uint8Array_on arrayBuffer (dataChunkOffset v) numSamplesTotal ;;
           _ <- toIndex numSamplesTotal ;;
           Normal (map convert8 eightBitSamples))
          result
      else Null.

Definition signatureOk (view : ArrayBuffer) : completion bool :=
  riff <- getStringFromDataView view 0 4 ;;
  if negb (String.eqb riff "RIFF"%string) then Normal false
  else
    wave <- getStringFromDataView view 8 4 ;;
    Normal (String.eqb wave "WAVE"%string).

Definition parseWavFile (arrayBuffer : ArrayBuffer) : decoded :=
  match signatureOk arrayBuffer with
  | Throws e => Exception e
  | Normal false => Null
  | Normal true =>
      match scanChunks arrayBuffer with
      | Exited v => buildRecord arrayBuffer v
      | Nulled => Null
      | Raised e => Exception e
      | OutOfFuel => Diverges
      end
  end.

End WavParser.

Import WavParser.

(** *** Vocabulary of the statements about the decoder *)

(** The chunk header the loop reads at [off]: tag and declared size. *)
Definition chunkHeader (view : ArrayBuffer) (off : Z) : completion (string * Z) :=
  chunkId <- getStringFromDataView view off 4 ;;
  chunkSize <- getUint32 view (off + 4) ;;
  Normal (chunkId, chunkSize).

(** Two buffers coincide on their first [d] bytes. *)
Definition agree (d : Z) (a b : ArrayBuffer) : Prop :=
  d <= byteLength a /\ d <= byteLength b
  /\ forall i, 0 <= i < d -> byteAt a i = byteAt b i.

(** Test buffers. *)
Definition bytesOf (s : string) : list byte := list_byte_of_string s.

Definition u16le (n : Z) : list byte :=
  map (fun k => match Byte.of_N (Z.to_N ((n / 256 ^ k) mod 256)) with
                | Some b => b | None => x00 end) [0; 1].

Definition u32le (n : Z) : list byte :=
  map (fun k => match Byte.of_N (Z.to_N ((n / 256 ^ k) mod 256)) with
                | Some b => b | None => x00 end) [0; 1; 2; 3].

Definition riffHeader : list byte :=
  bytesOf "RIFF"%string ++ u32le 0 ++ bytesOf "WAVE"%string.

Definition fmtChunk (ch sr bits : Z) : list byte :=
  bytesOf "fmt "%string ++ u32le 16 ++ u16le 1 ++ u16le ch ++ u32le sr
    ++ u32le (sr * ch * bits / 8) ++ u16le (ch * bits / 8) ++ u16le bits.

Definition dataChunk (declared : Z) (payload : list byte) : list byte :=
  bytesOf "data"%string ++ u32le declared ++ payload.

Definition oddDataWav : ArrayBuffer :=
  riffHeader ++ fmtChunk 1 44100 16 ++ dataChunk 3 [x01; x00; xff].

Definition listThenData : ArrayBuffer :=
  riffHeader ++ fmtChunk 2 48000 16
    ++ bytesOf "LIST"%string ++ u32le 3 ++ [x41; x42; x43; x00]
    ++ dataChunk 4 [x01; x00; x02; x00].

Definition emptyDataWav : ArrayBuffer :=
  riffHeader ++ fmtChunk 1 44100 16 ++ dataChunk 0 [].


(* ------------------------------------------------------------------ *)
(** ** hooks/useWavToMp3Converter.ts: the encode loop of [convertWavToMp3]

    The MP3 encoder is external: it is a parameter of the development.
    Status and progress updates and the timer yields do not touch the
    encoder or the collected chunks and are left out. *)

Module Converter.

(** The value of [samples.length / channels]: a quotient, [Infinity] when a
    positive length is divided by zero, [NaN] for [0 / 0].  (The channel
    count is read as an unsigned 16-bit integer, so it is never negative.) *)
Inductive number : Type :=
| Finite (q : Q)
| Infinity
| NaN.

Definition divide (n c : Z) : number :=
  if c =? 0 then (if n =? 0 then NaN else Infinity)
  else Finite (Qmake n (Z.to_pos c)).

(** [i < total] *)
Definition lessThan (i : Z) (total : number) : bool :=
  match total with
  | Finite q => negb (Qle_bool q (inject_Z i))
  | Infinity => true
  | NaN => false
  end.

(** [Math.min(LAME_SAMPLE_BLOCK_SIZE, totalSamplesPerChannel - i)], evaluated
    when [i < totalSamplesPerChannel]. *)
Definition LAME_SAMPLE_BLOCK_SIZE : Z := 1152.

Definition blockSize (total : number) (i : Z) : Q :=
  match total with
  | Finite q =>
      let remainingSamples := (q - inject_Z i)%Q in
      if Qle_bool (inject_Z LAME_SAMPLE_BLOCK_SIZE) remainingSamples
      then inject_Z LAME_SAMPLE_BLOCK_SIZE else remainingSamples
  | _ => inject_Z LAME_SAMPLE_BLOCK_SIZE
  end.

(** [samples.subarray(begin, end)]: both ends truncated and clamped to the
    array. *)
Definition clampIndex (len : Z) (q : Q) : Z :=
  let r := truncate q in
  if r <? 0 then Z.max (len + r) 0 else Z.min r len.

Definition subarray (s : list Z) (b e : Q) : list Z :=
  let len := Z.of_nat (List.length s) in
  let b' := clampIndex len b in
  let e' := clampIndex len e in
  firstn (Z.to_nat (e' - b')) (skipn (Z.to_nat b') s).

(** [samples[k]] stored into an [Int16Array]: an index outside the array
    reads [undefined], which is stored as 0. *)
Definition sampleAt (s : list Z) (k : Z) : Z :=
  if (0 <=? k) && (k <? Z.of_nat (List.length s)) then nth (Z.to_nat k) s 0 else 0.

(** The blocks handed to the encoder at position [i].  In the stereo branch
    both chunks are [new Int16Array(currentBlockSize)]; the writes of the
    inner loop beyond that length are ignored. *)
Definition blocksAt (samples : list Z) (channels : Z) (i : Z) (currentBlockSize : Q)
  : completion (list Z * option (list Z)) :=
  if channels =? 1 then
    Normal (subarray samples (inject_Z i) (inject_Z i + currentBlockSize)%Q, None)
  else
    n <- toIndex currentBlockSize ;;
    Normal (map (fun j => sampleAt samples ((i + j) * 2)) (indices n),
            Some (map (fun j => sampleAt samples ((i + j) * 2 + 1)) (indices n))).

Record Blob : Type := mkBlob {
  blobBytes : list byte;
  blobType : string
}.

(** [new Blob(parts, { type })] *)
Definition newBlob (parts : list (list byte)) (type : string) : Blob :=
  mkBlob (List.concat parts) type.

(** [if (mp3buf.length > 0) mp3Data.push(mp3buf)] *)
Definition pushNonEmpty (mp3Data : list (list byte)) (mp3buf : list byte)
  : list (list byte) :=
  if (0 <? Z.of_nat (List.length mp3buf)) then mp3Data ++ [mp3buf] else mp3Data.

Inductive looped (encoder : Type) : Type :=
| LoopDone (enc : encoder) (mp3Data : list (list byte))
| LoopThrew (e : exn)
| LoopOutOfFuel.
Arguments LoopDone {encoder} enc mp3Data.
Arguments LoopThrew {encoder} e.
Arguments LoopOutOfFuel {encoder}.

(** How [convertWavToMp3] ends once the file is decoded. *)
Inductive conversion : Type :=
| Done (mp3Blob : Blob)
| Failed
| Unfinished.

Section Encoder.

(** [lamejs.Mp3Encoder]: construction, [encodeBuffer] and [flush]; each may
    throw. *)
Variable encoder : Type.
Variable newEncoder : Z -> Z -> Z -> completion encoder.
Variable encodeBuffer :
  encoder -> list Z -> option (list Z) -> completion (encoder * list byte).
Variable flush : encoder -> completion (list byte).

(** [for (let i = 0; i < totalSamplesPerChannel; i += LAME_SAMPLE_BLOCK_SIZE)] *)
Fixpoint encodeLoop (fuel : nat) (samples : list Z) (channels : Z)
  (totalSamplesPerChannel : number) (i : Z) (enc : encoder)
  (mp3Data : list (list byte)) : looped encoder :=
  if lessThan i totalSamplesPerChannel then
    match fuel with
    | O => LoopOutOfFuel
    | S fuel' =>
        let currentBlockSize := blockSize totalSamplesPerChannel i in
        match blocksAt samples channels i currentBlockSize with
        | Throws e => LoopThrew e
        | Normal (leftChunk, rightChunk) =>
            match encodeBuffer enc leftChunk rightChunk with
            | Throws e => LoopThrew e
            | Normal (enc', mp3buf) =>
                encodeLoop fuel' samples channels totalSamplesPerChannel
                           (i + LAME_SAMPLE_BLOCK_SIZE) enc'
                           (pushNonEmpty mp3Data mp3buf)
            end
        end
    end
  else LoopDone enc mp3Data.

(** From [new lamejs.Mp3Encoder(...)] to [new Blob(mp3Data, ...)]; an
    exception is caught by the enclosing [try] and ends the conversion in
    error. *)
Definition encodeWav (fuel : nat) (wavData : WavData) (bitRate : Z) : conversion :=
  match newEncoder (channels wavData) (sampleRate wavData) bitRate with
  | Throws _ => Failed
  | Normal mp3encoder =>
      let totalSamplesPerChannel :=
        divide (Z.of_nat (List.length (samples wavData))) (channels wavData) in
      match encodeLoop fuel (samples wavData) (channels wavData)
                       totalSamplesPerChannel 0 mp3encoder [] with
      | LoopOutOfFuel => Unfinished
      | LoopThrew _ => Failed
      | LoopDone enc mp3Data =>
          match flush enc with
          | Throws _ => Failed
          | Normal mp3buf =>
              Done (newBlob (pushNonEmpty mp3Data mp3buf) "audio/mpeg"%string)
          end
      end
  end.

(** [convertWavToMp3] from the bytes of the file on: a [null] from the decoder
    and any exception end in error. *)
Definition convertWavToMp3 (fuel : nat) (arrayBuffer : ArrayBuffer) (bitRate : Z)
  : conversion :=
  match parseWavFile arrayBuffer with
  | Record_ wavData => encodeWav fuel wavData bitRate
  | Null => Failed
  | Exception _ => Failed
  | Diverges => Unfinished
  end.

(** *** Vocabulary of the statements about the encode loop *)

(** Every chunk the encoder returns, block after block, empty ones included,
    with the encoder as the last block leaves it. *)
Fixpoint blockOutputs (fuel : nat) (samples : list Z) (channels : Z)
  (totalSamplesPerChannel : number) (i : Z) (enc : encoder)
  : option (list (list byte) * encoder) :=
  if lessThan i totalSamplesPerChannel then
    match fuel with
    | O => None
    | S fuel' =>
        match blocksAt samples channels i (blockSize totalSamplesPerChannel i) with
        | Throws _ => None
        | Normal (leftChunk, rightChunk) =>
            match encodeBuffer enc leftChunk rightChunk with
            | Throws _ => None
            | Normal (enc', mp3buf) =>
                match blockOutputs fuel' samples channels totalSamplesPerChannel
                                   (i + LAME_SAMPLE_BLOCK_SIZE) enc' with
                | Some (rest, last) => Some (mp3buf :: rest, last)
                | None => None
                end
            end
        end
    end
  else Some ([], enc).

End Encoder.

Definition nonEmpty (chunk : list byte) : bool := 0 <? Z.of_nat (List.length chunk).

Definition totalLength (chunks : list (list byte)) : nat :=
  list_sum (map (@List.length byte) chunks).

(** The bytes of [blob] from position [start], [len] of them. *)
Definition slice (bytes : list byte) (start len : nat) : list byte :=
  firstn len (skipn start bytes).

End Converter.

Import Converter.

(** A stand-in encoder for examples: its state counts the blocks seen; it
    returns nothing for the first block and two bytes for every later one,
    and one byte on [flush]. *)
Definition toyNew (channels sampleRate bitRate : Z) : completion nat := Normal O.

Definition toyEncode (enc : nat) (leftChunk : list Z) (rightChunk : option (list Z))
  : completion (nat * list byte) :=
  Normal (S enc, match enc with O => [] | S _ => [x4d; x50] end).

Definition toyFlush (enc : nat) : completion (list byte) := Normal [xff].

Definition threeBlockWav : WavData := mkWavData 1 44100 (repeat 0 2400) 16.

(* ------------------------------------------------------------------ *)
(** ** The application component: the job queue controller

    The React state of [App] is one record; every handler and effect is a
    function from state to state, executed atomically.  The values the
    conversion hook exposes ([status], [error], [result], [progress]) are an
    input of the effect that mirrors them. *)

Module App.

Inductive ConversionStatus : Type :=
| IDLE | READING_FILE | PARSING_WAV | CONVERTING | DONE | ERROR.

Definition status_eqb (a b : ConversionStatus) : bool :=
  match a, b with
  | IDLE, IDLE | READING_FILE, READING_FILE | PARSING_WAV, PARSING_WAV
  | CONVERTING, CONVERTING | DONE, DONE | ERROR, ERROR => true
  | _, _ => false
  end.

(** What [generateFileId] reads of a [File]. *)
Record File : Type := mkFile {
  name : string;
  size : N;
  lastModified : Z
}.

Record ConverterResult : Type := mkResult {
  mp3Blob : option Blob;
  mp3Url : option string;
  fileName : option string
}.

Record ConversionJob : Type := mkJob {
  id : string;
  file : File;
  status : ConversionStatus;
  progress : Z;
  result : option ConverterResult;
  error : option string
}.

(** [`${file.name}-${file.size}-${file.lastModified}`] *)
Definition generateFileId (f : File) : string :=
  (name f ++ "-" ++ NilZero.string_of_uint (N.to_uint (size f))
     ++ "-" ++ NilZero.string_of_int (Z.to_int (lastModified f)))%string.

Record State : Type := mkState {
  conversionJobs : list ConversionJob;
  fileUploadResetTrigger : Z;
  isProcessingQueue : bool;
  currentConvertingFileId : option string;
  totalFilesInCurrentRun : Z;
  filesProcessedInCurrentRun : Z;
  isZipping : bool
}.

Definition initialState : State := mkState [] 0 false None 0 0 false.

(** The values returned by [useWavToMp3Converter]. *)
Record Hook : Type := mkHook {
  hookStatus : ConversionStatus;
  hookError : option string;
  hookResult : ConverterResult;
  hookProgress : Z
}.

Definition isIdle (j : ConversionJob) : bool := status_eqb (status j) IDLE.

(** [CONVERTING || PARSING_WAV || READING_FILE] *)
Definition isActiveStatus (s : ConversionStatus) : bool :=
  status_eqb s CONVERTING || status_eqb s PARSING_WAV || status_eqb s READING_FILE.

Definition isActive (j : ConversionJob) : bool := isActiveStatus (status j).

Definition hasId (fileId : string) (j : ConversionJob) : bool :=
  String.eqb (id j) fileId.

(** [j.id === currentConvertingFileId], false when the marker is [null]. *)
Definition isCurrent (current : option string) (j : ConversionJob) : bool :=
  match current with
  | Some c => hasId c j
  | None => false
  end.

Definition count (p : ConversionJob -> bool) (jobs : list ConversionJob) : Z :=
  Z.of_nat (List.length (filter p jobs)).

(** *** processNextFileInQueue *)

Definition startJob (j : ConversionJob) : ConversionJob :=
  mkJob (id j) (file j) READING_FILE 0 None None.

Definition processNextFileInQueue (s : State) : State :=
  match currentConvertingFileId s with
  | Some _ => s
  | None =>
      if isZipping s then s
      else
        match find isIdle (conversionJobs s) with
        | Some nextJobToProcess =>
            let newRun :=
              (filesProcessedInCurrentRun s >=? totalFilesInCurrentRun s)
              || (totalFilesInCurrentRun s =? 0) in
            let pendingJobs := count isIdle (conversionJobs s) in
            mkState
              (map (fun j => if hasId (id nextJobToProcess) j then startJob j else j)
                   (conversionJobs s))
              (fileUploadResetTrigger s)
              true
              (Some (id nextJobToProcess))
              (if newRun then pendingJobs else totalFilesInCurrentRun s)
              (if newRun then 0 else filesProcessedInCurrentRun s)
              (isZipping s)
        | None =>
            if existsb isActive (conversionJobs s) then s
            else
              mkState (conversionJobs s) (fileUploadResetTrigger s) false
                      (currentConvertingFileId s) (totalFilesInCurrentRun s)
                      (filesProcessedInCurrentRun s) (isZipping s)
        end
  end.

(** *** handleFilesSelect *)

Definition newJob (f : File) : ConversionJob :=
  mkJob (generateFileId f) f IDLE 0 None None.

Definition isNew (existing : list ConversionJob) (j : ConversionJob) : bool :=
  negb (existsb (fun existingJob => String.eqb (id existingJob) (id j)) existing).

Definition handleFilesSelect (files : list File) (s : State) : State :=
  if isZipping s then s
  else
    let newJobs := filter (isNew (conversionJobs s)) (map newJob files) in
    if (0 <? Z.of_nat (List.length newJobs)) then
      mkState (conversionJobs s ++ newJobs) (fileUploadResetTrigger s)
              (isProcessingQueue s) (currentConvertingFileId s)
              (totalFilesInCurrentRun s) (filesProcessedInCurrentRun s) (isZipping s)
    else s.

(** *** removeFile *)

(** [currentConvertingFileId === fileId] *)
Definition currentIs (fileId : string) (s : State) : bool :=
  match currentConvertingFileId s with
  | Some current => String.eqb current fileId
  | None => false
  end.

Definition removeFile (fileId : string) (s : State) : State :=
  if isZipping s || (currentIs fileId s && isProcessingQueue s) then s
  else
    let prevJobs := conversionJobs s in
    let jobToRemove := find (hasId fileId) prevJobs in
    let updatedJobs := filter (fun job => negb (hasId fileId job)) prevJobs in
    let adjust :=
      match jobToRemove with
      | Some j =>
          isIdle j
          && (0 <? totalFilesInCurrentRun s)
          && (filesProcessedInCurrentRun s <? totalFilesInCurrentRun s)
      | None => false
      end in
    let newIdleCount := count isIdle updatedJobs in
    let currentlyProcessing := find (isCurrent (currentConvertingFileId s)) updatedJobs in
    let newTotal :=
      newIdleCount + (match currentlyProcessing with Some _ => 1 | None => 0 end) in
    let newTotal := if newTotal <? 0 then 0 else newTotal in
    let total := if adjust then newTotal else totalFilesInCurrentRun s in
    let processed :=
      if adjust && (filesProcessedInCurrentRun s >? newTotal)
      then newTotal else filesProcessedInCurrentRun s in
    if Z.of_nat (List.length updatedJobs) =? 0 then
      mkState updatedJobs (fileUploadResetTrigger s) false
              (currentConvertingFileId s) 0 0 (isZipping s)
    else
      mkState updatedJobs (fileUploadResetTrigger s) (isProcessingQueue s)
              (currentConvertingFileId s) total processed (isZipping s).

(** *** The effect that mirrors the hook into the admitted job *)

Definition isTerminal (s : ConversionStatus) : bool :=
  status_eqb s DONE || status_eqb s ERROR.

Definition mirrorJob (h : Hook) (job : ConversionJob) : ConversionJob :=
  let newProgress :=
    if isActiveStatus (hookStatus h) then hookProgress h
    else if status_eqb (hookStatus h) DONE then 100
    else if status_eqb (hookStatus h) ERROR then 0
    else progress job in
  mkJob (id job) (file job) (hookStatus h) newProgress
        (if status_eqb (hookStatus h) DONE then Some (hookResult h) else result job)
        (if status_eqb (hookStatus h) ERROR then hookError h else None).

(** The updater maps over the jobs; for every job it rewrites under a
    terminal status it clears the marker and adds one to the processed
    count. *)
Definition mirrorHook (h : Hook) (s : State) : State :=
  match currentConvertingFileId s with
  | None => s
  | Some current =>
      let matching := count (hasId current) (conversionJobs s) in
      let finished := isTerminal (hookStatus h) && (0 <? matching) in
      mkState
        (map (fun job => if hasId current job then mirrorJob h job else job)
             (conversionJobs s))
        (fileUploadResetTrigger s)
        (isProcessingQueue s)
        (if finished then None else currentConvertingFileId s)
        (totalFilesInCurrentRun s)
        (if finished then filesProcessedInCurrentRun s + matching
         else filesProcessedInCurrentRun s)
        (isZipping s)
  end.

(** *** handleResetClick *)

Definition handleResetClick (s : State) : State :=
  if isZipping s then s
  else mkState [] (fileUploadResetTrigger s + 1) false None 0 0 (isZipping s).

(** *** handleDownloadAllClick *)

Definition hasBlob (j : ConversionJob) : bool :=
  match result j with
  | Some r => match mp3Blob r with Some _ => true | None => false end
  | None => false
  end.

Definition isConverted (j : ConversionJob) : bool :=
  status_eqb (status j) DONE && hasBlob j.

Definition setZipping (z : bool) (s : State) : State :=
  mkState (conversionJobs s) (fileUploadResetTrigger s) (isProcessingQueue s)
          (currentConvertingFileId s) (totalFilesInCurrentRun s)
          (filesProcessedInCurrentRun s) z.

(** The handler up to [setIsZipping(true)]: [None] when it returns before,
    the state with the flag set otherwise.  [jszipLoaded] is
    [typeof JSZip !== 'undefined']. *)
Definition startExport (jszipLoaded : bool) (s : State) : option State :=
  if isProcessingQueue s || isZipping s then None
  else
    let filesToZip := filter isConverted (conversionJobs s) in
    if Z.of_nat (List.length filesToZip) =? 0 then None
    else if negb jszipLoaded then None
    else Some (setZipping true s).

(** The entries handed to [zip.file(name, blob)]. *)
Definition zipEntries (jobs : list ConversionJob) : list (string * Blob) :=
  flat_map (fun job =>
              match result job with
              | Some r =>
                  match mp3Blob r, fileName r with
                  | Some blob, Some fileName =>
                      if String.eqb fileName EmptyString then [] else [(fileName, blob)]
                  | _, _ => []
                  end
              | None => []
              end)
           (filter isConverted jobs).

(** The [finally] block, reached whether the archive was generated or
    generation threw. *)
Definition settleExport (s : State) : State := setZipping false s.

(** The whole handler when nothing else happens while the archive is
    generated; [generateAsync] is the archive library, which may throw. *)
Definition handleDownloadAllClick (jszipLoaded : bool)
  (generateAsync : list (string * Blob) -> completion Blob) (s : State) : State :=
  match startExport jszipLoaded s with
  | None => s
  | Some zipping =>
      match generateAsync (zipEntries (conversionJobs s)) with
      | Normal _ => settleExport zipping
      | Throws _ => settleExport zipping
      end
  end.

(** *** The controller as a transition system *)

Inductive event : Type :=
| FilesSelected (files : list File)
| QueueEffect
| HookChanged (h : Hook)
| RemoveClicked (fileId : string)
| ResetClicked
| DownloadAllClicked (jszipLoaded : bool)
| ArchiveSettled.

Definition step (e : event) (s : State) : State :=
  match e with
  | FilesSelected files => handleFilesSelect files s
  | QueueEffect => if isZipping s then s else processNextFileInQueue s
  | HookChanged h => mirrorHook h s
  | RemoveClicked fileId => removeFile fileId s
  | ResetClicked => handleResetClick s
  | DownloadAllClicked jszipLoaded =>
      match startExport jszipLoaded s with
      | Some zipping => zipping
      | None => s
      end
  | ArchiveSettled => settleExport s
  end.

Definition run (events : list event) (s : State) : State :=
  fold_left (fun st e => step e st) events s.

Inductive reachable : State -> Prop :=
| reachable_initial : reachable initialState
| reachable_step : forall e s, reachable s -> reachable (step e s).

(** *** Vocabulary of the statements about the controller *)

Definition ids (jobs : list ConversionJob) : list string := map id jobs.

Definition activeCount (s : State) : Z := count isActive (conversionJobs s).

(** Every batch of selected files holds pairwise distinct identities. *)
Definition distinctBatches (events : list event) : Prop :=
  forall files, In (FilesSelected files) events -> NoDup (map generateFileId files).

End App.

Import App.

(** Example files and states. *)
Definition take1 : File := mkFile "take1.wav" 44 1700000000000.
Definition take2 : File := mkFile "take2.wav" 88 1700000000001.

Definition take1Done : Hook :=
  mkHook DONE None
         (mkResult (Some (mkBlob [xff; xfb] "audio/mpeg")) (Some "blob:1"%string)
                   (Some "take1.mp3"%string))
         100.

(** [take1] converted, the queue at rest. *)
Definition convertedState : State :=
  run [FilesSelected [take1]; QueueEffect; HookChanged take1Done; QueueEffect]
      initialState.

(** The same, with a bulk export underway. *)
Definition exportingState : State :=
  run [DownloadAllClicked true] convertedState.

(** [take1] admitted, [take2] waiting. *)
Definition busyState : State :=
  run [FilesSelected [take1; take2]; QueueEffect] initialState.

(** No event of the list is the end of the archive generation. *)
Definition beforeSettling (events : list event) : Prop :=
  ~ In ArchiveSettled events.

(** An archive library whose [generateAsync] always throws. *)
Definition failingArchive (entries : list (string * Blob)) : completion Blob :=
  Throws EncoderError.

(* ------------------------------------------------------------------ *)
(** ** Further vocabulary for the decoder *)

(** The loop variables with which the chunk loop of [parseWavFile] starts a
    turn on [view]: the initial ones, and those a turn that falls through
    leaves behind. *)
Inductive reaches (view : ArrayBuffer) : vars -> Prop :=
| reaches_start : reaches view initVars
| reaches_next : forall v v',
    reaches view v ->
    offset v < byteLength view ->
    loopBody view v = Continue v' ->
    reaches view v'.

(** The character the decoder makes of the byte at [i]. *)
Definition charAt (view : ArrayBuffer) (i : Z) : ascii :=
  ascii_of_N (Z.to_N (byteAt view i)).

Definition isInt16 (x : Z) : Prop := - 32768 <= x <= 32767.

(** A file with the canonical 44-byte header: signature, a 16-byte PCM format
    chunk and the data chunk. *)
Definition byteOfZ (z : Z) : byte :=
  match Byte.of_N (Z.to_N z) with
  | Some b => b
  | None => x00
  end.

Definition canonicalWav (ch sr bits : Z) (payload : list byte) : ArrayBuffer :=
  riffHeader ++ fmtChunk ch sr bits
    ++ dataChunk (Z.of_nat (List.length payload)) payload.

(** A signed 16-bit sample as two little-endian bytes. *)
Definition s16le (s : Z) : list byte := u16le (s mod 65536).

Definition wav16 (ch sr : Z) (samples : list Z) : ArrayBuffer :=
  canonicalWav ch sr 16 (flat_map s16le samples).

Definition wav8 (ch sr : Z) (bytes : list Z) : ArrayBuffer :=
  canonicalWav ch sr 8 (map byteOfZ bytes).

(** Example buffers: a format chunk of 8 bytes; a [LIST] chunk followed by a
    data chunk, with no format chunk. *)
Definition shortFmtWav : ArrayBuffer :=
  riffHeader ++ bytesOf "fmt "%string ++ u32le 8 ++ u16le 1 ++ u16le 1 ++ u32le 8000.

Definition dataFirstWav : ArrayBuffer :=
  riffHeader ++ bytesOf "LIST"%string ++ u32le 2 ++ [x41; x42]
    ++ dataChunk 2 [x01; x00].

(** The sample a record holds at index [k], read off the payload that starts
    at [dataOffset]: the little-endian signed 16-bit value for 16-bit data,
    the byte less 128, times 256, for 8-bit data. *)
Definition sampleOfPayload (view : ArrayBuffer) (bits dataOffset k : Z) : Z :=
  if bits =? 16 then int16At view (dataOffset + 2 * k)
  else (byteAt view (dataOffset + k) - 128) * 256.

(** What the scan leaves when it found a format chunk and a non-empty data
    chunk. *)
Definition foundBoth (v : vars) : Prop :=
  foundFmt v = true /\ dataChunkOffset v <> -1 /\ dataChunkSize v <> 0.

(** The byte of weight [256 ^ k] of [x]. *)
Definition leByte (x k : Z) : byte := byteOfZ ((x / 256 ^ k) mod 256).

(** The 44 header bytes of [canonicalWav], spelled out. *)
Definition canonicalHeader (ch sr bits n : Z) : list byte :=
  [x52; x49; x46; x46; x00; x00; x00; x00; x57; x41; x56; x45;
   x66; x6d; x74; x20; x10; x00; x00; x00;
   x01; x00; leByte ch 0; leByte ch 1;
   leByte sr 0; leByte sr 1; leByte sr 2; leByte sr 3;
   leByte (sr * ch * bits / 8) 0; leByte (sr * ch * bits / 8) 1;
   leByte (sr * ch * bits / 8) 2; leByte (sr * ch * bits / 8) 3;
   leByte (ch * bits / 8) 0; leByte (ch * bits / 8) 1;
   leByte bits 0; leByte bits 1;
   x64; x61; x74; x61;
   leByte n 0; leByte n 1; leByte n 2; leByte n 3].

(* ------------------------------------------------------------------ *)
(** ** Further vocabulary for the encode loop *)

Section Schedule.

Variable encoder : Type.
Variable encodeBuffer :
  encoder -> list Z -> option (list Z) -> completion (encoder * list byte).

(** The blocks the loop hands to [encodeBuffer], turn after turn, from
    position [i] on; [None] when they are not all formed within [fuel]
    turns. *)
Fixpoint blockSchedule (fuel : nat) (samples : list Z) (channels : Z)
  (totalSamplesPerChannel : number) (i : Z)
  : option (list (list Z * option (list Z))) :=
  if lessThan i totalSamplesPerChannel then
    match fuel with
    | O => None
    | S fuel' =>
        match blocksAt samples channels i (blockSize totalSamplesPerChannel i) with
        | Throws _ => None
        | Normal block =>
            match blockSchedule fuel' samples channels totalSamplesPerChannel
                                (i + LAME_SAMPLE_BLOCK_SIZE) with
            | Some rest => Some (block :: rest)
            | None => None
            end
        end
    end
  else Some [].

(** Encoding a list of blocks in order, collecting the non-empty chunks and
    stopping at the first exception. *)
Fixpoint feed (enc : encoder) (mp3Data : list (list byte))
  (blocks : list (list Z * option (list Z))) : looped encoder :=
  match blocks with
  | [] => LoopDone enc mp3Data
  | (leftChunk, rightChunk) :: rest =>
      match encodeBuffer enc leftChunk rightChunk with
      | Throws e => LoopThrew e
      | Normal (enc', mp3buf) => feed enc' (pushNonEmpty mp3Data mp3buf) rest
      end
  end.

End Schedule.

(** The samples of channel [c] of a stream interleaved two by two:
    [frames] of them. *)
Definition channelOfPairs (samples : list Z) (c frames : Z) : list Z :=
  map (fun t => sampleAt samples (2 * t + c)) (indices frames).

(** The right chunk of a block, empty for a mono block. *)
Definition rightOf (block : list Z * option (list Z)) : list Z :=
  match snd block with
  | Some rightChunk => rightChunk
  | None => []
  end.

(* ------------------------------------------------------------------ *)
(** ** The name of the output file ([convertWavToMp3], after the blob) *)

(** [s.lastIndexOf(c)]: the index of the last occurrence, -1 when there is
    none. *)
Fixpoint lastIndexOf (c : ascii) (s : string) : Z :=
  match s with
  | EmptyString => -1
  | String a rest =>
      let r := lastIndexOf c rest in
      if 0 <=? r then r + 1 else if Ascii.eqb a c then 0 else -1
  end.

(** [s.substring(0, e)]: a negative [e] counts as 0, an [e] beyond the end as
    the length. *)
Definition substringTo (s : string) (e : Z) : string :=
  String.substring 0 (Z.to_nat e) s.

(** [wavFile.name.substring(0, wavFile.name.lastIndexOf('.')) || wavFile.name],
    then [`${originalFileName}.mp3`]. *)
Definition outputFileName (name : string) : string :=
  let stem := substringTo name (lastIndexOf "."%char name) in
  let originalFileName := if String.eqb stem EmptyString then name else stem in
  (originalFileName ++ ".mp3")%string.

Fixpoint containsChar (c : ascii) (s : string) : bool :=
  match s with
  | EmptyString => false
  | String a rest => Ascii.eqb a c || containsChar c rest
  end.

(* ------------------------------------------------------------------ *)
(** ** Further vocabulary for the controller *)

(** [canDownloadAll]: whether the "Download All" button is rendered. *)
Definition canDownloadAll (s : State) : bool :=
  (0 <? Z.of_nat (List.length (filter isConverted (conversionJobs s))))
  && negb (isProcessingQueue s) && negb (isZipping s).

(** The [disabled] attribute of the remove button of [job]. *)
Definition removeDisabled (s : State) (job : ConversionJob) : bool :=
  isZipping s || (isCurrent (currentConvertingFileId s) job && isProcessingQueue s).

(** [showResetButton] *)
Definition showResetButton (s : State) : bool :=
  (0 <? Z.of_nat (List.length (conversionJobs s))) && negb (isZipping s).

(** The state a reset leaves. *)
Definition afterReset (s : State) : State :=
  mkState [] (fileUploadResetTrigger s + 1) false None 0 0 false.

(** Every job carries the id of its file. *)
Definition idsFromFiles (s : State) : Prop :=
  forall j, In j (conversionJobs s) -> id j = generateFileId (file j).

(** One round of the queue: the queue effect admits a job, the hook passes
    through the reports [fst r], none of them an outcome, and ends in the
    outcome [snd r]; each is mirrored as it comes. *)
Definition oneRound (r : list Hook * Hook) : list event :=
  QueueEffect :: map HookChanged (fst r) ++ [HookChanged (snd r)].

Definition rounds (rs : list (list Hook * Hook)) : list event :=
  flat_map oneRound rs.

Definition validRound (r : list Hook * Hook) : bool :=
  forallb (fun h => negb (isTerminal (hookStatus h))) (fst r)
  && isTerminal (hookStatus (snd r)).

(** What a job is after it was admitted and the outcome [h] mirrored. *)
Definition settled (h : Hook) (j : ConversionJob) : ConversionJob :=
  mirrorJob h (startJob j).

(** The first jobs of the list settled with the outcomes of the rounds, one
    each and in order; the jobs beyond the rounds as they are. *)
Fixpoint settleFirst (rs : list (list Hook * Hook)) (jobs : list ConversionJob)
  : list ConversionJob :=
  match rs, jobs with
  | r :: rs', j :: jobs' => settled (snd r) j :: settleFirst rs' jobs'
  | _, _ => jobs
  end.

(** The controller after a batch [files] was selected in the initial state
    and one job went through each of the rounds [rs]. *)
Definition afterRounds (files : list File) (rs : list (list Hook * Hook)) : State :=
  mkState (settleFirst rs (map newJob files)) 0 true None
          (Z.of_nat (List.length files)) (Z.of_nat (List.length rs)) false.

(** Events after which a reset controller stays as the reset left it:
    every event but a selection of files and a further reset. *)
Definition addsNothing (e : event) : bool :=
  match e with
  | FilesSelected _ | ResetClicked => false
  | _ => true
  end.

(** The "Download All" button is rendered under [canDownloadAll] and
    carries [disabled={isZipping || typeof JSZip === 'undefined' ||
    isProcessingQueue}]: whether a click on it reaches the handler. *)
Definition downloadAllEnabled (jszipLoaded : bool) (s : State) : bool :=
  canDownloadAll s
  && negb (isZipping s || negb jszipLoaded || isProcessingQueue s).

(** What the loop variables hold once a format chunk was accepted: a sample
    width of 8 or 16, an unsigned 16-bit channel count and an unsigned
    32-bit sample rate. *)
Definition fmtAccepted (v : vars) : Prop :=
  foundFmt v = true ->
  (v_bits v = 8 \/ v_bits v = 16)
  /\ 0 <= v_channels v < 65536
  /\ 0 <= v_sampleRate v < 4294967296.

(** A third file, and the hook after the conversion of [take2]. *)
Definition take3 : File := mkFile "take3.wav" 132 1700000000002.

Definition take2Done : Hook :=
  mkHook DONE None
         (mkResult (Some (mkBlob [xff; xfb; x90] "audio/mpeg")) (Some "blob:2"%string)
                   (Some "take2.mp3"%string))
         100.
Example parse_16bit_mono :
  parseWavFile (riffHeader ++ fmtChunk 1 44100 16 ++ dataChunk 4 [x01; x00; xff; xff])
  = Record_ (mkWavData 1 44100 [1; -1] 16).
Proof. vm_compute. reflexivity. Qed.

Example parse_8bit_mono :
  parseWavFile (riffHeader ++ fmtChunk 1 8000 8 ++ dataChunk 3 [x80; x00; xff])
  = Record_ (mkWavData 1 8000 [0; -32768; 32512] 8).
Proof. vm_compute. reflexivity. Qed.

(* ------------------------------------------------------------------ *)
(** ** Properties of the primitives *)

Section Primitives.

Lemma byteAt_range (b : ArrayBuffer) (i : Z) : 0 <= byteAt b i <= 255.
Proof.
  unfold byteAt.
  pose proof (Byte.to_N_bounded (nth (Z.to_nat i) b x00)).
  lia.
Qed.

Lemma Normal_inj {A} (x y : A) : Normal x = Normal y -> x = y.
Proof. intros H. congruence. Qed.

Lemma getUint32_nonneg (b : ArrayBuffer) (i n : Z) :
  getUint32 b i = Normal n -> 0 <= n.
Proof.
  unfold getUint32. destruct (inView b i 4); [|discriminate].
  intros H; apply Normal_inj in H; subst n.
  pose proof (byteAt_range b i). pose proof (byteAt_range b (i + 1)).
  pose proof (byteAt_range b (i + 2)). pose proof (byteAt_range b (i + 3)).
  lia.
Qed.

Lemma toInt32_small (z : Z) : - 2 ^ 31 <= z < 2 ^ 31 -> toInt32 z = z.
Proof. intros H. unfold toInt32. rewrite Z.mod_small; lia. Qed.

Lemma toInt16_small (z : Z) : - 2 ^ 15 <= z < 2 ^ 15 -> toInt16 z = z.
Proof. intros H. unfold toInt16. rewrite Z.mod_small; lia. Qed.

Lemma convert8_scaled (x : Z) : 0 <= x <= 255 -> convert8 x = (x - 128) * 256.
Proof.
  intros H. unfold convert8, shl.
  change (Z.land 8 31) with 8.
  rewrite (toInt32_small (x - 128)) by lia.
  rewrite Z.shiftl_mul_pow2 by lia.
  change (2 ^ 8) with 256.
  rewrite toInt32_small by lia.
  apply toInt16_small. lia.
Qed.

End Primitives.

(* ------------------------------------------------------------------ *)
(** ** The chunk scanner *)

Ltac break_if :=
  match goal with
  | H : context [if ?c then _ else _] |- _ => destruct c eqn:?
  | |- context [if ?c then _ else _] => destruct c eqn:?
  end.

Ltac break_reading :=
  match goal with
  | H : context [reading ?c _] |- _ => destruct c eqn:?; cbn [reading] in H
  end.

Section ChunkScanner.

Variable view : ArrayBuffer.

Lemma skipChunk_offset (n : Z) (v : vars) :
  offset (skipChunk n v) = offset v + n + n mod 2.
Proof.
  unfold skipChunk; cbn [offset].
  pose proof (Z.mod_pos_bound n 2 ltac:(lia)).
  destruct (n mod 2 =? 0) eqn:E; cbn [negb];
    [apply Z.eqb_eq in E | apply Z.eqb_neq in E]; lia.
Qed.

Lemma loopBody_short (v : vars) :
  offset v + 8 > byteLength view -> loopBody view v = Break v.
Proof.
  intros H. unfold loopBody.
  destruct (offset v + 8 >? byteLength view) eqn:E; [reflexivity|].
  rewrite Z.gtb_ltb in E. rewrite Z.ltb_ge in E. lia.
Qed.

(** A turn that falls through to the next iteration has read a header whose
    tag is not [data] and has moved [offset] past header, payload and
    padding byte; the data chunk variables are untouched. *)
Lemma loopBody_Continue (v v' : vars) :
  loopBody view v = Continue v' ->
  exists chunkId chunkSize,
    chunkHeader view (offset v) = Normal (chunkId, chunkSize)
    /\ chunkId <> "data"%string
    /\ 0 <= chunkSize
    /\ offset v + 8 <= byteLength view
    /\ offset v' = offset v + 8 + chunkSize + chunkSize mod 2
    /\ dataChunkOffset v' = dataChunkOffset v
    /\ dataChunkSize v' = dataChunkSize v.
Proof.
  unfold loopBody, chunkHeader. intros H.
  destruct (offset v + 8 >? byteLength view) eqn:Hlen; [discriminate|].
  rewrite Z.gtb_ltb in Hlen. rewrite Z.ltb_ge in Hlen.
  destruct (getStringFromDataView view (offset v) 4) as [chunkId|] eqn:Hid;
    cbn [reading bind] in *; [|discriminate].
  destruct (getUint32 view (offset v + 4)) as [chunkSize|] eqn:Hsz;
    cbn [reading bind] in *; [|discriminate].
  pose proof (getUint32_nonneg _ _ _ Hsz) as Hnn.
  exists chunkId, chunkSize.
  destruct (String.eqb chunkId "fmt ") eqn:Hfmt.
  - apply String.eqb_eq in Hfmt.
    repeat (first [break_if | break_reading]; try discriminate).
    apply (f_equal (fun t => match t with Continue x => x | _ => v end)) in H.
    subst v'. rewrite skipChunk_offset. cbn.
    repeat split; try lia. subst chunkId. discriminate.
  - destruct (String.eqb chunkId "data") eqn:Hdata.
    + break_if; discriminate.
    + apply String.eqb_neq in Hdata.
      apply (f_equal (fun t => match t with Continue x => x | _ => v end)) in H.
      subst v'. rewrite skipChunk_offset. cbn.
      repeat split; try lia. exact Hdata.
Qed.

(** A turn that ends the loop by [break] either found fewer than 8 bytes for
    a header and changed nothing, or read a [data] header after a format
    chunk and recorded the payload's offset and declared size. *)
Lemma loopBody_Break (v v' : vars) :
  loopBody view v = Break v' ->
  (offset v + 8 > byteLength view /\ v' = v)
  \/ (offset v + 8 <= byteLength view
      /\ exists chunkSize,
           chunkHeader view (offset v) = Normal ("data"%string, chunkSize)
           /\ 0 <= chunkSize
           /\ foundFmt v = true
           /\ v' = mkVars (offset v + 8) (v_channels v) (v_sampleRate v) (v_bits v)
                          (offset v + 8) chunkSize (foundFmt v)).
Proof.
  unfold loopBody, chunkHeader. intros H.
  destruct (offset v + 8 >? byteLength view) eqn:Hlen.
  - left. rewrite Z.gtb_ltb in Hlen. apply Z.ltb_lt in Hlen.
    split; [lia | congruence].
  - right. rewrite Z.gtb_ltb in Hlen. rewrite Z.ltb_ge in Hlen.
    split; [lia|].
    destruct (getStringFromDataView view (offset v) 4) as [chunkId|] eqn:Hid;
      cbn [reading bind] in *; [|discriminate].
    destruct (getUint32 view (offset v + 4)) as [chunkSize|] eqn:Hsz;
      cbn [reading bind] in *; [|discriminate].
    destruct (String.eqb chunkId "fmt ") eqn:Hfmt.
    + repeat (first [break_if | break_reading]; try discriminate).
    + destruct (String.eqb chunkId "data") eqn:Hdata; [|discriminate].
      apply String.eqb_eq in Hdata. subst chunkId.
      destruct (foundFmt v) eqn:Hf; cbn [negb] in H; [|discriminate].
      exists chunkSize.
      repeat split; [eapply getUint32_nonneg; eassumption | congruence].
Qed.

End ChunkScanner.

(** *** The loop terminates *)

Section ScanTermination.

Variable view : ArrayBuffer.

Lemma scanLoop_enough_fuel (fuel : nat) :
  forall v, byteLength view - offset v <= Z.of_nat fuel ->
            scanLoop fuel view v <> OutOfFuel.
Proof.
  induction fuel as [|fuel IH]; intros v Hfuel; cbn [scanLoop].
  - destruct (offset v <? byteLength view) eqn:E; [|discriminate].
    apply Z.ltb_lt in E. lia.
  - destruct (offset v <? byteLength view) eqn:E; [|discriminate].
    destruct (loopBody view v) as [v'| | |] eqn:Hbody; try discriminate.
    apply IH.
    destruct (loopBody_Continue _ _ _ Hbody)
      as (chunkId & chunkSize & _ & _ & Hnn & _ & Hoff & _).
    pose proof (Z.mod_pos_bound chunkSize 2 ltac:(lia)). lia.
Qed.

Lemma scanLoop_more_fuel (fuel : nat) :
  forall v extra, scanLoop fuel view v <> OutOfFuel ->
                  scanLoop (fuel + extra) view v = scanLoop fuel view v.
Proof.
  induction fuel as [|fuel IH]; intros v extra Hne.
  - cbn [scanLoop] in Hne. destruct extra; cbn [scanLoop Nat.add];
      destruct (offset v <? byteLength view); congruence.
  - cbn [scanLoop Nat.add] in *.
    destruct (offset v <? byteLength view); [|reflexivity].
    destruct (loopBody view v); try reflexivity.
    apply IH. exact Hne.
Qed.

Lemma scanChunks_terminates : scanChunks view <> OutOfFuel.
Proof.
  apply scanLoop_enough_fuel. unfold byteLength; cbn. lia.
Qed.

(** When the loop leaves with a data chunk recorded that was not recorded
    on entry, the payload starts after the header read at or after the
    entry offset, inside the buffer. *)
Lemma scanLoop_data_offset (fuel : nat) :
  forall v0 v,
    scanLoop fuel view v0 = Exited v ->
    dataChunkOffset v0 = -1 -> dataChunkOffset v <> -1 ->
    offset v0 + 8 <= dataChunkOffset v <= byteLength view.
Proof.
  induction fuel as [|fuel IH]; intros v0 v Hrun Hnone Hsome; cbn [scanLoop] in Hrun.
  - destruct (offset v0 <? byteLength view); [discriminate|]. congruence.
  - destruct (offset v0 <? byteLength view); [|congruence].
    destruct (loopBody view v0) as [v'|v'| |] eqn:Hbody; try discriminate.
    + destruct (loopBody_Continue _ _ _ Hbody)
        as (chunkId & chunkSize & _ & _ & Hnn & _ & Hoff & Hdco & _).
      pose proof (Z.mod_pos_bound chunkSize 2 ltac:(lia)).
      assert (offset v' + 8 <= dataChunkOffset v <= byteLength view)
        by (apply IH; [exact Hrun | congruence | exact Hsome]).
      lia.
    + assert (v' = v) by congruence. subst v'.
      destruct (loopBody_Break _ _ _ Hbody) as [[_ ->]|(Hlen & cs & _ & _ & _ & ->)];
        [congruence | cbn; lia].
Qed.

End ScanTermination.

(** *** Two buffers that coincide on their first [d] bytes *)

Section Agreement.

Variables (d : Z) (a b : ArrayBuffer).
Hypothesis Hagree : agree d a b.

Lemma agree_inView (i w : Z) :
  0 <= w -> i + w <= d -> inView b i w = inView a i w.
Proof.
  destruct Hagree as (Ha & Hb & _). intros Hw Hi. unfold inView.
  destruct (0 <=? i); [cbn [andb]|reflexivity].
  transitivity true; [|symmetry]; apply Z.leb_le; lia.
Qed.

Lemma agree_getUint8 (i : Z) : i + 1 <= d -> getUint8 b i = getUint8 a i.
Proof.
  intros Hi. unfold getUint8. rewrite agree_inView by lia.
  destruct (inView a i 1) eqn:E; [|reflexivity].
  unfold inView in E. apply andb_prop in E as [E1 _]. apply Z.leb_le in E1.
  destruct Hagree as (_ & _ & Hbytes). rewrite Hbytes by lia. reflexivity.
Qed.

Lemma agree_getUint16 (i : Z) : i + 2 <= d -> getUint16 b i = getUint16 a i.
Proof.
  intros Hi. unfold getUint16. rewrite agree_inView by lia.
  destruct (inView a i 2) eqn:E; [|reflexivity].
  unfold inView in E. apply andb_prop in E as [E1 _]. apply Z.leb_le in E1.
  destruct Hagree as (_ & _ & Hbytes). rewrite !Hbytes by lia. reflexivity.
Qed.

Lemma agree_getUint32 (i : Z) : i + 4 <= d -> getUint32 b i = getUint32 a i.
Proof.
  intros Hi. unfold getUint32. rewrite agree_inView by lia.
  destruct (inView a i 4) eqn:E; [|reflexivity].
  unfold inView in E. apply andb_prop in E as [E1 _]. apply Z.leb_le in E1.
  destruct Hagree as (_ & _ & Hbytes). rewrite !Hbytes by lia. reflexivity.
Qed.

Lemma agree_getString (n : nat) :
  forall i, i + Z.of_nat n <= d ->
            getStringFromDataView b i n = getStringFromDataView a i n.
Proof.
  induction n as [|n IH]; intros i Hi; cbn [getStringFromDataView]; [reflexivity|].
  rewrite agree_getUint8 by lia. rewrite IH by lia. reflexivity.
Qed.

Lemma agree_loopBody_Continue (v v' : vars) :
  loopBody a v = Continue v' -> offset v' <= d -> loopBody b v = Continue v'.
Proof.
  intros H Hd.
  destruct (loopBody_Continue _ _ _ H)
    as (chunkId & chunkSize & Hhdr & _ & Hnn & Hlen & Hoff & _).
  pose proof (Z.mod_pos_bound chunkSize 2 ltac:(lia)) as Hmod.
  destruct Hagree as (Ha & Hb & _).
  unfold chunkHeader in Hhdr. unfold loopBody in H |- *.
  replace (offset v + 8 >? byteLength b) with false
    by (symmetry; rewrite Z.gtb_ltb; apply Z.ltb_ge; lia).
  replace (offset v + 8 >? byteLength a) with false in H
    by (symmetry; rewrite Z.gtb_ltb; apply Z.ltb_ge; lia).
  rewrite (agree_getString 4) by (cbn; lia).
  rewrite agree_getUint32 by lia.
  destruct (getStringFromDataView a (offset v) 4) as [id|]; [|discriminate].
  destruct (getUint32 a (offset v + 4)) as [cs|]; [|discriminate].
  cbn [bind] in Hhdr. apply Normal_inj in Hhdr.
  assert (cs = chunkSize) by congruence. subst cs.
  cbn [reading] in *.
  destruct (String.eqb id "fmt "); [|exact H].
  destruct (chunkSize <? 16) eqn:E16; [discriminate|].
  apply Z.ltb_ge in E16.
  rewrite !agree_getUint16 by lia. rewrite agree_getUint32 by lia.
  exact H.
Qed.

Lemma agree_loopBody_data (v v' : vars) :
  loopBody a v = Break v' -> offset v + 8 <= d -> loopBody b v = Break v'.
Proof.
  intros H Hd.
  destruct Hagree as (Ha & Hb & _).
  unfold loopBody in H |- *.
  replace (offset v + 8 >? byteLength b) with false
    by (symmetry; rewrite Z.gtb_ltb; apply Z.ltb_ge; lia).
  replace (offset v + 8 >? byteLength a) with false in H
    by (symmetry; rewrite Z.gtb_ltb; apply Z.ltb_ge; lia).
  rewrite (agree_getString 4) by (cbn; lia).
  rewrite agree_getUint32 by lia.
  destruct (getStringFromDataView a (offset v) 4) as [id|]; [|discriminate].
  destruct (getUint32 a (offset v + 4)) as [cs|]; [|discriminate].
  cbn [reading] in *.
  destruct (String.eqb id "fmt "); [|exact H].
  repeat (first [break_if | break_reading]; try discriminate).
Qed.

(** A scan of [a] that records a data chunk whose payload starts within the
    common part ends the same way on [b]. *)
Lemma agree_scanLoop (fuel : nat) :
  forall v0 v,
    scanLoop fuel a v0 = Exited v ->
    dataChunkOffset v0 = -1 -> dataChunkOffset v <> -1 ->
    dataChunkOffset v <= d ->
    scanLoop fuel b v0 = Exited v.
Proof.
  induction fuel as [|fuel IH]; intros v0 v Hrun Hnone Hsome Hd.
  - cbn [scanLoop] in Hrun.
    destruct (offset v0 <? byteLength a); [discriminate|]. congruence.
  - pose proof (scanLoop_data_offset a _ _ _ Hrun Hnone Hsome) as Hrange.
    cbn [scanLoop] in Hrun |- *.
    destruct (offset v0 <? byteLength a); [|congruence].
    replace (offset v0 <? byteLength b) with true
      by (symmetry; apply Z.ltb_lt; destruct Hagree as (_ & Hb & _); lia).
    destruct (loopBody a v0) as [v'|v'| |] eqn:Hbody; try discriminate.
    + destruct (loopBody_Continue _ _ _ Hbody)
        as (_ & _ & _ & _ & _ & _ & _ & Hdco & _).
      assert (offset v' + 8 <= dataChunkOffset v <= byteLength a)
        by (apply (scanLoop_data_offset a fuel); congruence).
      rewrite (agree_loopBody_Continue _ _ Hbody) by lia.
      apply IH; congruence.
    + rewrite (agree_loopBody_data _ _ Hbody) by lia. exact Hrun.
Qed.

End Agreement.

(** *** Facts about the variables the loop leaves behind *)

Section ScanResult.

Variable view : ArrayBuffer.

Lemma scanLoop_dataSize_nonneg (fuel : nat) :
  forall v0 v, scanLoop fuel view v0 = Exited v ->
               0 <= dataChunkSize v0 -> 0 <= dataChunkSize v.
Proof.
  induction fuel as [|fuel IH]; intros v0 v Hrun H0; cbn [scanLoop] in Hrun.
  - destruct (offset v0 <? byteLength view); [discriminate|]. congruence.
  - destruct (offset v0 <? byteLength view); [|congruence].
    destruct (loopBody view v0) as [v'|v'| |] eqn:Hbody; try discriminate.
    + destruct (loopBody_Continue _ _ _ Hbody)
        as (_ & _ & _ & _ & _ & _ & _ & _ & Hdcs).
      apply (IH v' v Hrun). lia.
    + assert (v' = v) by congruence. subst v'.
      destruct (loopBody_Break _ _ _ Hbody) as [[_ ->]|(_ & cs & _ & Hcs & _ & ->)];
        [exact H0 | exact Hcs].
Qed.

(** Header, payload and padding are skipped in even steps from offset 12:
    the payload the scanner records always starts at an even offset. *)
Lemma scanLoop_data_even (fuel : nat) :
  forall v0 v, scanLoop fuel view v0 = Exited v ->
               offset v0 mod 2 = 0 ->
               dataChunkOffset v0 = -1 -> dataChunkOffset v <> -1 ->
               dataChunkOffset v mod 2 = 0.
Proof.
  induction fuel as [|fuel IH]; intros v0 v Hrun Heven Hnone Hsome;
    cbn [scanLoop] in Hrun.
  - destruct (offset v0 <? byteLength view); [discriminate|]. congruence.
  - destruct (offset v0 <? byteLength view); [|congruence].
    destruct (loopBody view v0) as [v'|v'| |] eqn:Hbody; try discriminate.
    + destruct (loopBody_Continue _ _ _ Hbody)
        as (_ & cs & _ & _ & _ & _ & Hoff & Hdco & _).
      apply (IH v' v Hrun); [|congruence|exact Hsome].
      rewrite Hoff.
      pose proof (Z.mod_pos_bound cs 2 ltac:(lia)).
      pose proof (Z.div_mod cs 2 ltac:(lia)).
      pose proof (Z.div_mod (offset v0) 2 ltac:(lia)).
      replace (offset v0 + 8 + cs + cs mod 2)
        with ((offset v0 / 2 + 4 + cs / 2 + cs mod 2) * 2) by lia.
      apply Z.mod_mul. lia.
    + assert (v' = v) by congruence. subst v'.
      destruct (loopBody_Break _ _ _ Hbody) as [[_ ->]|(_ & cs & _ & _ & _ & ->)];
        [congruence|]. cbn [dataChunkOffset].
      pose proof (Z.div_mod (offset v0) 2 ltac:(lia)).
      replace (offset v0 + 8) with ((offset v0 / 2 + 4) * 2) by lia.
      apply Z.mod_mul. lia.
Qed.

End ScanResult.

(** *** The sample count computed from the declared data size *)

Lemma numSamples_16 (s : Z) :
  0 <= s -> truncate (inject_Z s / (inject_Z 16 / 8))%Q = s / 2.
Proof.
  intros Hs. unfold truncate, Qle_bool, Qfloor.
  cbn [Qdiv Qmult Qinv inject_Z Qnum Qden Pos.mul Z.mul].
  replace (0 <=? s * 8 * 1) with true by (symmetry; apply Z.leb_le; lia).
  change 16 with (2 * 8).
  apply Z.div_mul_cancel_r; lia.
Qed.

Lemma numSamples_8 (s : Z) :
  0 <= s -> truncate (inject_Z s / (inject_Z 8 / 8))%Q = s.
Proof.
  intros Hs. unfold truncate, Qle_bool, Qfloor.
  cbn [Qdiv Qmult Qinv inject_Z Qnum Qden Pos.mul Z.mul].
  replace (0 <=? s * 8 * 1) with true by (symmetry; apply Z.leb_le; lia).
  apply Z.div_mul; lia.
Qed.

Lemma indices_length (n : Z) : 0 <= n -> Z.of_nat (List.length (indices n)) = n.
Proof.
  intros Hn. unfold indices. rewrite length_map, length_seq. lia.
Qed.

(* ------------------------------------------------------------------ *)
(** ** The decoder: statements of the specification *)

Lemma agree_of_firstn (d : Z) (a b : ArrayBuffer) :
  0 <= d <= byteLength a ->
  firstn (Z.to_nat d) b = firstn (Z.to_nat d) a ->
  agree d a b.
Proof.
  intros Hd Hfirst. unfold agree, byteLength in *.
  assert (Hlen : (Z.to_nat d <= List.length b)%nat).
  { apply (f_equal (@List.length byte)) in Hfirst.
    rewrite !length_firstn in Hfirst. lia. }
  repeat split; try lia.
  intros i Hi. unfold byteAt. do 2 f_equal.
  assert (Hlt : (Z.to_nat i <? Z.to_nat d)%nat = true) by (apply Nat.ltb_lt; lia).
  pose proof (nth_firstn (Z.to_nat d) a (Z.to_nat i) x00) as Ha.
  pose proof (nth_firstn (Z.to_nat d) b (Z.to_nat i) x00) as Hb.
  rewrite Hlt in Ha, Hb. congruence.
Qed.

(** The fuel [parseWavFile] gives the loop is always enough: the decoder
    returns a record, [null] or raises, on every buffer. *)
Lemma parseWavFile_terminates (arrayBuffer : ArrayBuffer) :
  parseWavFile arrayBuffer <> Diverges.
Proof.
  unfold parseWavFile.
  destruct (signatureOk arrayBuffer) as [[|]|]; try discriminate.
  pose proof (scanChunks_terminates arrayBuffer).
  destruct (scanChunks arrayBuffer) as [v| | |]; try congruence.
  unfold buildRecord, ofCompletion.
  repeat (first [break_if | match goal with
                            | |- context [match ?c with Normal _ => _ | Throws _ => _ end] =>
                                destruct c
                            end]; try discriminate).
Qed.

(** C2.  On the empty buffer the decoder does not return a failure result:
    the first [getUint8] of the signature check raises a [RangeError] that
    leaves [parseWavFile].  The same happens on a buffer cut after the
    [RIFF] tag, on a format chunk cut before its fields, and on a data chunk
    whose declared size exceeds the bytes present. *)
Theorem decoder_raises_on_short_buffer :
  parseWavFile [] = Exception RangeError
  /\ parseWavFile (bytesOf "RIFF"%string) = Exception RangeError
  /\ parseWavFile (riffHeader ++ bytesOf "fmt "%string ++ u32le 16)
     = Exception RangeError
  /\ parseWavFile (riffHeader ++ fmtChunk 1 44100 16 ++ dataChunk 4 [x01; x00])
     = Exception RangeError.
Proof. repeat split; vm_compute; reflexivity. Qed.

(** C3 (as amended).  A record never carries a zero bit depth: the part of
    the decoder after the chunk loop answers [null] whenever the bit depth is
    zero, and every record has bit depth 8 or 16.  The data size is not
    required to be a multiple of the sample width: the number of samples of a
    record is the declared data size divided by the sample width, rounded
    down. *)
Theorem decode_sample_count (arrayBuffer : ArrayBuffer) (w : WavData) :
  parseWavFile arrayBuffer = Record_ w ->
  (forall v, v_bits v = 0 -> buildRecord arrayBuffer v = Null)
  /\ exists v,
       scanChunks arrayBuffer = Exited v
       /\ bitsPerSampleOriginal w = v_bits v
       /\ (v_bits v = 8 \/ v_bits v = 16)
       /\ Z.of_nat (List.length (samples w)) = dataChunkSize v / (v_bits v / 8).
Proof.
  intros Hparse. split.
  - intros v Hz. unfold buildRecord. rewrite Hz.
    destruct (negb (foundFmt v) || (dataChunkOffset v =? -1) || (dataChunkSize v =? 0));
      reflexivity.
  - unfold parseWavFile in Hparse.
    destruct (signatureOk arrayBuffer) as [[|]|]; try discriminate.
    destruct (scanChunks arrayBuffer) as [v| | |] eqn:Hscan; try discriminate.
    exists v. split; [reflexivity|].
    assert (Hsize : 0 <= dataChunkSize v)
      by (apply (scanLoop_dataSize_nonneg arrayBuffer _ _ _ Hscan); cbn; lia).
    unfold buildRecord in Hparse.
    destruct (negb (foundFmt v) || (dataChunkOffset v =? -1) || (dataChunkSize v =? 0));
      [discriminate|].
    destruct (Qeq_bool (inject_Z (v_bits v) / 8) 0); [discriminate|].
    destruct (v_bits v =? 16) eqn:E16.
    + apply Z.eqb_eq in E16. rewrite E16 in *.
      unfold Int16Array_on, toIndex in Hparse. rewrite numSamples_16 in Hparse by lia.
      destruct (negb (dataChunkOffset v mod 2 =? 0)); [discriminate|].
      assert (0 <= dataChunkSize v / 2) by (apply Z.div_pos; lia).
      replace (dataChunkSize v / 2 <? 0) with false in Hparse
        by (symmetry; apply Z.ltb_ge; lia).
      cbn [bind] in Hparse.
      destruct (_ >? _); [discriminate|]. cbn [ofCompletion] in Hparse.
      apply (f_equal (fun r => match r with Record_ x => x | _ => w end)) in Hparse.
      subst w. cbn [samples bitsPerSampleOriginal].
      rewrite length_map, indices_length by lia.
      repeat split; auto.
    + destruct (v_bits v =? 8) eqn:E8; [|discriminate].
      apply Z.eqb_eq in E8. rewrite E8 in *.
      unfold Uint8Array_on, toIndex in Hparse. rewrite numSamples_8 in Hparse by lia.
      replace (dataChunkSize v <? 0) with false in Hparse
        by (symmetry; apply Z.ltb_ge; lia).
      cbn [bind] in Hparse.
      destruct (_ >? _); [discriminate|]. cbn [bind ofCompletion] in Hparse.
      apply (f_equal (fun r => match r with Record_ x => x | _ => w end)) in Hparse.
      subst w. cbn [samples bitsPerSampleOriginal].
      rewrite !length_map, indices_length by lia.
      repeat split; auto. change (8 / 8) with 1. rewrite Z.div_1_r. reflexivity.
Qed.

(** C3, the claim as written fails: a 16-bit file whose data chunk declares
    3 bytes is decoded to a record with one sample. *)
Lemma odd_data_size_is_decoded :
  exists v w,
    scanChunks oddDataWav = Exited v
    /\ v_bits v = 16
    /\ dataChunkSize v mod (v_bits v / 8) <> 0
    /\ parseWavFile oddDataWav = Record_ w
    /\ samples w = [1].
Proof.
  eexists. eexists.
  split; [vm_compute; reflexivity|].
  cbn [v_bits dataChunkSize].
  split; [reflexivity|]. split; [vm_compute; discriminate|].
  split; vm_compute; reflexivity.
Qed.

Lemma decode_sample_count_witness :
  parseWavFile oddDataWav = Record_ (mkWavData 1 44100 [1] 16)
  /\ exists v,
       scanChunks oddDataWav = Exited v
       /\ 16 = v_bits v
       /\ (v_bits v = 8 \/ v_bits v = 16)
       /\ 1 = dataChunkSize v / (v_bits v / 8).
Proof.
  assert (H : parseWavFile oddDataWav = Record_ (mkWavData 1 44100 [1] 16))
    by (vm_compute; reflexivity).
  split; [exact H|].
  exact (proj2 (decode_sample_count oddDataWav _ H)).
Defined.

(** Every sample of a record decoded from 8-bit data is the payload byte at
    the same position, less 128, times 256. *)
Lemma decode_8bit_samples (arrayBuffer : ArrayBuffer) (v : vars) (w : WavData) :
  buildRecord arrayBuffer v = Record_ w -> v_bits v = 8 -> 0 <= dataChunkSize v ->
  samples w
  = map (fun k => (byteAt arrayBuffer (dataChunkOffset v + k) - 128) * 256)
        (indices (dataChunkSize v)).
Proof.
  intros Hbuild H8 Hsize. unfold buildRecord in Hbuild. rewrite H8 in Hbuild.
  destruct (negb (foundFmt v) || (dataChunkOffset v =? -1) || (dataChunkSize v =? 0));
    [discriminate|].
  destruct (Qeq_bool (inject_Z 8 / 8) 0); [discriminate|].
  change (8 =? 16) with false in Hbuild. change (8 =? 8) with true in Hbuild.
  cbv iota in Hbuild.
  unfold Uint8Array_on, toIndex in Hbuild. rewrite numSamples_8 in Hbuild by lia.
  replace (dataChunkSize v <? 0) with false in Hbuild
    by (symmetry; apply Z.ltb_ge; lia).
  cbn [bind] in Hbuild.
  destruct (_ >? _); [discriminate|]. cbn [bind ofCompletion] in Hbuild.
  apply (f_equal (fun r => match r with Record_ x => x | _ => w end)) in Hbuild.
  subst w. cbn [samples]. rewrite map_map.
  apply map_ext. intros k. apply convert8_scaled. apply byteAt_range.
Qed.

(** The entry at position [k] of a list built over [indices n]. *)
Lemma nth_map_indices (f : Z -> Z) (n k : Z) :
  0 <= k < n -> nth (Z.to_nat k) (map f (indices n)) 0 = f k.
Proof.
  intros Hk. unfold indices. rewrite map_map.
  rewrite (nth_indep _ 0 (f (Z.of_nat 0))) by (rewrite length_map, length_seq; lia).
  rewrite (map_nth (fun i => f (Z.of_nat i))).
  rewrite seq_nth by lia. f_equal. lia.
Qed.

Lemma buildRecord_bits (arrayBuffer : ArrayBuffer) (v : vars) (w : WavData) :
  buildRecord arrayBuffer v = Record_ w -> bitsPerSampleOriginal w = v_bits v.
Proof.
  unfold buildRecord. intros H.
  destruct (negb (foundFmt v) || (dataChunkOffset v =? -1) || (dataChunkSize v =? 0));
    [discriminate|].
  destruct (Qeq_bool _ 0); [discriminate|].
  destruct (v_bits v =? 16).
  - destruct (Int16Array_on _ _ _); [|discriminate].
    cbn [ofCompletion] in H.
    apply (f_equal (fun r => match r with Record_ x => bitsPerSampleOriginal x
                                     | _ => v_bits v end)) in H.
    cbn in H. congruence.
  - destruct (v_bits v =? 8); [|discriminate].
    match type of H with ofCompletion ?c _ = _ => destruct c end; [|discriminate].
    cbn [ofCompletion] in H.
    apply (f_equal (fun r => match r with Record_ x => bitsPerSampleOriginal x
                                     | _ => v_bits v end)) in H.
    cbn in H. congruence.
Qed.

(** C4.  In every record the decoder returns for 8-bit data, the sample at
    each position [k] is made from the unsigned byte [x] at position [k] of
    the data payload, [0 <= x <= 255], and is the signed 16-bit value
    [(x - 128) * 256]: there are as many samples as payload bytes declared;
    a byte 128 gives 0, a byte 0 gives -32768 and a byte 255 gives 32512. *)
Theorem eight_bit_normalisation (arrayBuffer : ArrayBuffer) (w : WavData) :
  parseWavFile arrayBuffer = Record_ w ->
  bitsPerSampleOriginal w = 8 ->
  exists v,
    scanChunks arrayBuffer = Exited v
    /\ Z.of_nat (List.length (samples w)) = dataChunkSize v
    /\ forall k, 0 <= k < dataChunkSize v ->
         let x := byteAt arrayBuffer (dataChunkOffset v + k) in
         let y := nth (Z.to_nat k) (samples w) 0 in
         0 <= x <= 255
         /\ y = (x - 128) * 256
         /\ - 32768 <= y <= 32512
         /\ (x = 128 -> y = 0) /\ (x = 0 -> y = - 32768) /\ (x = 255 -> y = 32512).
Proof.
  intros Hparse H8. unfold parseWavFile in Hparse.
  destruct (signatureOk arrayBuffer) as [[|]|]; try discriminate.
  destruct (scanChunks arrayBuffer) as [v| | |] eqn:Hscan; try discriminate.
  exists v. split; [reflexivity|].
  assert (Hsize : 0 <= dataChunkSize v).
  { unfold scanChunks in Hscan.
    apply (scanLoop_dataSize_nonneg arrayBuffer _ _ _ Hscan). cbn. lia. }
  assert (Hbits : v_bits v = 8) by (rewrite <- (buildRecord_bits _ _ _ Hparse); exact H8).
  pose proof (decode_8bit_samples arrayBuffer v w Hparse Hbits Hsize) as Hsamples.
  split.
  - rewrite Hsamples, length_map. now apply indices_length.
  - intros k Hk x y.
    assert (Hx : 0 <= x <= 255) by (pose proof (byteAt_range arrayBuffer (dataChunkOffset v + k)); unfold x; lia).
    assert (Hy : y = (x - 128) * 256).
    { unfold y. rewrite Hsamples.
      now rewrite (nth_map_indices
                     (fun i => (byteAt arrayBuffer (dataChunkOffset v + i) - 128) * 256)). }
    repeat split; try lia.
Qed.

Lemma eight_bit_normalisation_witness :
  parseWavFile (wav8 1 8000 [128; 0; 255; 200])
  = Record_ (mkWavData 1 8000 [0; - 32768; 32512; 18432] 8)
  /\ exists v,
       scanChunks (wav8 1 8000 [128; 0; 255; 200]) = Exited v
       /\ 4 = dataChunkSize v
       /\ forall k, 0 <= k < dataChunkSize v ->
            let x := byteAt (wav8 1 8000 [128; 0; 255; 200]) (dataChunkOffset v + k) in
            let y := nth (Z.to_nat k) [0; - 32768; 32512; 18432] 0 in
            0 <= x <= 255
            /\ y = (x - 128) * 256
            /\ - 32768 <= y <= 32512
            /\ (x = 128 -> y = 0) /\ (x = 0 -> y = - 32768) /\ (x = 255 -> y = 32512).
Proof.
  assert (H : parseWavFile (wav8 1 8000 [128; 0; 255; 200])
              = Record_ (mkWavData 1 8000 [0; - 32768; 32512; 18432] 8))
    by (vm_compute; reflexivity).
  split; [exact H|].
  exact (eight_bit_normalisation _ _ H eq_refl).
Defined.

(** What is left of the loop variables after a chunk of [chunkSize] bytes
    was skipped. *)
Lemma skipChunk_record (chunkSize o ch sr bits dco dcs : Z) (fmt : bool) :
  0 <= chunkSize ->
  skipChunk chunkSize (mkVars (o + 8) ch sr bits dco dcs fmt)
  = mkVars (o + 8 + chunkSize + chunkSize mod 2) ch sr bits dco dcs fmt.
Proof.
  intros Hsize. unfold skipChunk. cbn [offset v_channels v_sampleRate v_bits
                                        dataChunkOffset dataChunkSize foundFmt].
  pose proof (Z.mod_pos_bound chunkSize 2 ltac:(lia)).
  f_equal. destruct (chunkSize mod 2 =? 0) eqn:E; cbn [negb];
    [apply Z.eqb_eq in E | apply Z.eqb_neq in E]; lia.
Qed.

(** A header that was read lies in the buffer. *)
Lemma chunkHeader_in_view (view : ArrayBuffer) (off : Z) (chunkId : string) (chunkSize : Z) :
  chunkHeader view off = Normal (chunkId, chunkSize) ->
  getStringFromDataView view off 4 = Normal chunkId
  /\ getUint32 view (off + 4) = Normal chunkSize
  /\ 0 <= chunkSize
  /\ 0 <= off + 4 /\ off + 8 <= byteLength view.
Proof.
  unfold chunkHeader. intros H.
  destruct (getStringFromDataView view off 4) as [t|]; [|discriminate].
  destruct (getUint32 view (off + 4)) as [n|] eqn:Hn; [|discriminate].
  cbn [bind] in H. apply Normal_inj in H.
  assert (t = chunkId) by congruence. assert (n = chunkSize) by congruence.
  subst t n. split; [reflexivity|]. split; [reflexivity|].
  split; [exact (getUint32_nonneg _ _ _ Hn)|].
  unfold getUint32 in Hn. destruct (inView view (off + 4) 4) eqn:Hin; [|discriminate].
  unfold inView in Hin. apply andb_true_iff in Hin as [H0 H1].
  apply Z.leb_le in H0. apply Z.leb_le in H1. lia.
Qed.

(** C5.  In a buffer with a valid RIFF/WAVE signature: (1) at a header whose
    tag is neither [fmt ] nor [data] the loop goes on to the next turn with
    the offset moved by 8 + size + (size mod 2) bytes and nothing else
    changed; (2) so it does at a [fmt ] header whose chunk is accepted, the
    format variables taking the values read; (3) conversely, a turn that goes
    on to a next chunk has read a header whose tag is not [data] and has
    advanced by 8 + size + (size mod 2) bytes; (4) with fewer than 8 bytes
    left for a header the loop stops, its variables unchanged; (5) at a
    [data] header the loop stops at once, recording the payload offset and
    the declared size (or the decoder answers [null] when no format chunk
    came before); (6) the outcome of a scan that found a data chunk does not
    depend on any byte from the payload onward. *)
Theorem chunk_scan_advance (view : ArrayBuffer) :
  signatureOk view = Normal true ->
  (forall v chunkId chunkSize,
      chunkHeader view (offset v) = Normal (chunkId, chunkSize) ->
      chunkId <> "fmt "%string -> chunkId <> "data"%string ->
      let v' := mkVars (offset v + 8 + chunkSize + chunkSize mod 2)
                       (v_channels v) (v_sampleRate v) (v_bits v)
                       (dataChunkOffset v) (dataChunkSize v) (foundFmt v) in
      loopBody view v = Continue v'
      /\ forall fuel, scanLoop (S fuel) view v = scanLoop fuel view v')
  /\ (forall v chunkSize ch sr bits,
         chunkHeader view (offset v) = Normal ("fmt "%string, chunkSize) ->
         16 <= chunkSize ->
         getUint16 view (offset v + 8) = Normal 1 ->
         getUint16 view (offset v + 8 + 2) = Normal ch ->
         getUint32 view (offset v + 8 + 4) = Normal sr ->
         getUint16 view (offset v + 8 + 14) = Normal bits ->
         bits = 8 \/ bits = 16 ->
         let v' := mkVars (offset v + 8 + chunkSize + chunkSize mod 2)
                          ch sr bits (dataChunkOffset v) (dataChunkSize v) true in
         loopBody view v = Continue v'
         /\ forall fuel, scanLoop (S fuel) view v = scanLoop fuel view v')
  /\ (forall v v',
         loopBody view v = Continue v' ->
         exists chunkId chunkSize,
           chunkHeader view (offset v) = Normal (chunkId, chunkSize)
           /\ chunkId <> "data"%string
           /\ offset v' = offset v + 8 + chunkSize + chunkSize mod 2)
  /\ (forall fuel v,
         offset v + 8 > byteLength view -> scanLoop (S fuel) view v = Exited v)
  /\ (forall fuel v chunkSize,
         offset v + 8 <= byteLength view ->
         chunkHeader view (offset v) = Normal ("data"%string, chunkSize) ->
         scanLoop (S fuel) view v
         = if foundFmt v
           then Exited (mkVars (offset v + 8) (v_channels v) (v_sampleRate v)
                               (v_bits v) (offset v + 8) chunkSize true)
           else Nulled)
  /\ (forall v other,
         scanChunks view = Exited v ->
         dataChunkOffset v <> -1 ->
         firstn (Z.to_nat (dataChunkOffset v)) other
         = firstn (Z.to_nat (dataChunkOffset v)) view ->
         scanChunks other = Exited v).
Proof.
  intros _.
  assert (Hturn : forall v v', offset v + 8 <= byteLength view ->
                    loopBody view v = Continue v' ->
                    forall fuel, scanLoop (S fuel) view v = scanLoop fuel view v').
  { intros v v' Hlen Hbody fuel. cbn [scanLoop].
    replace (offset v <? byteLength view) with true
      by (symmetry; apply Z.ltb_lt; lia).
    now rewrite Hbody. }
  split; [|split; [|split; [|split; [|split]]]].
  - intros v id cs Hh Hfmt Hdata v'.
    destruct (chunkHeader_in_view _ _ _ _ Hh) as (Hid & Hsz & Hcs & _ & Hlen).
    assert (Hbody : loopBody view v = Continue v').
    { unfold loopBody.
      replace (offset v + 8 >? byteLength view) with false
        by (symmetry; rewrite Z.gtb_ltb; apply Z.ltb_ge; lia).
      rewrite Hid, Hsz. cbn [reading]. cbv zeta.
      apply String.eqb_neq in Hfmt. apply String.eqb_neq in Hdata.
      rewrite Hfmt, Hdata. unfold v'. f_equal. now apply skipChunk_record. }
    split; [exact Hbody | exact (Hturn v v' Hlen Hbody)].
  - intros v cs ch sr bits Hh H16 Hpcm Hch Hsr Hbits Hdepth v'.
    destruct (chunkHeader_in_view _ _ _ _ Hh) as (Hid & Hsz & Hcs & _ & Hlen).
    assert (Hbody : loopBody view v = Continue v').
    { unfold loopBody.
      replace (offset v + 8 >? byteLength view) with false
        by (symmetry; rewrite Z.gtb_ltb; apply Z.ltb_ge; lia).
      rewrite Hid, Hsz. cbn [reading]. cbv zeta.
      change (String.eqb "fmt " "fmt ") with true. cbv iota.
      replace (cs <? 16) with false by (symmetry; apply Z.ltb_ge; lia).
      rewrite Hpcm. cbn [reading]. change (negb (1 =? 1)) with false. cbv iota.
      rewrite Hch, Hsr, Hbits. cbn [reading].
      replace (negb (bits =? 8) && negb (bits =? 16)) with false
        by (destruct Hdepth; subst bits; reflexivity).
      unfold v'. f_equal. now apply skipChunk_record. }
    split; [exact Hbody | exact (Hturn v v' Hlen Hbody)].
  - intros v v' H.
    destruct (loopBody_Continue _ _ _ H) as (id & cs & Hh & Hne & _ & _ & Hoff & _).
    exists id, cs. auto.
  - intros fuel v H. cbn [scanLoop].
    rewrite loopBody_short by exact H.
    destruct (offset v <? byteLength view); reflexivity.
  - intros fuel v cs Hlen Hh. cbn [scanLoop].
    replace (offset v <? byteLength view) with true
      by (symmetry; apply Z.ltb_lt; lia).
    unfold loopBody.
    replace (offset v + 8 >? byteLength view) with false
      by (symmetry; rewrite Z.gtb_ltb; apply Z.ltb_ge; lia).
    unfold chunkHeader in Hh.
    destruct (getStringFromDataView view (offset v) 4) as [id|]; [|discriminate].
    destruct (getUint32 view (offset v + 4)) as [n|]; [|discriminate].
    cbn [bind] in Hh. apply Normal_inj in Hh.
    assert (id = "data"%string) by congruence.
    assert (n = cs) by congruence. subst id n.
    cbn [reading]. change (String.eqb "data" "fmt ") with false.
    change (String.eqb "data" "data") with true. cbv iota.
    destruct (foundFmt v); reflexivity.
  - intros v other Hscan Hsome Hfirst.
    unfold scanChunks in *.
    assert (Hrange : offset initVars + 8 <= dataChunkOffset v <= byteLength view)
      by (apply (scanLoop_data_offset view _ _ _ Hscan); [reflexivity | exact Hsome]).
    cbn [offset initVars] in Hrange.
    assert (Hag : agree (dataChunkOffset v) view other)
      by (apply agree_of_firstn; [lia | exact Hfirst]).
    assert (Hother : scanLoop (List.length view) other initVars = Exited v)
      by (apply (agree_scanLoop _ _ _ Hag _ _ _ Hscan); [reflexivity | exact Hsome | lia]).
    destruct (Nat.le_ge_cases (List.length view) (List.length other)) as [Hle|Hle].
    + replace (List.length other)
        with (List.length view + (List.length other - List.length view))%nat by lia.
      rewrite scanLoop_more_fuel; [exact Hother | congruence].
    + replace (List.length view)
        with (List.length other + (List.length view - List.length other))%nat
        in Hother by lia.
      rewrite scanLoop_more_fuel in Hother; [exact Hother|].
      apply scanChunks_terminates.
Qed.

Lemma chunk_scan_advance_witness :
  signatureOk listThenData = Normal true
  /\ loopBody listThenData initVars
     = Continue (mkVars 36 2 48000 16 (-1) 0 true)
  /\ loopBody listThenData (mkVars 36 2 48000 16 (-1) 0 true)
     = Continue (mkVars 48 2 48000 16 (-1) 0 true)
  /\ scanChunks (firstn 56 listThenData ++ [xff; xff; xff])
     = Exited (mkVars 56 2 48000 16 56 4 true).
Proof.
  assert (Hsig : signatureOk listThenData = Normal true) by (vm_compute; reflexivity).
  destruct (chunk_scan_advance listThenData Hsig)
    as (Hother & Hfmt & _ & _ & _ & Htail).
  split; [exact Hsig|]. split; [|split].
  - apply (Hfmt initVars 16 2 48000 16); try (vm_compute; reflexivity).
    + lia.
    + now right.
  - apply (Hother (mkVars 36 2 48000 16 (-1) 0 true) "LIST"%string 3).
    + vm_compute. reflexivity.
    + discriminate.
    + discriminate.
  - apply Htail; [vm_compute; reflexivity | cbn; discriminate | vm_compute; reflexivity].
Defined.

(** C10.  When the scan of a buffer with a valid signature ends with a format
    chunk seen and a data chunk recorded whose declared size is 0, the
    decoder answers [null]: no record with an empty sample sequence is
    returned for it. *)
Theorem empty_data_chunk_rejected (arrayBuffer : ArrayBuffer) (v : vars) :
  signatureOk arrayBuffer = Normal true ->
  scanChunks arrayBuffer = Exited v ->
  foundFmt v = true ->
  dataChunkOffset v <> -1 ->
  dataChunkSize v = 0 ->
  parseWavFile arrayBuffer = Null.
Proof.
  intros Hsig Hscan _ _ Hzero.
  unfold parseWavFile. rewrite Hsig, Hscan.
  unfold buildRecord. rewrite Hzero. cbn [Z.eqb].
  rewrite orb_true_r. reflexivity.
Qed.

Lemma empty_data_chunk_rejected_witness :
  scanChunks emptyDataWav = Exited (mkVars 44 1 44100 16 44 0 true)
  /\ parseWavFile emptyDataWav = Null.
Proof.
  assert (Hscan : scanChunks emptyDataWav = Exited (mkVars 44 1 44100 16 44 0 true))
    by (vm_compute; reflexivity).
  split; [exact Hscan|].
  apply (empty_data_chunk_rejected emptyDataWav (mkVars 44 1 44100 16 44 0 true));
    [vm_compute; reflexivity | exact Hscan | reflexivity | cbn; discriminate | reflexivity].
Defined.

(* ------------------------------------------------------------------ *)
(** ** The encode loop and the output blob *)

Lemma concat_nonEmpty (chunks : list (list byte)) :
  List.concat (filter nonEmpty chunks) = List.concat chunks.
Proof.
  induction chunks as [|c chunks IH]; [reflexivity|].
  cbn [filter List.concat]. destruct c as [|x c]; cbn [nonEmpty]; [exact IH|].
  change (nonEmpty (x :: c)) with true. cbn [List.concat]. now rewrite IH.
Qed.

Lemma totalLength_cons (c : list byte) (chunks : list (list byte)) :
  totalLength (c :: chunks) = (List.length c + totalLength chunks)%nat.
Proof. reflexivity. Qed.

Lemma totalLength_nonEmpty (chunks : list (list byte)) :
  totalLength (filter nonEmpty chunks) = totalLength chunks.
Proof.
  induction chunks as [|c chunks IH]; [reflexivity|].
  cbn [filter]. destruct c as [|x c]; [exact IH|].
  change (nonEmpty (x :: c)) with true. cbv iota.
  rewrite !totalLength_cons. now rewrite IH.
Qed.

Lemma totalLength_concat (chunks : list (list byte)) :
  List.length (List.concat chunks) = totalLength chunks.
Proof.
  induction chunks as [|c chunks IH]; [reflexivity|].
  cbn [List.concat]. rewrite length_app, totalLength_cons. now rewrite IH.
Qed.

Lemma pushNonEmpty_filter (mp3Data : list (list byte)) (mp3buf : list byte) :
  pushNonEmpty mp3Data mp3buf = mp3Data ++ filter nonEmpty [mp3buf].
Proof.
  unfold pushNonEmpty, nonEmpty. cbn [filter].
  destruct (0 <? Z.of_nat (List.length mp3buf)); [reflexivity|].
  now rewrite app_nil_r.
Qed.

(** The [k]-th part of a concatenation lies right after the parts before
    it. *)
Lemma slice_concat (chunks : list (list byte)) :
  forall k, (k < List.length chunks)%nat ->
            slice (List.concat chunks) (totalLength (firstn k chunks))
                  (List.length (nth k chunks []))
            = nth k chunks [].
Proof.
  unfold slice.
  induction chunks as [|c chunks IH]; intros k Hk; [cbn in Hk; lia|].
  destruct k as [|k]; cbn [firstn nth List.concat].
  - change (totalLength []) with 0%nat. cbn [skipn].
    replace (List.length c) with (List.length c + 0)%nat by lia.
    rewrite firstn_app_2. cbn [firstn]. apply app_nil_r.
  - rewrite totalLength_cons, skipn_app.
    rewrite skipn_all2 by lia. cbn [app].
    replace (List.length c + totalLength (firstn k chunks) - List.length c)%nat
      with (totalLength (firstn k chunks)) by lia.
    apply IH. cbn in Hk. lia.
Qed.

Section EncoderProofs.

Variable encoder : Type.
Variable newEncoder : Z -> Z -> Z -> completion encoder.
Variable encodeBuffer :
  encoder -> list Z -> option (list Z) -> completion (encoder * list byte).
Variable flush : encoder -> completion (list byte).

(** The chunks the loop has collected when it ends are the chunks collected
    before, followed by the non-empty chunks the encoder returned, in
    order. *)
Lemma encodeLoop_collects (samples : list Z) (channels : Z) (total : number)
  (fuel : nat) :
  forall i enc mp3Data enc' collected,
    encodeLoop encoder encodeBuffer fuel samples channels total i enc mp3Data
    = LoopDone enc' collected ->
    exists outputs,
      blockOutputs encoder encodeBuffer fuel samples channels total i enc
      = Some (outputs, enc')
      /\ collected = mp3Data ++ filter nonEmpty outputs.
Proof.
  induction fuel as [|fuel IH]; intros i enc mp3Data enc' collected Hloop;
    cbn [encodeLoop blockOutputs] in *.
  - destruct (lessThan i total); [discriminate|].
    exists []. split; [congruence|].
    cbn [filter]. rewrite app_nil_r. congruence.
  - destruct (lessThan i total).
    + destruct (blocksAt samples channels i (blockSize total i))
        as [[leftChunk rightChunk]|]; [|discriminate].
      destruct (encodeBuffer enc leftChunk rightChunk) as [[enc1 mp3buf]|];
        [|discriminate].
      destruct (IH _ _ _ _ _ Hloop) as (rest & Hrest & Hcollected).
      exists (mp3buf :: rest). rewrite Hrest. split; [reflexivity|].
      rewrite Hcollected, pushNonEmpty_filter, <- app_assoc.
      change (mp3buf :: rest) with ([mp3buf] ++ rest).
      now rewrite filter_app.
    + exists []. split; [congruence|].
      cbn [filter]. rewrite app_nil_r. congruence.
Qed.

(** With at least one channel the loop ends within as many turns as there
    are samples. *)
Lemma encodeLoop_enough_fuel (samples : list Z) (channels : Z) (q : Q) (fuel : nat) :
  forall i enc mp3Data,
    (q <= inject_Z (i + Z.of_nat fuel))%Q ->
    encodeLoop encoder encodeBuffer fuel samples channels (Finite q) i enc mp3Data
    <> LoopOutOfFuel.
Proof.
  induction fuel as [|fuel IH]; intros i enc mp3Data Hq; cbn [encodeLoop].
  - destruct (lessThan i (Finite q)) eqn:Hlt; [|discriminate].
    cbn [lessThan] in Hlt. apply negb_true_iff in Hlt.
    rewrite Z.add_0_r in Hq. apply Qle_bool_iff in Hq. congruence.
  - destruct (lessThan i (Finite q)); [|discriminate].
    destruct (blocksAt samples channels i (blockSize (Finite q) i))
      as [[leftChunk rightChunk]|]; [|discriminate].
    destruct (encodeBuffer enc leftChunk rightChunk) as [[enc1 mp3buf]|];
      [|discriminate].
    apply IH. eapply Qle_trans; [exact Hq|].
    rewrite <- Zle_Qle. unfold LAME_SAMPLE_BLOCK_SIZE. lia.
Qed.

Lemma encodeWav_finishes (fuel : nat) (wavData : WavData) (bitRate : Z) :
  0 < channels wavData ->
  (List.length (samples wavData) <= fuel)%nat ->
  encodeWav encoder newEncoder encodeBuffer flush fuel wavData bitRate <> Unfinished.
Proof.
  intros Hch Hfuel. unfold encodeWav.
  destruct (newEncoder _ _ _) as [enc|]; [|discriminate].
  unfold divide. replace (channels wavData =? 0) with false
    by (symmetry; apply Z.eqb_neq; lia).
  match goal with
  | |- context [encodeLoop _ _ ?f ?s ?c (Finite ?q) ?i ?e ?d] =>
      pose proof (encodeLoop_enough_fuel s c q f i e d) as Hne;
      destruct (encodeLoop encoder encodeBuffer f s c (Finite q) i e d)
  end.
  - destruct (flush enc0); discriminate.
  - discriminate.
  - exfalso. apply Hne; [|reflexivity].
    unfold Qle, inject_Z; cbn [Qnum Qden].
    rewrite Z2Pos.id by lia. nia.
Qed.

(** An exception of the decoder does not leave [convertWavToMp3]: the
    conversion ends in error, as it does when the decoder answers [null]. *)
Lemma decoder_failure_ends_in_error (fuel : nat) (arrayBuffer : ArrayBuffer)
  (bitRate : Z) :
  (parseWavFile arrayBuffer = Null \/ exists e, parseWavFile arrayBuffer = Exception e) ->
  convertWavToMp3 encoder newEncoder encodeBuffer flush fuel arrayBuffer bitRate = Failed.
Proof.
  unfold convertWavToMp3. intros [H|[e H]]; now rewrite H.
Qed.

(** C6.  When the conversion of a decoded file succeeds, the bytes of the
    output blob are the non-empty chunks the encoder returned block after
    block, in order, followed by the chunk returned by [flush]; the length of
    the blob is the sum of the lengths of these chunks (the empty chunks
    adding nothing), each chunk lies in the blob right after the chunks
    before it, and the blob has type [audio/mpeg]. *)
Theorem blob_is_concatenation (fuel : nat) (wavData : WavData) (bitRate : Z)
  (mp3Blob : Blob) :
  encodeWav encoder newEncoder encodeBuffer flush fuel wavData bitRate = Done mp3Blob ->
  exists mp3encoder outputs enc flushed,
    newEncoder (channels wavData) (sampleRate wavData) bitRate = Normal mp3encoder
    /\ blockOutputs encoder encodeBuffer fuel (samples wavData) (channels wavData)
         (divide (Z.of_nat (List.length (samples wavData))) (channels wavData))
         0 mp3encoder
       = Some (outputs, enc)
    /\ flush enc = Normal flushed
    /\ blobBytes mp3Blob = List.concat (filter nonEmpty outputs) ++ flushed
    /\ List.length (blobBytes mp3Blob)
       = (totalLength (filter nonEmpty outputs) + List.length flushed)%nat
    /\ List.length (blobBytes mp3Blob)
       = (totalLength outputs + List.length flushed)%nat
    /\ (forall k, (k < List.length (filter nonEmpty outputs ++ [flushed]))%nat ->
          slice (blobBytes mp3Blob)
                (totalLength (firstn k (filter nonEmpty outputs ++ [flushed])))
                (List.length (nth k (filter nonEmpty outputs ++ [flushed]) []))
          = nth k (filter nonEmpty outputs ++ [flushed]) [])
    /\ blobType mp3Blob = "audio/mpeg"%string.
Proof.
  unfold encodeWav. intros Hdone.
  destruct (newEncoder _ _ _) as [mp3encoder|]; [|discriminate].
  destruct (encodeLoop _ _ _ _ _ _ _ _ _) as [enc mp3Data| |] eqn:Hloop;
    try discriminate.
  destruct (flush enc) as [flushed|] eqn:Hflush; [|discriminate].
  destruct (encodeLoop_collects _ _ _ _ _ _ _ _ _ Hloop) as (outputs & Hout & Hdata).
  cbn [app] in Hdata. subst mp3Data.
  assert (Hblob : mp3Blob = newBlob (pushNonEmpty (filter nonEmpty outputs) flushed)
                                    "audio/mpeg") by congruence.
  assert (Hbytes : blobBytes mp3Blob = List.concat (filter nonEmpty outputs) ++ flushed).
  { subst mp3Blob. unfold newBlob. cbn [blobBytes].
    rewrite pushNonEmpty_filter, concat_app, !concat_nonEmpty.
    cbn [List.concat]. now rewrite app_nil_r. }
  exists mp3encoder, outputs, enc, flushed.
  repeat split; try assumption.
  - rewrite Hbytes, length_app, totalLength_concat. reflexivity.
  - rewrite Hbytes, length_app, totalLength_concat, totalLength_nonEmpty. reflexivity.
  - intros k Hk.
    replace (blobBytes mp3Blob)
      with (List.concat (filter nonEmpty outputs ++ [flushed])).
    + apply slice_concat. exact Hk.
    + rewrite Hbytes, concat_app. cbn [List.concat]. now rewrite app_nil_r.
  - subst mp3Blob. reflexivity.
Qed.

End EncoderProofs.

Lemma blob_is_concatenation_witness :
  encodeWav nat toyNew toyEncode toyFlush 2400 threeBlockWav 128
  = Done (mkBlob [x4d; x50; x4d; x50; xff] "audio/mpeg")
  /\ exists mp3encoder outputs enc flushed,
       toyNew 1 44100 128 = Normal mp3encoder
       /\ blockOutputs nat toyEncode 2400 (samples threeBlockWav) 1
            (divide (Z.of_nat (List.length (samples threeBlockWav))) 1) 0 mp3encoder
          = Some (outputs, enc)
       /\ toyFlush enc = Normal flushed
       /\ [x4d; x50; x4d; x50; xff] = List.concat (filter nonEmpty outputs) ++ flushed
       /\ 5%nat = (totalLength (filter nonEmpty outputs) + List.length flushed)%nat
       /\ 5%nat = (totalLength outputs + List.length flushed)%nat
       /\ (forall k, (k < List.length (filter nonEmpty outputs ++ [flushed]))%nat ->
             slice [x4d; x50; x4d; x50; xff]
                   (totalLength (firstn k (filter nonEmpty outputs ++ [flushed])))
                   (List.length (nth k (filter nonEmpty outputs ++ [flushed]) []))
             = nth k (filter nonEmpty outputs ++ [flushed]) [])
       /\ "audio/mpeg"%string = "audio/mpeg"%string.
Proof.
  assert (H : encodeWav nat toyNew toyEncode toyFlush 2400 threeBlockWav 128
              = Done (mkBlob [x4d; x50; x4d; x50; xff] "audio/mpeg"))
    by (vm_compute; reflexivity).
  split; [exact H|].
  exact (blob_is_concatenation nat toyNew toyEncode toyFlush 2400 threeBlockWav 128 _ H).
Defined.

(* ------------------------------------------------------------------ *)
(** ** The job queue controller *)

(** *** Lists of jobs *)

Lemma ids_map_keep (f : ConversionJob -> ConversionJob) (jobs : list ConversionJob) :
  (forall j, id (f j) = id j) -> ids (map f jobs) = ids jobs.
Proof.
  intros Hf. unfold ids. rewrite map_map. apply map_ext. exact Hf.
Qed.

Lemma ids_filter_In (p : ConversionJob -> bool) (jobs : list ConversionJob) (x : string) :
  In x (ids (filter p jobs)) -> In x (ids jobs).
Proof.
  unfold ids. rewrite !in_map_iff. intros (j & Hj & Hin).
  apply filter_In in Hin. exists j. tauto.
Qed.

Lemma ids_filter_NoDup (p : ConversionJob -> bool) (jobs : list ConversionJob) :
  NoDup (ids jobs) -> NoDup (ids (filter p jobs)).
Proof.
  unfold ids. induction jobs as [|j jobs IH]; intros Hnd; [constructor|].
  inversion Hnd as [|? ? Hnotin Hrest]; subst. cbn [filter].
  destruct (p j); [|auto]. cbn [map]. constructor; [|auto].
  intros Hin. apply Hnotin. exact (ids_filter_In p jobs _ Hin).
Qed.

Lemma filter_split_length (p : ConversionJob -> bool) (jobs : list ConversionJob) :
  (List.length (filter p jobs) + List.length (filter (fun j => negb (p j)) jobs)
   = List.length jobs)%nat.
Proof.
  induction jobs as [|j jobs IH]; [reflexivity|].
  cbn [filter]. destruct (p j); cbn [negb List.length]; lia.
Qed.

Lemma filter_length_mono (p q : ConversionJob -> bool) (jobs : list ConversionJob) :
  (forall j, In j jobs -> p j = true -> q j = true) ->
  (List.length (filter p jobs) <= List.length (filter q jobs))%nat.
Proof.
  induction jobs as [|j jobs IH]; intros Himp; [cbn; lia|].
  assert (Htail : forall k, In k jobs -> p k = true -> q k = true)
    by (intros k Hk; apply Himp; now right).
  specialize (IH Htail). cbn [filter].
  destruct (p j) eqn:Hp.
  - rewrite (Himp j (or_introl eq_refl) Hp). cbn [List.length]. lia.
  - destruct (q j); cbn [List.length]; lia.
Qed.

Lemma hasId_In (c : string) (jobs : list ConversionJob) :
  filter (hasId c) jobs <> [] -> In c (ids jobs).
Proof.
  induction jobs as [|j jobs IH]; [intros H; now elim H|].
  cbn [filter ids map]. destruct (hasId c j) eqn:E.
  - intros _. left. unfold hasId in E. now apply String.eqb_eq in E.
  - intros H. right. exact (IH H).
Qed.

Lemma hasId_NoDup (c : string) (jobs : list ConversionJob) :
  NoDup (ids jobs) -> (List.length (filter (hasId c) jobs) <= 1)%nat.
Proof.
  induction jobs as [|j jobs IH]; intros Hnd; [cbn; lia|].
  inversion Hnd as [|? ? Hnotin Hrest]; subst. cbn [filter].
  destruct (hasId c j) eqn:E; [|auto].
  cbn [List.length]. unfold hasId in E. apply String.eqb_eq in E.
  destruct (filter (hasId c) jobs) eqn:Hf; [cbn; lia|].
  exfalso. apply Hnotin. rewrite E. apply hasId_In. rewrite Hf. discriminate.
Qed.

(** *** Invariants of the controller *)

(** A job in an active status carries the id of the admitted-job marker. *)
Definition activeIsCurrent (s : State) : Prop :=
  forall j, In j (conversionJobs s) -> isActive j = true ->
            isCurrent (currentConvertingFileId s) j = true.

(** While the marker is set the queue is processing, and the marker names a
    job of the list. *)
Definition currentIsListed (s : State) : Prop :=
  forall c, currentConvertingFileId s = Some c ->
            isProcessingQueue s = true /\ In c (ids (conversionJobs s)).

Definition countersNonNegative (s : State) : Prop :=
  0 <= totalFilesInCurrentRun s /\ 0 <= filesProcessedInCurrentRun s.

Lemma count_nonneg (p : ConversionJob -> bool) (jobs : list ConversionJob) :
  0 <= count p jobs.
Proof. unfold count. lia. Qed.

Lemma find_idle_In (jobs : list ConversionJob) (j : ConversionJob) :
  find isIdle jobs = Some j -> In j jobs /\ status j = IDLE.
Proof.
  intros H. apply find_some in H as [Hin Hidle]. split; [exact Hin|].
  unfold isIdle in Hidle. destruct (status j); try discriminate. reflexivity.
Qed.

Lemma newJobs_idle (existing : list ConversionJob) (files : list File) (j : ConversionJob) :
  In j (filter (isNew existing) (map newJob files)) ->
  status j = IDLE /\ isNew existing j = true /\ exists f, In f files /\ j = newJob f.
Proof.
  intros H. apply filter_In in H as [Hin Hnew].
  apply in_map_iff in Hin as (f & <- & Hf).
  repeat split; [exact Hnew | exists f; auto].
Qed.

Lemma isNew_not_listed (existing : list ConversionJob) (j : ConversionJob) :
  isNew existing j = true -> ~ In (id j) (ids existing).
Proof.
  unfold isNew, ids. intros Hnew Hin.
  apply negb_true_iff in Hnew.
  apply in_map_iff in Hin as (e & He & Hin).
  assert (existsb (fun existingJob => String.eqb (id existingJob) (id j)) existing = true)
    by (apply existsb_exists; exists e; split; [exact Hin | now apply String.eqb_eq]).
  congruence.
Qed.

Lemma step_activeIsCurrent (e : event) (s : State) :
  activeIsCurrent s -> activeIsCurrent (step e s).
Proof.
  unfold activeIsCurrent. intros Inv.
  destruct e as [files| |h|fileId| |jszip|]; cbn [step].
  - unfold handleFilesSelect.
    destruct (isZipping s); [exact Inv|].
    destruct (0 <? _); [|exact Inv]. cbn [conversionJobs currentConvertingFileId].
    intros j Hin Hact. apply in_app_or in Hin as [Hin|Hin]; [auto|].
    apply newJobs_idle in Hin as (Hidle & _).
    unfold isActive in Hact. rewrite Hidle in Hact. discriminate.
  - destruct (isZipping s) eqn:Hz; [exact Inv|].
    unfold processNextFileInQueue. rewrite Hz.
    destruct (currentConvertingFileId s) as [c|] eqn:Hc; [rewrite Hc; exact Inv|].
    destruct (find isIdle (conversionJobs s)) as [next|].
    + cbn [conversionJobs currentConvertingFileId isCurrent].
      intros j Hin Hact. apply in_map_iff in Hin as (k & Hk & Hin).
      destruct (hasId (id next) k) eqn:Hid.
      * subst j. exact Hid.
      * subst j. specialize (Inv k Hin Hact). cbn [isCurrent] in Inv. discriminate.
    + destruct (existsb isActive (conversionJobs s)); [rewrite Hc; exact Inv|].
      cbn [conversionJobs currentConvertingFileId]. exact Inv.
  - unfold mirrorHook.
    destruct (currentConvertingFileId s) as [c|] eqn:Hc; [|rewrite Hc; exact Inv].
    cbn [conversionJobs currentConvertingFileId].
    intros j Hin Hact. apply in_map_iff in Hin as (k & Hk & Hin).
    destruct (hasId c k) eqn:Hid.
    + subst j. unfold isActive, mirrorJob in Hact. cbn [status] in Hact.
      assert (Hterm : isTerminal (hookStatus h) = false)
        by (destruct (hookStatus h); try discriminate; reflexivity).
      rewrite Hterm. cbn [andb isCurrent]. exact Hid.
    + subst j. specialize (Inv k Hin Hact). cbn [isCurrent] in Inv. congruence.
  - unfold removeFile.
    destruct (isZipping s || (currentIs fileId s && isProcessingQueue s)); [exact Inv|].
    destruct (Z.of_nat _ =? 0); cbn [conversionJobs currentConvertingFileId];
      intros j Hin Hact; apply filter_In in Hin as [Hin _]; auto.
  - unfold handleResetClick. destruct (isZipping s); [exact Inv|].
    cbn [conversionJobs]. intros j [].
  - unfold startExport.
    destruct (isProcessingQueue s || isZipping s); [exact Inv|].
    destruct (Z.of_nat _ =? 0); [exact Inv|].
    destruct (negb jszip); exact Inv.
  - exact Inv.
Qed.

Lemma keep_id_start (c : string) (j : ConversionJob) :
  id (if hasId c j then startJob j else j) = id j.
Proof. destruct (hasId c j); reflexivity. Qed.

Lemma keep_id_mirror (c : string) (h : Hook) (j : ConversionJob) :
  id (if hasId c j then mirrorJob h j else j) = id j.
Proof. destruct (hasId c j); reflexivity. Qed.

Lemma ids_app (a b : list ConversionJob) : ids (a ++ b) = ids a ++ ids b.
Proof. unfold ids. apply map_app. Qed.

Lemma not_removed_listed (fileId c : string) (jobs : list ConversionJob) :
  String.eqb c fileId = false -> In c (ids jobs) ->
  In c (ids (filter (fun job => negb (hasId fileId job)) jobs)).
Proof.
  unfold ids. intros Hne Hin. apply in_map_iff in Hin as (j & Hj & Hin).
  apply in_map_iff. exists j. split; [exact Hj|].
  apply filter_In. split; [exact Hin|].
  unfold hasId. rewrite Hj, Hne. reflexivity.
Qed.

Lemma step_currentIsListed (e : event) (s : State) :
  currentIsListed s -> currentIsListed (step e s).
Proof.
  unfold currentIsListed. intros Inv.
  destruct e as [files| |h|fileId| |jszip|]; cbn [step].
  - unfold handleFilesSelect.
    destruct (isZipping s); [exact Inv|].
    destruct (0 <? _); [|exact Inv].
    cbn [conversionJobs currentConvertingFileId isProcessingQueue].
    intros c Hc. destruct (Inv c Hc) as [Hp Hin]. split; [exact Hp|].
    rewrite ids_app. apply in_or_app. now left.
  - destruct (isZipping s) eqn:Hz; [exact Inv|].
    unfold processNextFileInQueue. rewrite Hz.
    destruct (currentConvertingFileId s) as [c0|] eqn:Hc0; [rewrite Hc0; exact Inv|].
    destruct (find isIdle (conversionJobs s)) as [next|] eqn:Hfind.
    + cbn [conversionJobs currentConvertingFileId isProcessingQueue].
      intros c Hc. split; [reflexivity|].
      assert (c = id next) by congruence. subst c.
      rewrite ids_map_keep by (intros; apply keep_id_start).
      apply find_idle_In in Hfind as [Hin _]. unfold ids. now apply in_map.
    + destruct (existsb isActive (conversionJobs s));
        [rewrite Hc0 | cbn [currentConvertingFileId]]; intros c Hc; discriminate.
  - unfold mirrorHook.
    destruct (currentConvertingFileId s) as [c0|] eqn:Hc0; [|rewrite Hc0; exact Inv].
    cbn [conversionJobs currentConvertingFileId isProcessingQueue].
    intros c Hc. destruct (isTerminal (hookStatus h) && _); [discriminate|].
    destruct (Inv c Hc) as [Hp Hin]. split; [exact Hp|].
    rewrite ids_map_keep by (intros; apply keep_id_mirror). exact Hin.
  - unfold removeFile.
    destruct (isZipping s || (currentIs fileId s && isProcessingQueue s)) eqn:G;
      [exact Inv|].
    apply orb_false_iff in G as [_ G].
    assert (Hkeep : forall c, currentConvertingFileId s = Some c ->
                      isProcessingQueue s = true
                      /\ In c (ids (filter (fun job => negb (hasId fileId job))
                                           (conversionJobs s)))).
    { intros c Hc. destruct (Inv c Hc) as [Hp Hin]. split; [exact Hp|].
      apply not_removed_listed; [|exact Hin].
      unfold currentIs in G. rewrite Hc, Hp, andb_true_r in G. exact G. }
    destruct (Z.of_nat _ =? 0) eqn:E;
      cbn [conversionJobs currentConvertingFileId isProcessingQueue];
      intros c Hc; destruct (Hkeep c Hc) as [Hp Hin]; [|tauto].
    apply Z.eqb_eq in E.
    destruct (filter (fun job => negb (hasId fileId job)) (conversionJobs s));
      [destruct Hin | cbn [List.length] in E; lia].
  - unfold handleResetClick. destruct (isZipping s); [exact Inv|].
    cbn [currentConvertingFileId]. intros c Hc. discriminate.
  - unfold startExport.
    destruct (isProcessingQueue s || isZipping s); [exact Inv|].
    destruct (Z.of_nat _ =? 0); [exact Inv|].
    destruct (negb jszip); exact Inv.
  - exact Inv.
Qed.

Lemma step_countersNonNegative (e : event) (s : State) :
  countersNonNegative s -> countersNonNegative (step e s).
Proof.
  unfold countersNonNegative. intros [Ht Hp].
  destruct e as [files| |h|fileId| |jszip|]; cbn [step].
  - unfold handleFilesSelect.
    destruct (isZipping s); [tauto|]. destruct (0 <? _); [|tauto].
    cbn [totalFilesInCurrentRun filesProcessedInCurrentRun]. tauto.
  - destruct (isZipping s) eqn:Hz; [tauto|].
    unfold processNextFileInQueue. rewrite Hz.
    destruct (currentConvertingFileId s); [tauto|].
    destruct (find isIdle (conversionJobs s)).
    + cbn [totalFilesInCurrentRun filesProcessedInCurrentRun].
      pose proof (count_nonneg isIdle (conversionJobs s)).
      destruct (_ || _); lia.
    + destruct (existsb isActive (conversionJobs s)); [tauto|].
      cbn [totalFilesInCurrentRun filesProcessedInCurrentRun]. tauto.
  - unfold mirrorHook. destruct (currentConvertingFileId s) as [c|]; [|tauto].
    cbn [totalFilesInCurrentRun filesProcessedInCurrentRun].
    pose proof (count_nonneg (hasId c) (conversionJobs s)).
    destruct (_ && _); lia.
  - unfold removeFile.
    destruct (isZipping s || (currentIs fileId s && isProcessingQueue s)); [tauto|].
    destruct (Z.of_nat _ =? 0);
      cbn [totalFilesInCurrentRun filesProcessedInCurrentRun]; [lia|].
    repeat match goal with
           | |- context [if ?c then _ else _] => destruct c eqn:?
           end;
      repeat match goal with
             | H : (_ <? _) = false |- _ => apply Z.ltb_ge in H
             end; lia.
  - unfold handleResetClick. destruct (isZipping s); [tauto|].
    cbn [totalFilesInCurrentRun filesProcessedInCurrentRun]. lia.
  - unfold startExport.
    destruct (isProcessingQueue s || isZipping s); [tauto|].
    destruct (Z.of_nat _ =? 0); [tauto|].
    destruct (negb jszip); tauto.
  - tauto.
Qed.

(** The ids of the jobs stay pairwise distinct as long as no single batch of
    selected files holds the same identity twice. *)
Lemma step_ids_NoDup (e : event) (s : State) :
  (forall files, e = FilesSelected files -> NoDup (map generateFileId files)) ->
  NoDup (ids (conversionJobs s)) -> NoDup (ids (conversionJobs (step e s))).
Proof.
  intros Hbatch Hnd.
  destruct e as [files| |h|fileId| |jszip|]; cbn [step].
  - specialize (Hbatch files eq_refl). unfold handleFilesSelect.
    destruct (isZipping s); [exact Hnd|]. destruct (0 <? _); [|exact Hnd].
    cbn [conversionJobs]. rewrite ids_app. apply NoDup_app.
    + exact Hnd.
    + apply ids_filter_NoDup. unfold ids. rewrite map_map. exact Hbatch.
    + intros c Hold Hnew. unfold ids in Hnew.
      apply in_map_iff in Hnew as (j & Hj & Hin).
      apply filter_In in Hin as [_ Hisnew].
      apply isNew_not_listed in Hisnew. congruence.
  - destruct (isZipping s) eqn:Hz; [exact Hnd|].
    unfold processNextFileInQueue. rewrite Hz.
    destruct (currentConvertingFileId s); [exact Hnd|].
    destruct (find isIdle (conversionJobs s)).
    + cbn [conversionJobs].
      rewrite ids_map_keep by (intros; apply keep_id_start). exact Hnd.
    + destruct (existsb isActive (conversionJobs s)); exact Hnd.
  - unfold mirrorHook. destruct (currentConvertingFileId s); [|exact Hnd].
    cbn [conversionJobs].
    rewrite ids_map_keep by (intros; apply keep_id_mirror). exact Hnd.
  - unfold removeFile.
    destruct (isZipping s || (currentIs fileId s && isProcessingQueue s)); [exact Hnd|].
    destruct (Z.of_nat _ =? 0); cbn [conversionJobs]; now apply ids_filter_NoDup.
  - unfold handleResetClick. destruct (isZipping s); [exact Hnd|]. constructor.
  - unfold startExport.
    destruct (isProcessingQueue s || isZipping s); [exact Hnd|].
    destruct (Z.of_nat _ =? 0); [exact Hnd|].
    destruct (negb jszip); exact Hnd.
  - exact Hnd.
Qed.

Lemma reachable_invariants (s : State) :
  reachable s -> activeIsCurrent s /\ currentIsListed s /\ countersNonNegative s.
Proof.
  induction 1 as [|e s _ (Ha & Hc & Hn)].
  - split; [intros j []|]. split; [intros c Hc; discriminate Hc|].
    unfold countersNonNegative. cbn. lia.
  - split; [now apply step_activeIsCurrent|].
    split; [now apply step_currentIsListed | now apply step_countersNonNegative].
Qed.

Lemma reachable_run (events : list event) :
  forall s, reachable s -> reachable (run events s).
Proof.
  induction events as [|e events IH]; intros s Hs; [exact Hs|].
  cbn [run fold_left]. apply IH. now constructor.
Qed.

Lemma activeCount_bound (s : State) :
  activeIsCurrent s -> NoDup (ids (conversionJobs s)) -> activeCount s <= 1.
Proof.
  intros Hact Hnd. unfold activeCount, count.
  assert (H : (List.length (filter isActive (conversionJobs s))
               <= List.length (filter (isCurrent (currentConvertingFileId s))
                                     (conversionJobs s)))%nat)
    by (apply filter_length_mono; exact Hact).
  destruct (currentConvertingFileId s) as [c|].
  - pose proof (hasId_NoDup c (conversionJobs s) Hnd) as H1.
    change (isCurrent (Some c)) with (hasId c) in H. lia.
  - change (isCurrent None) with (fun _ : ConversionJob => false) in H.
    rewrite (filter_false (conversionJobs s)) in H. cbn in H. lia.
Qed.

(** With pairwise distinct identities in every batch, no run of the
    controller ever shows two jobs in an active status. *)
Lemma one_active_with_distinct_batches (events : list event) :
  distinctBatches events -> activeCount (run events initialState) <= 1.
Proof.
  intros Hdistinct.
  assert (H : forall s,
             distinctBatches events ->
             activeIsCurrent s -> NoDup (ids (conversionJobs s)) ->
             activeIsCurrent (run events s)
             /\ NoDup (ids (conversionJobs (run events s)))).
  { clear Hdistinct. induction events as [|e events IH]; intros s Hd Ha Hnd;
      [split; assumption|].
    cbn [run fold_left]. apply IH.
    - intros files Hin. apply Hd. now right.
    - now apply step_activeIsCurrent.
    - apply step_ids_NoDup; [|exact Hnd].
      intros files ->. apply Hd. now left. }
  destruct (H initialState Hdistinct) as [Ha Hnd].
  - intros j [].
  - constructor.
  - now apply activeCount_bound.
Qed.

(* ------------------------------------------------------------------ *)
(** ** The controller: statements of the specification *)

(** C1.  The invariant does not hold in every reachable state: when one
    selection holds two files of the same name, size and modification time,
    both get the same id, both are appended, and the admission, which
    rewrites the jobs by id, moves both to [READING_FILE]. *)
Theorem same_identity_batch_two_active :
  reachable (run [FilesSelected [take1; take1]; QueueEffect] initialState)
  /\ map status
       (conversionJobs (run [FilesSelected [take1; take1]; QueueEffect] initialState))
     = [READING_FILE; READING_FILE]
  /\ activeCount (run [FilesSelected [take1; take1]; QueueEffect] initialState) = 2.
Proof.
  split; [apply reachable_run; constructor|].
  split; vm_compute; reflexivity.
Qed.

(** *** Submission *)

Lemma count_hasId_zero (c : string) (jobs : list ConversionJob) :
  ~ In c (ids jobs) -> filter (hasId c) jobs = [].
Proof.
  intros Hnot. destruct (filter (hasId c) jobs) eqn:E; [reflexivity|].
  exfalso. apply Hnot. apply hasId_In. rewrite E. discriminate.
Qed.

Lemma isNew_iff (existing : list ConversionJob) (j : ConversionJob) :
  isNew existing j = true <-> ~ In (id j) (ids existing).
Proof.
  split; [apply isNew_not_listed|].
  intros Hnot. unfold isNew. apply negb_true_iff.
  destruct (existsb _ existing) eqn:E; [|reflexivity].
  exfalso. apply Hnot. apply existsb_exists in E as (e & Hin & He).
  apply String.eqb_eq in He. rewrite <- He. unfold ids. now apply in_map.
Qed.

Lemma handleFilesSelect_jobs (files : list File) (s : State) :
  isZipping s = false ->
  conversionJobs (handleFilesSelect files s)
  = conversionJobs s ++ filter (isNew (conversionJobs s)) (map newJob files).
Proof.
  intros Hz. unfold handleFilesSelect. rewrite Hz.
  destruct (filter (isNew (conversionJobs s)) (map newJob files)) as [|j l] eqn:E.
  - cbn. now rewrite app_nil_r.
  - change (0 <? Z.of_nat (List.length (j :: l))) with true. reflexivity.
Qed.

Lemma handleFilesSelect_zipping (files : list File) (s : State) :
  isZipping (handleFilesSelect files s) = isZipping s.
Proof.
  unfold handleFilesSelect. destruct (isZipping s) eqn:Hz; [exact Hz|].
  destruct (0 <? _); [reflexivity | exact Hz].
Qed.

(** Deduplication against the jobs of the list.  While a bulk export is
    underway a submission changes nothing.  Otherwise a submission of files
    with pairwise distinct identities appends, in order and in [IDLE]
    status, the files whose id is not carried by a job of the list and drops
    the others, so that the ids of the jobs stay pairwise distinct; a file
    submitted again while a job with its id is listed adds nothing, and a
    file submitted in two successive submissions ends up as exactly one
    job. *)
Lemma submission_deduplicates (s : State) (files : list File) (f : File) :
  (isZipping s = true -> handleFilesSelect files s = s)
  /\ (isZipping s = false ->
      NoDup (map generateFileId files) ->
      conversionJobs (handleFilesSelect files s)
      = conversionJobs s ++ filter (isNew (conversionJobs s)) (map newJob files)
      /\ (forall j, In j (filter (isNew (conversionJobs s)) (map newJob files)) ->
                    status j = IDLE /\ ~ In (id j) (ids (conversionJobs s)))
      /\ (NoDup (ids (conversionJobs s)) ->
          NoDup (ids (conversionJobs (handleFilesSelect files s)))))
  /\ (isZipping s = false ->
      In (generateFileId f) (ids (conversionJobs s)) ->
      handleFilesSelect [f] s = s)
  /\ (isZipping s = false ->
      ~ In (generateFileId f) (ids (conversionJobs s)) ->
      conversionJobs (handleFilesSelect [f] (handleFilesSelect [f] s))
      = conversionJobs s ++ [newJob f]
      /\ count (hasId (generateFileId f))
               (conversionJobs (handleFilesSelect [f] (handleFilesSelect [f] s)))
         = 1).
Proof.
  split; [|split; [|split]].
  - intros Hz. unfold handleFilesSelect. now rewrite Hz.
  - intros Hz Hbatch. split; [now apply handleFilesSelect_jobs|]. split.
    + intros j Hin. apply newJobs_idle in Hin as (Hidle & Hnew & _).
      split; [exact Hidle | now apply isNew_not_listed].
    + intros Hnd.
      apply (step_ids_NoDup (FilesSelected files) s); [|exact Hnd].
      intros files' Heq. congruence.
  - intros Hz Hin. unfold handleFilesSelect. rewrite Hz. cbn [map filter].
    assert (Hold : isNew (conversionJobs s) (newJob f) = false).
    { destruct (isNew (conversionJobs s) (newJob f)) eqn:E; [|reflexivity].
      apply isNew_iff in E. now elim E. }
    rewrite Hold. reflexivity.
  - intros Hz Hnot.
    assert (Hfirst : conversionJobs (handleFilesSelect [f] s)
                     = conversionJobs s ++ [newJob f]).
    { rewrite handleFilesSelect_jobs by exact Hz. cbn [map filter].
      assert (Hnew : isNew (conversionJobs s) (newJob f) = true)
        by (now apply isNew_iff).
      now rewrite Hnew. }
    assert (Hsecond : conversionJobs (handleFilesSelect [f] (handleFilesSelect [f] s))
                      = conversionJobs s ++ [newJob f]).
    { rewrite handleFilesSelect_jobs by (now rewrite handleFilesSelect_zipping).
      rewrite Hfirst. cbn [map filter].
      assert (Hold : isNew (conversionJobs s ++ [newJob f]) (newJob f) = false).
      { destruct (isNew (conversionJobs s ++ [newJob f]) (newJob f)) eqn:E;
          [|reflexivity].
        apply isNew_iff in E. exfalso. apply E.
        rewrite ids_app. apply in_or_app. right. now left. }
      rewrite Hold. now rewrite app_nil_r. }
    split; [exact Hsecond|].
    rewrite Hsecond. unfold count. rewrite filter_app.
    rewrite (count_hasId_zero _ _ Hnot). cbn [app filter].
    unfold hasId at 1. cbn [id newJob]. rewrite String.eqb_refl. reflexivity.
Qed.

Lemma submission_deduplicates_example :
  handleFilesSelect [take2] exportingState = exportingState
  /\ conversionJobs (handleFilesSelect [take2] convertedState)
     = conversionJobs convertedState ++ [newJob take2]
  /\ NoDup (ids (conversionJobs (handleFilesSelect [take2] convertedState)))
  /\ conversionJobs (handleFilesSelect [take2] (handleFilesSelect [take2] convertedState))
     = conversionJobs convertedState ++ [newJob take2]
  /\ count (hasId (generateFileId take2))
           (conversionJobs (handleFilesSelect [take2]
                              (handleFilesSelect [take2] convertedState)))
     = 1.
Proof.
  destruct (submission_deduplicates exportingState [take2] take2) as (Hzip & _).
  destruct (submission_deduplicates convertedState [take2] take2)
    as (_ & Hbatch & _ & Htwice).
  assert (Hone : NoDup (map generateFileId [take2]))
    by (repeat constructor; intros []).
  destruct (Hbatch eq_refl Hone) as (Hjobs & _ & Hnd).
  split; [apply Hzip; reflexivity|].
  split; [exact Hjobs|].
  split.
  - apply Hnd. vm_compute. repeat constructor. intros [].
  - apply (Htwice eq_refl). vm_compute. intros [H|[]]. discriminate H.
Defined.

(** C7.  The same file submitted twice in one selection gives two jobs:
    [handleFilesSelect] compares the new jobs with the jobs already in the
    list and not with each other, so both copies pass the filter and both
    are appended, under one id.  Submitted in two successive selections the
    same file gives one job: the second copy is dropped. *)
Theorem same_file_twice_in_one_selection (f : File) :
  conversionJobs (handleFilesSelect [f; f] initialState) = [newJob f; newJob f]
  /\ ids (conversionJobs (handleFilesSelect [f; f] initialState))
     = [generateFileId f; generateFileId f]
  /\ count (hasId (generateFileId f))
           (conversionJobs (handleFilesSelect [f; f] initialState)) = 2
  /\ conversionJobs (handleFilesSelect [f] (handleFilesSelect [f] initialState))
     = [newJob f].
Proof.
  assert (Hboth : conversionJobs (handleFilesSelect [f; f] initialState)
                  = [newJob f; newJob f]) by reflexivity.
  split; [exact Hboth|]. split; [now rewrite Hboth|]. split.
  - rewrite Hboth. unfold count. cbn [filter]. unfold hasId. cbn [id newJob].
    rewrite String.eqb_refl. reflexivity.
  - change (handleFilesSelect [f] initialState)
      with (mkState [newJob f] 0 false None 0 0 false).
    unfold handleFilesSelect.
    cbn [isZipping conversionJobs map filter].
    unfold isNew. cbn [existsb id newJob]. rewrite String.eqb_refl. reflexivity.
Qed.

(** *** Removal *)

Lemma currentIs_false (fileId : string) (s : State) :
  currentConvertingFileId s <> Some fileId -> currentIs fileId s = false.
Proof.
  intros Hne. unfold currentIs.
  destruct (currentConvertingFileId s) as [c|]; [|reflexivity].
  destruct (String.eqb c fileId) eqn:E; [|reflexivity].
  apply String.eqb_eq in E. subst c. now elim Hne.
Qed.

Lemma removeFile_jobs (fileId : string) (s : State) :
  isZipping s = false -> currentIs fileId s = false ->
  conversionJobs (removeFile fileId s)
  = filter (fun job => negb (hasId fileId job)) (conversionJobs s)
  /\ currentConvertingFileId (removeFile fileId s) = currentConvertingFileId s.
Proof.
  intros Hz Hc. unfold removeFile. rewrite Hz, Hc. cbn [orb andb].
  destruct (Z.of_nat _ =? 0); split; reflexivity.
Qed.

Lemma find_hasId_idle (fileId : string) (jobs : list ConversionJob) (j : ConversionJob) :
  find (hasId fileId) jobs = Some j -> status j = IDLE -> isIdle j = true.
Proof. intros _ H. unfold isIdle. now rewrite H. Qed.

(** What a removal does in a reachable state.  While a bulk export is
    underway every removal is refused.  Otherwise removing the admitted job
    is refused; removing another job that occurs once in the list shortens
    the list by exactly one; the total is never negative afterwards and
    completed-in-run does not exceed it if it did not before; when the
    removed job was [IDLE] and a run is in progress (total positive,
    completed below it) the total becomes the number of remaining [IDLE]
    jobs plus one if the admitted job is in the list, and completed-in-run
    is capped at it; and when no job remains the counters are zero, the
    processing flag is cleared and no job is admitted. *)
Lemma removeFile_effect (s : State) (fileId : string) :
  reachable s ->
  (isZipping s = true -> removeFile fileId s = s)
  /\ (isZipping s = false ->
      (currentConvertingFileId s = Some fileId -> removeFile fileId s = s)
      /\ (currentConvertingFileId s <> Some fileId ->
          (count (hasId fileId) (conversionJobs s) = 1 ->
           Z.of_nat (List.length (conversionJobs (removeFile fileId s)))
           = Z.of_nat (List.length (conversionJobs s)) - 1)
          /\ 0 <= totalFilesInCurrentRun (removeFile fileId s)
          /\ (filesProcessedInCurrentRun s <= totalFilesInCurrentRun s ->
              filesProcessedInCurrentRun (removeFile fileId s)
              <= totalFilesInCurrentRun (removeFile fileId s))
          /\ (forall j,
                 find (hasId fileId) (conversionJobs s) = Some j ->
                 status j = IDLE ->
                 0 < totalFilesInCurrentRun s ->
                 filesProcessedInCurrentRun s < totalFilesInCurrentRun s ->
                 totalFilesInCurrentRun (removeFile fileId s)
                 = count isIdle (conversionJobs (removeFile fileId s))
                   + match find (isCurrent (currentConvertingFileId s))
                                (conversionJobs (removeFile fileId s)) with
                     | Some _ => 1
                     | None => 0
                     end
                 /\ filesProcessedInCurrentRun (removeFile fileId s)
                    <= totalFilesInCurrentRun (removeFile fileId s))
          /\ (conversionJobs (removeFile fileId s) = [] ->
              totalFilesInCurrentRun (removeFile fileId s) = 0
              /\ filesProcessedInCurrentRun (removeFile fileId s) = 0
              /\ isProcessingQueue (removeFile fileId s) = false
              /\ currentConvertingFileId (removeFile fileId s) = None))).
Proof.
  intros Hreach.
  destruct (reachable_invariants s Hreach) as (_ & Hlisted & Hnn & Hnp).
  split.
  - intros Hz. unfold removeFile. now rewrite Hz.
  - intros Hz. split.
    + intros Hc. destruct (Hlisted _ Hc) as [Hp _].
      unfold removeFile, currentIs. rewrite Hz, Hc, Hp, String.eqb_refl. reflexivity.
    + intros Hne. pose proof (currentIs_false _ _ Hne) as Hcur.
      destruct (removeFile_jobs fileId s Hz Hcur) as [Hjobs Hsame].
      split; [|split; [|split; [|split]]].
      * intros Hone. rewrite Hjobs.
        pose proof (filter_split_length (hasId fileId) (conversionJobs s)).
        unfold count in Hone. lia.
      * unfold removeFile. rewrite Hz, Hcur. cbn [orb andb].
        destruct (Z.of_nat _ =? 0); cbn [totalFilesInCurrentRun]; [lia|].
        repeat match goal with
               | |- context [if ?c then _ else _] => destruct c eqn:?
               end;
          repeat match goal with
                 | H : (_ <? _) = false |- _ => apply Z.ltb_ge in H
                 end; lia.
      * intros Hle. unfold removeFile. rewrite Hz, Hcur. cbn [orb andb].
        destruct (Z.of_nat _ =? 0);
          cbn [totalFilesInCurrentRun filesProcessedInCurrentRun]; [lia|].
        repeat match goal with
               | |- context [if ?c then _ else _] => destruct c eqn:?
               end;
          repeat match goal with
                 | H : (_ <? _) = false |- _ => apply Z.ltb_ge in H
                 | H : (_ >? _) = false |- _ => rewrite Z.gtb_ltb in H; apply Z.ltb_ge in H
                 | H : (_ && _) = false |- _ => apply andb_false_iff in H as [H|H]
                 | H : true = false |- _ => discriminate H
                 end; try discriminate; lia.
      * intros j Hfind Hidle Hpos Hlt. rewrite Hjobs.
        unfold removeFile. rewrite Hz, Hcur, Hfind. cbn [orb andb].
        rewrite (find_hasId_idle _ _ _ Hfind Hidle).
        replace (0 <? totalFilesInCurrentRun s) with true
          by (symmetry; apply Z.ltb_lt; lia).
        replace (filesProcessedInCurrentRun s <? totalFilesInCurrentRun s) with true
          by (symmetry; apply Z.ltb_lt; lia).
        cbn [andb].
        set (updatedJobs := filter (fun job => negb (hasId fileId job)) (conversionJobs s)).
        pose proof (count_nonneg isIdle updatedJobs) as Hcount.
        set (admitted := match find (isCurrent (currentConvertingFileId s)) updatedJobs with
                         | Some _ => 1
                         | None => 0
                         end).
        assert (Hadm : 0 <= admitted)
          by (unfold admitted; destruct (find _ updatedJobs); lia).
        replace (count isIdle updatedJobs + admitted <? 0) with false
          by (symmetry; apply Z.ltb_ge; lia).
        destruct (Z.of_nat (List.length updatedJobs) =? 0) eqn:E;
          cbn [totalFilesInCurrentRun filesProcessedInCurrentRun].
        -- apply Z.eqb_eq in E.
           assert (updatedJobs = []) by (destruct updatedJobs; [reflexivity | cbn in E; lia]).
           unfold admitted. rewrite H. cbn. lia.
        -- split; [reflexivity|].
           destruct (filesProcessedInCurrentRun s >? count isIdle updatedJobs + admitted)
             eqn:G; [lia|].
           rewrite Z.gtb_ltb in G. apply Z.ltb_ge in G. lia.
      * intros Hempty.
        assert (Hnone : currentConvertingFileId s = None).
        { destruct (currentConvertingFileId s) as [c|] eqn:Hc; [|reflexivity].
          exfalso. destruct (Hlisted c Hc) as [_ Hin].
          assert (Hcf : String.eqb c fileId = false).
          { destruct (String.eqb c fileId) eqn:E; [|reflexivity].
            apply String.eqb_eq in E. subst c. now elim Hne. }
          pose proof (not_removed_listed _ _ _ Hcf Hin) as Hstill.
          rewrite <- Hjobs, Hempty in Hstill. destruct Hstill. }
        rewrite Hsame. rewrite Hjobs in Hempty.
        unfold removeFile. rewrite Hz, Hcur. cbn [orb andb]. rewrite Hempty.
        cbn. auto.
Qed.

Lemma removeFile_effect_example :
  reachable busyState
  /\ removeFile (generateFileId take1) busyState = busyState
  /\ Z.of_nat (List.length (conversionJobs (removeFile (generateFileId take2) busyState)))
     = Z.of_nat (List.length (conversionJobs busyState)) - 1
  /\ totalFilesInCurrentRun (removeFile (generateFileId take2) busyState) = 0 + 1.
Proof.
  assert (Hreach : reachable busyState)
    by (unfold busyState; apply reachable_run; constructor).
  destruct (removeFile_effect busyState (generateFileId take1) Hreach) as [_ H1].
  destruct (removeFile_effect busyState (generateFileId take2) Hreach) as [_ H2].
  split; [exact Hreach|]. split.
  - apply H1; vm_compute; reflexivity.
  - destruct (H2 eq_refl) as [_ H3].
    assert (Hne : currentConvertingFileId busyState <> Some (generateFileId take2))
      by (vm_compute; discriminate).
    destruct (H3 Hne) as (Hlen & _ & _ & Hrun & _).
    split; [apply Hlen; vm_compute; reflexivity|].
    destruct (Hrun (newJob take2)) as [Htotal _];
      [vm_compute; reflexivity | reflexivity | vm_compute; reflexivity
       | vm_compute; reflexivity |].
    rewrite Htotal. vm_compute. reflexivity.
Defined.

(** C8.  The total that a removal recomputes is exceeded by the completed
    count.  Three files are selected; the first is converted and the second
    admitted (total 3, completed 1).  Its remove button being enabled, the
    third job, [IDLE], is removed: the total is recomputed as the remaining
    [IDLE] jobs plus the admitted one, 1, the job already completed left
    out of it, and the completed count, 1, passes the cap.  When the
    second conversion ends the completed count is 2 and the total still
    1. *)
Theorem completed_exceeds_recomputed_total :
  let s1 := run [FilesSelected [take1; take2; take3]; QueueEffect;
                 HookChanged take1Done; QueueEffect] initialState in
  let s2 := run [RemoveClicked (generateFileId take3); QueueEffect] s1 in
  let s3 := run [HookChanged take2Done; QueueEffect] s2 in
  reachable s3
  /\ (map status (conversionJobs s1) = [DONE; READING_FILE; IDLE]
      /\ currentConvertingFileId s1 = Some (generateFileId take2)
      /\ totalFilesInCurrentRun s1 = 3 /\ filesProcessedInCurrentRun s1 = 1)
  /\ removeDisabled s1 (newJob take3) = false
  /\ (map status (conversionJobs s2) = [DONE; READING_FILE]
      /\ currentConvertingFileId s2 = Some (generateFileId take2)
      /\ totalFilesInCurrentRun s2 = 1 /\ filesProcessedInCurrentRun s2 = 1)
  /\ (map status (conversionJobs s3) = [DONE; DONE]
      /\ totalFilesInCurrentRun s3 = 1 /\ filesProcessedInCurrentRun s3 = 2)
  /\ totalFilesInCurrentRun s3 < filesProcessedInCurrentRun s3.
Proof.
  cbv zeta. split.
  - repeat apply reachable_run. constructor.
  - repeat split; vm_compute; reflexivity.
Qed.

(** *** Bulk export *)

(** While an export is underway and no job is admitted, no handler or effect
    other than the end of the export changes the jobs, the flag or the
    marker. *)
Lemma step_while_exporting (e : event) (s : State) :
  e <> ArchiveSettled ->
  isZipping s = true -> currentConvertingFileId s = None ->
  conversionJobs (step e s) = conversionJobs s
  /\ isZipping (step e s) = true
  /\ currentConvertingFileId (step e s) = None.
Proof.
  intros He Hz Hc.
  destruct e as [files| |h|fileId| |jszip|]; cbn [step].
  - unfold handleFilesSelect. rewrite Hz. auto.
  - rewrite Hz. auto.
  - unfold mirrorHook. rewrite Hc. auto.
  - unfold removeFile. rewrite Hz. auto.
  - unfold handleResetClick. rewrite Hz. auto.
  - unfold startExport. rewrite Hz, orb_true_r. auto.
  - now elim He.
Qed.

Lemma run_while_exporting (events : list event) :
  forall s,
    beforeSettling events ->
    isZipping s = true -> currentConvertingFileId s = None ->
    conversionJobs (run events s) = conversionJobs s
    /\ isZipping (run events s) = true.
Proof.
  unfold beforeSettling.
  induction events as [|e events IH]; intros s Hno Hz Hc; [auto|].
  change (run (e :: events) s) with (run events (step e s)).
  assert (He : e <> ArchiveSettled) by (intros ->; apply Hno; now left).
  destruct (step_while_exporting e s He Hz Hc) as (Hj & Hz' & Hc').
  destruct (IH (step e s)) as [Hj2 Hz2]; auto.
  - intros Hin. apply Hno. now right.
  - split; [congruence | exact Hz2].
Qed.

Lemma startExport_Some (jszipLoaded : bool) (s zipping : State) :
  startExport jszipLoaded s = Some zipping ->
  zipping = setZipping true s
  /\ isProcessingQueue s = false /\ isZipping s = false
  /\ filter isConverted (conversionJobs s) <> [] /\ jszipLoaded = true.
Proof.
  unfold startExport. intros H.
  destruct (isProcessingQueue s || isZipping s) eqn:G; [discriminate|].
  apply orb_false_iff in G as [Hp Hz].
  destruct (Z.of_nat _ =? 0) eqn:E; [discriminate|].
  destruct jszipLoaded; [|discriminate]. cbn [negb] in H.
  repeat split; try congruence.
  intros Hnil. rewrite Hnil in E. discriminate.
Qed.

(** C9.  In a reachable state the export is refused, the state left as it
    is, while the queue is processing, while an export is underway, when no
    [DONE] job with a blob exists and when the archive library is absent.
    When the export starts, the jobs are as before and they stay so through
    every event up to the end of the archive generation; at that end,
    whether the archive was generated or generation threw, the jobs are
    still the same and the export flag is cleared. *)
Theorem export_leaves_jobs_alone (s : State) (jszipLoaded : bool) :
  reachable s ->
  ((isProcessingQueue s = true \/ isZipping s = true
    \/ filter isConverted (conversionJobs s) = [] \/ jszipLoaded = false) ->
   startExport jszipLoaded s = None
   /\ step (DownloadAllClicked jszipLoaded) s = s
   /\ forall generateAsync, handleDownloadAllClick jszipLoaded generateAsync s = s)
  /\ (forall zipping,
         startExport jszipLoaded s = Some zipping ->
         conversionJobs zipping = conversionJobs s
         /\ isZipping zipping = true
         /\ (forall events,
                beforeSettling events ->
                conversionJobs (run events zipping) = conversionJobs s
                /\ conversionJobs (step ArchiveSettled (run events zipping))
                   = conversionJobs s
                /\ isZipping (step ArchiveSettled (run events zipping)) = false)
         /\ (forall generateAsync,
                conversionJobs (handleDownloadAllClick jszipLoaded generateAsync s)
                = conversionJobs s
                /\ isZipping (handleDownloadAllClick jszipLoaded generateAsync s)
                   = false)).
Proof.
  intros Hreach.
  destruct (reachable_invariants s Hreach) as (_ & Hlisted & _).
  split.
  - intros Hrefuse.
    assert (Hnone : startExport jszipLoaded s = None).
    { unfold startExport.
      destruct Hrefuse as [Hp|[Hz|[Hnil|Hlib]]].
      - now rewrite Hp.
      - now rewrite Hz, orb_true_r.
      - rewrite Hnil. destruct (_ || _); reflexivity.
      - rewrite Hlib. destruct (_ || _); [reflexivity|].
        destruct (_ =? 0); reflexivity. }
    split; [exact Hnone|]. split.
    + cbn [step]. now rewrite Hnone.
    + intros g. unfold handleDownloadAllClick. now rewrite Hnone.
  - intros zipping Hstart.
    destruct (startExport_Some _ _ _ Hstart) as (-> & Hp & Hz & _ & _).
    assert (Hcur : currentConvertingFileId s = None).
    { destruct (currentConvertingFileId s) as [c|] eqn:Hc; [|reflexivity].
      destruct (Hlisted c Hc) as [Hp' _]. congruence. }
    split; [reflexivity|]. split; [reflexivity|]. split.
    + intros events Hbefore.
      destruct (run_while_exporting events (setZipping true s) Hbefore)
        as [Hjobs _]; [reflexivity | exact Hcur |].
      cbn [conversionJobs setZipping] in Hjobs.
      split; [exact Hjobs|]. split; [exact Hjobs | reflexivity].
    + intros g. unfold handleDownloadAllClick. rewrite Hstart.
      destruct (g _); split; reflexivity.
Qed.

Lemma export_leaves_jobs_alone_witness :
  reachable convertedState
  /\ startExport true convertedState = Some exportingState
  /\ conversionJobs
       (step ArchiveSettled
             (run [RemoveClicked (generateFileId take1); FilesSelected [take2];
                   QueueEffect; HookChanged take1Done; ResetClicked]
                  exportingState))
     = conversionJobs convertedState
  /\ conversionJobs (handleDownloadAllClick true failingArchive convertedState)
     = conversionJobs convertedState
  /\ isZipping (handleDownloadAllClick true failingArchive convertedState) = false
  /\ startExport false convertedState = None.
Proof.
  assert (Hreach : reachable convertedState)
    by (unfold convertedState; apply reachable_run; constructor).
  assert (Hstart : startExport true convertedState = Some exportingState)
    by (vm_compute; reflexivity).
  destruct (export_leaves_jobs_alone convertedState true Hreach) as [_ Hrun].
  destruct (Hrun exportingState Hstart) as (_ & _ & Hevents & Hwhole).
  destruct (export_leaves_jobs_alone convertedState false Hreach) as [Hrefused _].
  split; [exact Hreach|]. split; [exact Hstart|]. split.
  - apply Hevents. unfold beforeSettling. cbn [In].
    intros [H|[H|[H|[H|[H|[]]]]]]; discriminate H.
  - split; [apply (proj1 (Hwhole failingArchive))|].
    split; [apply (proj2 (Hwhole failingArchive))|].
    apply Hrefused. right. right. right. reflexivity.
Defined.

(* ------------------------------------------------------------------ *)
(** ** More on the decoder *)

Lemma inView_true (b : ArrayBuffer) (i w : Z) :
  0 <= i -> i + w <= byteLength b -> inView b i w = true.
Proof.
  intros Hi Hw. unfold inView. apply andb_true_intro.
  split; apply Z.leb_le; lia.
Qed.

Lemma inView_false (b : ArrayBuffer) (i w : Z) :
  i < 0 \/ byteLength b < i + w -> inView b i w = false.
Proof.
  intros H. unfold inView. apply andb_false_iff.
  destruct H; [left | right]; apply Z.leb_gt; lia.
Qed.

Lemma getString_in_view (view : ArrayBuffer) (offset : Z) (length : nat) :
  0 <= offset -> offset + Z.of_nat length <= byteLength view ->
  exists str, getStringFromDataView view offset length = Normal str.
Proof.
  revert offset. induction length as [|n IH]; intros offset Hlo Hhi.
  - now exists EmptyString.
  - cbn [getStringFromDataView]. unfold getUint8.
    rewrite inView_true by lia. cbn [bind].
    destruct (IH (offset + 1)) as (rest & Hrest); [lia | lia |].
    rewrite Hrest. cbn [bind]. eauto.
Qed.

Lemma getString_out_of_view (view : ArrayBuffer) (offset : Z) (length : nat) :
  (0 < length)%nat ->
  offset < 0 \/ byteLength view < offset + Z.of_nat length ->
  getStringFromDataView view offset length = Throws RangeError.
Proof.
  revert offset. induction length as [|n IH]; intros offset Hpos Hout; [lia|].
  cbn [getStringFromDataView]. unfold getUint8.
  destruct (inView view offset 1) eqn:Hin; [|reflexivity].
  cbn [bind]. unfold inView in Hin. apply andb_prop in Hin as [H0 H1].
  apply Z.leb_le in H0. apply Z.leb_le in H1.
  destruct n as [|n]; [lia|].
  rewrite IH by lia. reflexivity.
Qed.

(** X1.  [getStringFromDataView] returns the [length] characters whose codes
    are the bytes from [offset] on when they all lie in the view, and raises
    a [RangeError] when a character is asked for that does not; asked for no
    character it returns the empty string wherever [offset] lies. *)
Theorem getStringFromDataView_bounds (view : ArrayBuffer) (offset : Z) (length : nat) :
  (0 <= offset -> offset + Z.of_nat length <= byteLength view ->
   exists str,
     getStringFromDataView view offset length = Normal str
     /\ String.length str = length
     /\ forall k, (k < length)%nat ->
                  String.get k str = Some (charAt view (offset + Z.of_nat k)))
  /\ ((0 < length)%nat ->
      offset < 0 \/ byteLength view < offset + Z.of_nat length ->
      getStringFromDataView view offset length = Throws RangeError)
  /\ (length = O -> getStringFromDataView view offset length = Normal EmptyString).
Proof.
  split; [|split].
  - revert offset. induction length as [|n IH]; intros offset Hlo Hhi.
    + exists EmptyString. repeat split. intros k Hk. lia.
    + cbn [getStringFromDataView]. unfold getUint8.
      rewrite inView_true by lia. cbn [bind].
      destruct (IH (offset + 1)) as (rest & Hrest & Hlen & Hget); [lia | lia |].
      rewrite Hrest. cbn [bind].
      exists (String (ascii_of_N (Z.to_N (byteAt view offset))) rest).
      split; [reflexivity|]. split; [cbn; now rewrite Hlen|].
      intros [|k] Hk; cbn [String.get].
      * unfold charAt. now rewrite Z.add_0_r.
      * rewrite Hget by lia. do 2 f_equal. lia.
  - revert offset. induction length as [|n IH]; intros offset Hpos Hout; [lia|].
    cbn [getStringFromDataView]. unfold getUint8.
    destruct (inView view offset 1) eqn:Hin; [|reflexivity].
    cbn [bind]. unfold inView in Hin. apply andb_prop in Hin as [H0 H1].
    apply Z.leb_le in H0. apply Z.leb_le in H1.
    destruct n as [|n]; [lia|].
    rewrite IH by lia. reflexivity.
  - intros ->. reflexivity.
Qed.

Lemma getStringFromDataView_bounds_witness :
  (exists str,
      getStringFromDataView listThenData 36 4 = Normal str
      /\ String.length str = 4%nat
      /\ forall k, (k < 4)%nat ->
                   String.get k str = Some (charAt listThenData (36 + Z.of_nat k)))
  /\ getStringFromDataView (bytesOf "RIFF"%string) 2 4 = Throws RangeError.
Proof.
  destruct (getStringFromDataView_bounds listThenData 36 4) as (Hin & _ & _).
  destruct (getStringFromDataView_bounds (bytesOf "RIFF"%string) 2 4) as (_ & Hout & _).
  split.
  - apply Hin; vm_compute; discriminate.
  - apply Hout; [lia | right; vm_compute; reflexivity].
Defined.


(** X2.  What the signature check makes of a buffer: fewer than 4 bytes
    raise a [RangeError]; 4 bytes or more that do not start with [RIFF] give
    [null], whatever the length; [RIFF] followed by fewer than 8 more bytes
    raises a [RangeError]; with 12 bytes or more and bytes 8 to 11 other than
    [WAVE] the answer is [null]; and a buffer with a valid signature and
    fewer than 20 bytes, too short for a chunk header, gives [null]. *)
Theorem signature_check_outcomes (arrayBuffer : ArrayBuffer) :
  (byteLength arrayBuffer < 4 -> parseWavFile arrayBuffer = Exception RangeError)
  /\ (forall tag,
         getStringFromDataView arrayBuffer 0 4 = Normal tag ->
         tag <> "RIFF"%string ->
         parseWavFile arrayBuffer = Null)
  /\ (getStringFromDataView arrayBuffer 0 4 = Normal "RIFF"%string ->
      byteLength arrayBuffer < 12 ->
      parseWavFile arrayBuffer = Exception RangeError)
  /\ (forall form,
         getStringFromDataView arrayBuffer 0 4 = Normal "RIFF"%string ->
         getStringFromDataView arrayBuffer 8 4 = Normal form ->
         form <> "WAVE"%string ->
         parseWavFile arrayBuffer = Null)
  /\ (signatureOk arrayBuffer = Normal true ->
      byteLength arrayBuffer < 20 ->
      parseWavFile arrayBuffer = Null).
Proof.
  unfold parseWavFile, signatureOk. repeat split.
  - intros Hlen.
    rewrite (getString_out_of_view arrayBuffer 0 4) by (cbn; lia). reflexivity.
  - intros tag Htag Hne. rewrite Htag. cbn [bind].
    apply String.eqb_neq in Hne. now rewrite Hne.
  - intros Htag Hlen. rewrite Htag. cbn [bind].
    rewrite (getString_out_of_view arrayBuffer 8 4) by (cbn; lia). reflexivity.
  - intros form Htag Hform Hne. rewrite Htag, Hform. cbn [bind].
    apply String.eqb_neq in Hne. now rewrite Hne.
  - intros Hsig Hlen. rewrite Hsig.
    unfold scanChunks.
    destruct (List.length arrayBuffer) as [|fuel] eqn:Hfuel; cbn [scanLoop].
    + unfold byteLength. rewrite Hfuel. cbn. reflexivity.
    + cbn [offset initVars].
      destruct (12 <? byteLength arrayBuffer); [|reflexivity].
      rewrite loopBody_short by (cbn; lia). reflexivity.
Qed.

Lemma signature_check_outcomes_witness :
  parseWavFile [x52; x49] = Exception RangeError
  /\ parseWavFile (bytesOf "RIFX"%string) = Null
  /\ parseWavFile (bytesOf "RIFF1234"%string) = Exception RangeError
  /\ parseWavFile (bytesOf "RIFF1234AVI LIST"%string) = Null
  /\ parseWavFile riffHeader = Null.
Proof.
  destruct (signature_check_outcomes [x52; x49]) as (H1 & _).
  destruct (signature_check_outcomes (bytesOf "RIFX"%string)) as (_ & H2 & _).
  destruct (signature_check_outcomes (bytesOf "RIFF1234"%string)) as (_ & _ & H3 & _).
  destruct (signature_check_outcomes (bytesOf "RIFF1234AVI LIST"%string))
    as (_ & _ & _ & H4 & _).
  destruct (signature_check_outcomes riffHeader) as (_ & _ & _ & _ & H5).
  split; [apply H1; vm_compute; reflexivity|].
  split; [apply (H2 "RIFX"%string); [vm_compute; reflexivity | discriminate]|].
  split; [apply H3; vm_compute; reflexivity|].
  split; [apply (H4 "AVI "%string); [vm_compute; reflexivity | vm_compute; reflexivity
                                     | discriminate]|].
  apply H5; vm_compute; reflexivity.
Defined.

(** *** Positions the loop reaches *)

Lemma reaches_offset (view : ArrayBuffer) (v : vars) :
  reaches view v -> 12 <= offset v.
Proof.
  induction 1 as [|v v' _ IH _ Hbody]; [cbn; lia|].
  destruct (loopBody_Continue _ _ _ Hbody) as (_ & cs & _ & _ & Hnn & _ & Hoff & _).
  pose proof (Z.mod_pos_bound cs 2 ltac:(lia)). lia.
Qed.

(** The outcome of the whole scan is the outcome of the loop taken up at any
    position it reaches. *)
Lemma scanChunks_from (view : ArrayBuffer) (v : vars) :
  reaches view v -> scanChunks view = scanLoop (List.length view) view v.
Proof.
  induction 1 as [|v v' Hreach IH Hlt Hbody]; [reflexivity|].
  rewrite IH.
  pose proof (reaches_offset _ _ Hreach) as H12.
  destruct (loopBody_Continue _ _ _ Hbody) as (_ & cs & _ & _ & Hnn & _ & Hoff & _).
  pose proof (Z.mod_pos_bound cs 2 ltac:(lia)) as Hmod.
  unfold byteLength in Hlt.
  destruct (List.length view) as [|fuel] eqn:Hfuel; [lia|].
  assert (Hne : scanLoop fuel view v' <> OutOfFuel)
    by (apply scanLoop_enough_fuel; unfold byteLength; rewrite Hfuel; lia).
  replace (S fuel) with (fuel + 1)%nat at 2 by lia.
  rewrite (scanLoop_more_fuel view fuel v' 1 Hne).
  cbn [scanLoop]. unfold byteLength. rewrite Hfuel.
  replace (offset v <? Z.of_nat (S fuel)) with true
    by (symmetry; apply Z.ltb_lt; lia).
  now rewrite Hbody.
Qed.

Lemma scanChunks_turn (view : ArrayBuffer) (v : vars) :
  reaches view v -> offset v < byteLength view ->
  scanChunks view
  = match loopBody view v with
    | Continue v' => scanLoop (List.length view) view v'
    | Break v' => Exited v'
    | ReturnNull => Nulled
    | Raise e => Raised e
    end.
Proof.
  intros Hreach Hlt.
  pose proof (reaches_offset _ _ Hreach) as H12.
  destruct (loopBody view v) as [v'|v'| |e] eqn:Hbody;
    [apply (scanChunks_from view v'); now apply (reaches_next view v v') | | |];
    rewrite (scanChunks_from view v Hreach);
    unfold byteLength in Hlt;
    (destruct (List.length view) as [|fuel] eqn:Hfuel; [lia|]);
    cbn [scanLoop]; unfold byteLength; rewrite Hfuel;
    (replace (offset v <? Z.of_nat (S fuel)) with true
      by (symmetry; apply Z.ltb_lt; lia));
    now rewrite Hbody.
Qed.

Lemma chunkHeader_reads (view : ArrayBuffer) (off : Z) (tag : string) (size : Z) :
  chunkHeader view off = Normal (tag, size) ->
  getStringFromDataView view off 4 = Normal tag
  /\ getUint32 view (off + 4) = Normal size.
Proof.
  unfold chunkHeader. intros H.
  destruct (getStringFromDataView view off 4) as [t|]; [|discriminate].
  destruct (getUint32 view (off + 4)) as [n|]; [|discriminate].
  cbn [bind] in H. apply Normal_inj in H.
  split; congruence.
Qed.

(** X3.  Wherever the chunk loop meets it in a buffer with a valid signature,
    a format chunk declaring fewer than 16 bytes, a format code other than 1
    (PCM), or a bit depth other than 8 and 16 makes the decoder answer
    [null]; so does a data chunk met before any format chunk.  Chunks with
    other tags before it do not matter. *)
Theorem malformed_chunks_rejected (arrayBuffer : ArrayBuffer) (v : vars) (size : Z) :
  signatureOk arrayBuffer = Normal true ->
  reaches arrayBuffer v ->
  offset v + 8 <= byteLength arrayBuffer ->
  (chunkHeader arrayBuffer (offset v) = Normal ("fmt "%string, size) ->
   (size < 16 -> parseWavFile arrayBuffer = Null)
   /\ (forall audioFormat,
          16 <= size ->
          getUint16 arrayBuffer (offset v + 8) = Normal audioFormat ->
          audioFormat <> 1 ->
          parseWavFile arrayBuffer = Null)
   /\ (forall ch sr bits,
          16 <= size ->
          getUint16 arrayBuffer (offset v + 8) = Normal 1 ->
          getUint16 arrayBuffer (offset v + 8 + 2) = Normal ch ->
          getUint32 arrayBuffer (offset v + 8 + 4) = Normal sr ->
          getUint16 arrayBuffer (offset v + 8 + 14) = Normal bits ->
          bits <> 8 -> bits <> 16 ->
          parseWavFile arrayBuffer = Null))
  /\ (chunkHeader arrayBuffer (offset v) = Normal ("data"%string, size) ->
      foundFmt v = false ->
      parseWavFile arrayBuffer = Null).
Proof.
  intros Hsig Hreach Hlen.
  pose proof (reaches_offset _ _ Hreach) as H12.
  assert (Hturn := scanChunks_turn arrayBuffer v Hreach ltac:(lia)).
  unfold parseWavFile. rewrite Hsig, Hturn. clear Hturn.
  unfold loopBody.
  replace (offset v + 8 >? byteLength arrayBuffer) with false
    by (symmetry; rewrite Z.gtb_ltb; apply Z.ltb_ge; lia).
  split.
  - intros Hh. apply chunkHeader_reads in Hh as [Htag Hsize].
    rewrite Htag, Hsize. cbn [reading].
    change (String.eqb "fmt " "fmt ") with true. cbv iota.
    split; [|split].
    + intros Hsmall.
      replace (size <? 16) with true by (symmetry; apply Z.ltb_lt; lia).
      reflexivity.
    + intros audioFormat Hbig Hfmt Hne.
      replace (size <? 16) with false by (symmetry; apply Z.ltb_ge; lia).
      rewrite Hfmt. cbn [reading].
      replace (audioFormat =? 1) with false by (symmetry; apply Z.eqb_neq; lia).
      reflexivity.
    + intros ch sr bits Hbig Hfmt Hch Hsr Hbits H8 H16.
      replace (size <? 16) with false by (symmetry; apply Z.ltb_ge; lia).
      rewrite Hfmt. cbn [reading]. change (1 =? 1) with true. cbn [negb].
      rewrite Hch, Hsr, Hbits. cbn [reading].
      replace (bits =? 8) with false by (symmetry; apply Z.eqb_neq; lia).
      replace (bits =? 16) with false by (symmetry; apply Z.eqb_neq; lia).
      reflexivity.
  - intros Hh Hnofmt. apply chunkHeader_reads in Hh as [Htag Hsize].
    rewrite Htag, Hsize. cbn [reading].
    change (String.eqb "data" "fmt ") with false.
    change (String.eqb "data" "data") with true. cbv iota.
    rewrite Hnofmt. reflexivity.
Qed.

Lemma malformed_chunks_rejected_witness :
  parseWavFile shortFmtWav = Null /\ parseWavFile dataFirstWav = Null.
Proof.
  split.
  - destruct (malformed_chunks_rejected shortFmtWav initVars 8) as [Hfmt _];
      [vm_compute; reflexivity | constructor | vm_compute; discriminate |].
    destruct Hfmt as (Hsmall & _); [vm_compute; reflexivity|].
    apply Hsmall. lia.
  - destruct (malformed_chunks_rejected dataFirstWav
                (mkVars 22 0 0 0 (-1) 0 false) 2) as [_ Hdata];
      [vm_compute; reflexivity
      | apply (reaches_next dataFirstWav initVars);
          [constructor | vm_compute; reflexivity | vm_compute; reflexivity]
      | vm_compute; discriminate |].
    apply Hdata; vm_compute; reflexivity.
Defined.

(** *** What the loop variables hold once a format chunk was accepted *)

Lemma getUint16_range (b : ArrayBuffer) (i n : Z) :
  getUint16 b i = Normal n -> 0 <= n < 65536.
Proof.
  unfold getUint16. destruct (inView b i 2); [|discriminate].
  intros H; apply Normal_inj in H; subst n.
  pose proof (byteAt_range b i). pose proof (byteAt_range b (i + 1)). lia.
Qed.

Lemma getUint32_range (b : ArrayBuffer) (i n : Z) :
  getUint32 b i = Normal n -> 0 <= n < 4294967296.
Proof.
  unfold getUint32. destruct (inView b i 4); [|discriminate].
  intros H; apply Normal_inj in H; subst n.
  pose proof (byteAt_range b i). pose proof (byteAt_range b (i + 1)).
  pose proof (byteAt_range b (i + 2)). pose proof (byteAt_range b (i + 3)).
  lia.
Qed.

Lemma loopBody_fmtAccepted (view : ArrayBuffer) (v : vars) :
  fmtAccepted v ->
  match loopBody view v with
  | Continue v' | Break v' => fmtAccepted v'
  | _ => True
  end.
Proof.
  unfold loopBody, fmtAccepted. intros Inv.
  destruct (offset v + 8 >? byteLength view); [exact Inv|].
  destruct (getStringFromDataView view (offset v) 4) as [chunkId|];
    cbn [reading]; [|exact I].
  destruct (getUint32 view (offset v + 4)) as [chunkSize|]; cbn [reading]; [|exact I].
  destruct (String.eqb chunkId "fmt ").
  - destruct (chunkSize <? 16); [exact I|].
    destruct (getUint16 view (offset v + 8)) as [audioFormat|]; cbn [reading]; [|exact I].
    destruct (negb (audioFormat =? 1)); [exact I|].
    destruct (getUint16 view (offset v + 8 + 2)) as [ch|] eqn:Hch;
      cbn [reading]; [|exact I].
    destruct (getUint32 view (offset v + 8 + 4)) as [sr|] eqn:Hsr;
      cbn [reading]; [|exact I].
    destruct (getUint16 view (offset v + 8 + 14)) as [bits|]; cbn [reading]; [|exact I].
    destruct (bits =? 8) eqn:E8; cbn [negb andb].
    + intros _. apply Z.eqb_eq in E8.
      unfold skipChunk. cbn.
      pose proof (getUint16_range _ _ _ Hch). pose proof (getUint32_range _ _ _ Hsr).
      repeat split; lia.
    + destruct (bits =? 16) eqn:E16; cbn [negb]; [|exact I].
      intros _. apply Z.eqb_eq in E16.
      unfold skipChunk. cbn.
      pose proof (getUint16_range _ _ _ Hch). pose proof (getUint32_range _ _ _ Hsr).
      repeat split; lia.
  - destruct (String.eqb chunkId "data").
    + destruct (negb (foundFmt v)); [exact I|]. cbn. exact Inv.
    + unfold skipChunk. cbn. exact Inv.
Qed.

Lemma scanLoop_fmtAccepted (view : ArrayBuffer) (fuel : nat) :
  forall v0 v, scanLoop fuel view v0 = Exited v -> fmtAccepted v0 -> fmtAccepted v.
Proof.
  induction fuel as [|fuel IH]; intros v0 v Hrun Inv; cbn [scanLoop] in Hrun.
  - destruct (offset v0 <? byteLength view); [discriminate|].
    assert (v0 = v) by congruence. now subst v.
  - destruct (offset v0 <? byteLength view);
      [|assert (v0 = v) by congruence; now subst v].
    pose proof (loopBody_fmtAccepted view v0 Inv) as Hstep.
    destruct (loopBody view v0) as [v'|v'| |]; try discriminate.
    + exact (IH v' v Hrun Hstep).
    + assert (v' = v) by congruence. now subst v.
Qed.

Lemma toInt16_range (z : Z) : isInt16 (toInt16 z).
Proof.
  unfold isInt16, toInt16.
  pose proof (Z.mod_pos_bound (z + 2 ^ 15) (2 ^ 16) ltac:(lia)). lia.
Qed.

Lemma convert8_range (x : Z) : 0 <= x <= 255 -> isInt16 (convert8 x).
Proof. intros H. rewrite convert8_scaled by exact H. unfold isInt16. lia. Qed.

Lemma first_guard_false (v : vars) :
  foundBoth v ->
  negb (foundFmt v) || (dataChunkOffset v =? -1) || (dataChunkSize v =? 0) = false.
Proof.
  intros (Hf & Ho & Hs). rewrite Hf. cbn [negb orb].
  apply orb_false_iff. split; apply Z.eqb_neq; assumption.
Qed.

(** What the part of the decoder after the loop returns for 16-bit data. *)
Lemma buildRecord_16 (view : ArrayBuffer) (v : vars) :
  foundBoth v -> v_bits v = 16 -> 0 <= dataChunkSize v ->
  dataChunkOffset v mod 2 = 0 ->
  buildRecord view v
  = if dataChunkOffset v + dataChunkSize v / 2 * 2 >? byteLength view
    then Exception RangeError
    else Record_ (mkWavData (v_channels v) (v_sampleRate v)
                            (map (sampleOfPayload view 16 (dataChunkOffset v))
                                 (indices (dataChunkSize v / 2)))
                            16).
Proof.
  intros Hboth H16 Hsize Heven. unfold buildRecord.
  rewrite (first_guard_false v Hboth), H16.
  change (Qeq_bool (inject_Z 16 / 8) 0) with false. change (16 =? 16) with true.
  cbv iota. unfold Int16Array_on, toIndex.
  rewrite Heven. change (negb (0 =? 0)) with false. cbv iota.
  rewrite numSamples_16 by exact Hsize.
  assert (0 <= dataChunkSize v / 2) by (apply Z.div_pos; lia).
  replace (dataChunkSize v / 2 <? 0) with false by (symmetry; apply Z.ltb_ge; lia).
  cbn [bind].
  destruct (_ >? _); reflexivity.
Qed.

(** The same for 8-bit data. *)
Lemma buildRecord_8 (view : ArrayBuffer) (v : vars) :
  foundBoth v -> v_bits v = 8 -> 0 <= dataChunkSize v ->
  buildRecord view v
  = if dataChunkOffset v + dataChunkSize v >? byteLength view
    then Exception RangeError
    else Record_ (mkWavData (v_channels v) (v_sampleRate v)
                            (map (sampleOfPayload view 8 (dataChunkOffset v))
                                 (indices (dataChunkSize v)))
                            8).
Proof.
  intros Hboth H8 Hsize. unfold buildRecord.
  rewrite (first_guard_false v Hboth), H8.
  change (Qeq_bool (inject_Z 8 / 8) 0) with false. change (8 =? 16) with false.
  change (8 =? 8) with true. cbv iota.
  unfold Uint8Array_on, toIndex. rewrite numSamples_8 by exact Hsize.
  replace (dataChunkSize v <? 0) with false by (symmetry; apply Z.ltb_ge; lia).
  cbn [bind].
  destruct (_ >? _); [reflexivity|]. cbn [bind ofCompletion].
  do 2 f_equal. rewrite map_map. apply map_ext. intros k.
  unfold sampleOfPayload. change (8 =? 16) with false. cbv iota.
  apply convert8_scaled. apply byteAt_range.
Qed.

(** What a successful scan guarantees about the variables it leaves. *)
Lemma scanChunks_facts (view : ArrayBuffer) (v : vars) :
  scanChunks view = Exited v ->
  fmtAccepted v
  /\ 0 <= dataChunkSize v
  /\ (dataChunkOffset v <> -1 ->
      dataChunkOffset v mod 2 = 0 /\ 20 <= dataChunkOffset v <= byteLength view).
Proof.
  intros Hscan. unfold scanChunks in Hscan. split; [|split].
  - apply (scanLoop_fmtAccepted view _ _ _ Hscan). intros H. discriminate H.
  - apply (scanLoop_dataSize_nonneg view _ _ _ Hscan). cbn. lia.
  - intros Hsome. split.
    + apply (scanLoop_data_even view _ _ _ Hscan); [reflexivity | reflexivity | exact Hsome].
    + apply (scanLoop_data_offset view _ _ _ Hscan); [reflexivity | exact Hsome].
Qed.

(** X4.  Once the scan of a buffer with a valid signature has found a format
    chunk and a non-empty data chunk, the decoder returns a record exactly
    when the samples it takes (the declared size divided by the sample
    width, rounded down) lie inside the buffer, and raises a [RangeError]
    otherwise (a data chunk cut short).  The record then carries the channel
    count and sample rate of the format chunk and, sample by sample, the
    little-endian 16-bit values of the payload, or its bytes less 128 times
    256. *)
Theorem decode_after_scan (arrayBuffer : ArrayBuffer) (v : vars) :
  signatureOk arrayBuffer = Normal true ->
  scanChunks arrayBuffer = Exited v ->
  foundBoth v ->
  let width := v_bits v / 8 in
  let count := dataChunkSize v / width in
  (dataChunkOffset v + count * width <= byteLength arrayBuffer ->
   parseWavFile arrayBuffer
   = Record_ (mkWavData (v_channels v) (v_sampleRate v)
                        (map (sampleOfPayload arrayBuffer (v_bits v) (dataChunkOffset v))
                             (indices count))
                        (v_bits v)))
  /\ (byteLength arrayBuffer < dataChunkOffset v + count * width ->
      parseWavFile arrayBuffer = Exception RangeError).
Proof.
  intros Hsig Hscan Hboth width count.
  destruct (scanChunks_facts _ _ Hscan) as (Hfmt & Hsize & Hdata).
  destruct Hboth as (Hf & Ho & Hs).
  destruct (Hfmt Hf) as ([H8|H16] & _).
  - assert (Hw : width = 1) by (unfold width; now rewrite H8).
    assert (Hc : count = dataChunkSize v) by (unfold count; rewrite Hw; apply Z.div_1_r).
    unfold parseWavFile. rewrite Hsig, Hscan.
    rewrite buildRecord_8 by (unfold foundBoth; auto).
    rewrite Hc, Hw, H8, Z.mul_1_r. split; intros Hfit.
    + replace (_ >? _) with false
        by (symmetry; rewrite Z.gtb_ltb; apply Z.ltb_ge; lia).
      reflexivity.
    + replace (_ >? _) with true
        by (symmetry; rewrite Z.gtb_ltb; apply Z.ltb_lt; lia).
      reflexivity.
  - assert (Hw : width = 2) by (unfold width; now rewrite H16).
    assert (Hc : count = dataChunkSize v / 2) by (unfold count; now rewrite Hw).
    destruct (Hdata Ho) as [Heven _].
    unfold parseWavFile. rewrite Hsig, Hscan.
    rewrite buildRecord_16 by (unfold foundBoth; auto).
    rewrite Hc, Hw, H16. split; intros Hfit.
    + replace (_ >? _) with false
        by (symmetry; rewrite Z.gtb_ltb; apply Z.ltb_ge; lia).
      reflexivity.
    + replace (_ >? _) with true
        by (symmetry; rewrite Z.gtb_ltb; apply Z.ltb_lt; lia).
      reflexivity.
Qed.

Lemma decode_after_scan_witness :
  parseWavFile listThenData = Record_ (mkWavData 2 48000 [1; 2] 16)
  /\ parseWavFile (riffHeader ++ fmtChunk 1 8000 8 ++ dataChunk 5 [x80; x81])
     = Exception RangeError.
Proof.
  split.
  - apply (decode_after_scan listThenData (mkVars 56 2 48000 16 56 4 true));
      [vm_compute; reflexivity | vm_compute; reflexivity
      | repeat split; cbn; discriminate | vm_compute; discriminate].
  - apply (decode_after_scan (riffHeader ++ fmtChunk 1 8000 8 ++ dataChunk 5 [x80; x81])
             (mkVars 44 1 8000 8 44 5 true));
      [vm_compute; reflexivity | vm_compute; reflexivity
      | repeat split; cbn; discriminate | vm_compute; reflexivity].
Defined.

Lemma buildRecord_foundBoth (view : ArrayBuffer) (v : vars) (w : WavData) :
  buildRecord view v = Record_ w -> foundBoth v.
Proof.
  unfold buildRecord, foundBoth. intros H.
  destruct (negb (foundFmt v) || (dataChunkOffset v =? -1) || (dataChunkSize v =? 0))
    eqn:G; [discriminate|].
  apply orb_false_iff in G as [G Hs]. apply orb_false_iff in G as [Hf Ho].
  apply negb_false_iff in Hf. apply Z.eqb_neq in Ho. apply Z.eqb_neq in Hs. auto.
Qed.

Lemma parseWavFile_Record (arrayBuffer : ArrayBuffer) (w : WavData) :
  parseWavFile arrayBuffer = Record_ w ->
  exists v,
    signatureOk arrayBuffer = Normal true
    /\ scanChunks arrayBuffer = Exited v
    /\ buildRecord arrayBuffer v = Record_ w.
Proof.
  unfold parseWavFile. intros H.
  destruct (signatureOk arrayBuffer) as [[|]|]; try discriminate.
  destruct (scanChunks arrayBuffer) as [v| | |]; try discriminate.
  now exists v.
Qed.

Lemma Forall_map_indices (P : Z -> Prop) (f : Z -> Z) (n : Z) :
  (forall k, P (f k)) -> Forall P (map f (indices n)).
Proof. intros H. apply Forall_forall. intros x Hx. apply in_map_iff in Hx as (k & <- & _). apply H. Qed.

(** X5.  Every record the decoder returns is well formed in this sense: its
    bit depth is 8 or 16, its channel count fits 16 bits and its sample rate
    32 bits (neither is checked to be positive), every sample is a signed
    16-bit value, and the samples it holds, at the sample width, lie in the
    buffer behind the 20 bytes of the signature and one chunk header. *)
Theorem record_well_formed (arrayBuffer : ArrayBuffer) (w : WavData) :
  parseWavFile arrayBuffer = Record_ w ->
  (bitsPerSampleOriginal w = 8 \/ bitsPerSampleOriginal w = 16)
  /\ 0 <= channels w < 65536
  /\ 0 <= sampleRate w < 4294967296
  /\ Forall isInt16 (samples w)
  /\ 20 + Z.of_nat (List.length (samples w)) * (bitsPerSampleOriginal w / 8)
     <= byteLength arrayBuffer.
Proof.
  intros Hparse.
  destruct (parseWavFile_Record _ _ Hparse) as (v & _ & Hscan & Hbuild).
  pose proof (buildRecord_foundBoth _ _ _ Hbuild) as Hboth.
  destruct (scanChunks_facts _ _ Hscan) as (Hfmt & Hsize & Hdata).
  destruct Hboth as (Hf & Ho & Hs).
  destruct (Hfmt Hf) as ([H8|H16] & Hch & Hsr).
  - rewrite buildRecord_8 in Hbuild by (unfold foundBoth; auto).
    destruct (_ >? _) eqn:Hfit; [discriminate|].
    rewrite Z.gtb_ltb in Hfit. apply Z.ltb_ge in Hfit.
    apply (f_equal (fun r => match r with Record_ x => x | _ => w end)) in Hbuild.
    subst w. cbn [bitsPerSampleOriginal channels sampleRate samples].
    destruct (Hdata Ho) as [_ Hrange].
    repeat split; try lia.
    + apply Forall_map_indices. intros k. unfold sampleOfPayload.
      change (8 =? 16) with false. cbv iota.
      rewrite <- convert8_scaled by apply byteAt_range.
      apply convert8_range, byteAt_range.
    + rewrite length_map, indices_length by lia. change (8 / 8) with 1. lia.
  - destruct (Hdata Ho) as [Heven Hrange].
    rewrite buildRecord_16 in Hbuild by (unfold foundBoth; auto).
    destruct (_ >? _) eqn:Hfit; [discriminate|].
    rewrite Z.gtb_ltb in Hfit. apply Z.ltb_ge in Hfit.
    apply (f_equal (fun r => match r with Record_ x => x | _ => w end)) in Hbuild.
    subst w. cbn [bitsPerSampleOriginal channels sampleRate samples].
    assert (0 <= dataChunkSize v / 2) by (apply Z.div_pos; lia).
    repeat split; try lia.
    + apply Forall_map_indices. intros k. unfold sampleOfPayload.
      change (16 =? 16) with true. cbv iota. apply toInt16_range.
    + rewrite length_map, indices_length by lia. change (16 / 8) with 2. lia.
Qed.

Lemma record_well_formed_witness :
  (16 = 8 \/ 16 = 16)
  /\ 0 <= 2 < 65536
  /\ 0 <= 48000 < 4294967296
  /\ Forall isInt16 [1; 2]
  /\ 20 + Z.of_nat (List.length [1; 2]) * (16 / 8) <= byteLength listThenData.
Proof.
  apply (record_well_formed listThenData (mkWavData 2 48000 [1; 2] 16)).
  vm_compute. reflexivity.
Defined.

(** X6.  The decoder comes to an end on every buffer: each turn of the chunk
    loop moves the offset forward by at least 8 bytes, so the loop takes no
    more turns than the buffer has bytes, and the decoder returns a record,
    returns [null] or raises. *)
Theorem decoder_always_ends (arrayBuffer : ArrayBuffer) :
  (forall v v', loopBody arrayBuffer v = Continue v' -> offset v + 8 <= offset v')
  /\ scanChunks arrayBuffer <> OutOfFuel
  /\ ((exists w, parseWavFile arrayBuffer = Record_ w)
      \/ parseWavFile arrayBuffer = Null
      \/ exists e, parseWavFile arrayBuffer = Exception e).
Proof.
  split; [|split].
  - intros v v' H.
    destruct (loopBody_Continue _ _ _ H) as (_ & cs & _ & _ & Hnn & _ & Hoff & _).
    pose proof (Z.mod_pos_bound cs 2 ltac:(lia)). lia.
  - apply scanChunks_terminates.
  - pose proof (parseWavFile_terminates arrayBuffer) as Hne.
    destruct (parseWavFile arrayBuffer) as [w| |e|]; eauto. now elim Hne.
Qed.

(** *** Decoding a file with the canonical header *)

Lemma canonicalWav_spelled (ch sr bits : Z) (payload : list byte) :
  canonicalWav ch sr bits payload
  = canonicalHeader ch sr bits (Z.of_nat (List.length payload)) ++ payload.
Proof. reflexivity. Qed.

Lemma byteOfZ_value (z : Z) : 0 <= z < 256 -> Z.of_N (Byte.to_N (byteOfZ z)) = z.
Proof.
  intros Hz. unfold byteOfZ.
  destruct (Byte.of_N (Z.to_N z)) as [b|] eqn:E.
  - apply Byte.to_of_N in E. rewrite E. lia.
  - apply Byte.of_N_None_iff in E. lia.
Qed.

Lemma leByte_value (x k : Z) :
  Z.of_N (Byte.to_N (leByte x k)) = (x / 256 ^ k) mod 256.
Proof.
  unfold leByte. apply byteOfZ_value. apply Z.mod_pos_bound. lia.
Qed.

Lemma le16_value (x : Z) :
  0 <= x < 65536 -> (x / 256 ^ 0) mod 256 + 256 * ((x / 256 ^ 1) mod 256) = x.
Proof.
  intros Hx. change (256 ^ 0) with 1. change (256 ^ 1) with 256.
  rewrite Z.div_1_r.
  assert (0 <= x / 256 < 256)
    by (split; [apply Z.div_pos; lia | apply Z.div_lt_upper_bound; lia]).
  rewrite (Z.mod_small (x / 256)) by lia.
  pose proof (Z.div_mod x 256 ltac:(lia)). lia.
Qed.

Lemma le32_value (x : Z) :
  0 <= x < 4294967296 ->
  (x / 256 ^ 0) mod 256 + 256 * ((x / 256 ^ 1) mod 256)
  + 65536 * ((x / 256 ^ 2) mod 256) + 16777216 * ((x / 256 ^ 3) mod 256) = x.
Proof.
  intros Hx. change (256 ^ 0) with 1. change (256 ^ 1) with 256.
  change (256 ^ 2) with (256 * 256). change (256 ^ 3) with (256 * 256 * 256).
  rewrite Z.div_1_r.
  rewrite <- !Z.div_div by lia.
  set (a := x / 256). set (b := a / 256). set (c := b / 256).
  assert (0 <= c < 256).
  { unfold c, b, a. split.
    - repeat apply Z.div_pos; lia.
    - repeat (apply Z.div_lt_upper_bound; [lia|]). lia. }
  rewrite (Z.mod_small c) by lia.
  pose proof (Z.div_mod x 256 ltac:(lia)).
  pose proof (Z.div_mod a 256 ltac:(lia)).
  pose proof (Z.div_mod b 256 ltac:(lia)).
  fold a in H0. fold b in H1. fold c in H2. lia.
Qed.

Lemma byteLength_app (a b : ArrayBuffer) :
  byteLength (a ++ b) = byteLength a + byteLength b.
Proof. unfold byteLength. rewrite length_app. lia. Qed.

Lemma byteAt_app_l (a b : ArrayBuffer) (i : nat) :
  (i < List.length a)%nat -> byteAt (a ++ b) (Z.of_nat i) = Z.of_N (Byte.to_N (nth i a x00)).
Proof.
  intros Hi. unfold byteAt. rewrite Nat2Z.id. now rewrite app_nth1.
Qed.

Lemma byteAt_app_r (a b : ArrayBuffer) (i : Z) :
  0 <= i -> byteAt (a ++ b) (Z.of_nat (List.length a) + i) = byteAt b i.
Proof.
  intros Hi. unfold byteAt.
  replace (Z.to_nat (Z.of_nat (List.length a) + i))
    with (List.length a + Z.to_nat i)%nat by lia.
  now rewrite app_nth2_plus.
Qed.

Section CanonicalReads.

Variables (ch sr bits : Z) (payload : list byte).
Let n := Z.of_nat (List.length payload).
Let view := canonicalHeader ch sr bits n ++ payload.

Lemma canonical_length : byteLength view = 44 + n.
Proof. unfold view. rewrite byteLength_app. reflexivity. Qed.

Lemma canonical_byte (i : Z) :
  0 <= i < 44 ->
  byteAt view i
  = Z.of_N (Byte.to_N (nth (Z.to_nat i) (canonicalHeader ch sr bits n) x00)).
Proof.
  intros Hi. unfold view.
  rewrite <- (Z2Nat.id i) at 1 by lia.
  apply byteAt_app_l. cbn [List.length canonicalHeader]. lia.
Qed.

Lemma canonical_u16 (i x : Z) :
  0 <= i -> i + 2 <= 44 -> 0 <= x < 65536 ->
  nth (Z.to_nat i) (canonicalHeader ch sr bits n) x00 = leByte x 0 ->
  nth (Z.to_nat (i + 1)) (canonicalHeader ch sr bits n) x00 = leByte x 1 ->
  getUint16 view i = Normal x.
Proof.
  intros Hi0 Hi Hx H0 H1. unfold getUint16.
  rewrite inView_true by (rewrite ?canonical_length; unfold n; lia).
  rewrite !canonical_byte by lia. rewrite H0, H1, !leByte_value.
  now rewrite le16_value.
Qed.

Lemma canonical_u32 (i x : Z) :
  0 <= i -> i + 4 <= 44 -> 0 <= x < 4294967296 ->
  nth (Z.to_nat i) (canonicalHeader ch sr bits n) x00 = leByte x 0 ->
  nth (Z.to_nat (i + 1)) (canonicalHeader ch sr bits n) x00 = leByte x 1 ->
  nth (Z.to_nat (i + 2)) (canonicalHeader ch sr bits n) x00 = leByte x 2 ->
  nth (Z.to_nat (i + 3)) (canonicalHeader ch sr bits n) x00 = leByte x 3 ->
  getUint32 view i = Normal x.
Proof.
  intros Hi0 Hi Hx H0 H1 H2 H3. unfold getUint32.
  rewrite inView_true by (rewrite ?canonical_length; unfold n; lia).
  rewrite !canonical_byte by lia. rewrite H0, H1, H2, H3, !leByte_value.
  now rewrite le32_value.
Qed.

Lemma canonical_tag (i : Z) (a b c d : byte) :
  0 <= i -> i + 4 <= 44 ->
  nth (Z.to_nat i) (canonicalHeader ch sr bits n) x00 = a ->
  nth (Z.to_nat (i + 1)) (canonicalHeader ch sr bits n) x00 = b ->
  nth (Z.to_nat (i + 1 + 1)) (canonicalHeader ch sr bits n) x00 = c ->
  nth (Z.to_nat (i + 1 + 1 + 1)) (canonicalHeader ch sr bits n) x00 = d ->
  getStringFromDataView view i 4
  = Normal (String (ascii_of_N (Byte.to_N a)) (String (ascii_of_N (Byte.to_N b))
              (String (ascii_of_N (Byte.to_N c))
                 (String (ascii_of_N (Byte.to_N d)) EmptyString)))).
Proof.
  intros Hi0 Hi Ha Hb Hc Hd. cbn [getStringFromDataView]. unfold getUint8.
  rewrite !inView_true by (rewrite ?canonical_length; unfold n; lia).
  cbn [bind].
  rewrite !canonical_byte by lia. rewrite Ha, Hb, Hc, Hd.
  rewrite !N2Z.id. reflexivity.
Qed.

End CanonicalReads.

Lemma signatureOk_canonical (ch sr bits : Z) (payload : list byte) :
  signatureOk (canonicalWav ch sr bits payload) = Normal true.
Proof.
  rewrite canonicalWav_spelled. unfold signatureOk.
  rewrite (canonical_tag ch sr bits payload 0 x52 x49 x46 x46)
    by (reflexivity || lia).
  cbn [bind]. change (negb (String.eqb _ "RIFF")) with false. cbv iota.
  rewrite (canonical_tag ch sr bits payload 8 x57 x41 x56 x45)
    by (reflexivity || lia).
  reflexivity.
Qed.

Lemma scanChunks_canonical (ch sr bits : Z) (payload : list byte) :
  0 <= ch < 65536 -> 0 <= sr < 4294967296 -> bits = 8 \/ bits = 16 ->
  Z.of_nat (List.length payload) < 4294967296 ->
  scanChunks (canonicalWav ch sr bits payload)
  = Exited (mkVars 44 ch sr bits 44 (Z.of_nat (List.length payload)) true).
Proof.
  intros Hch Hsr Hbits Hn.
  rewrite canonicalWav_spelled.
  set (n := Z.of_nat (List.length payload)).
  set (view := canonicalHeader ch sr bits n ++ payload).
  assert (Hlen : byteLength view = 44 + n) by apply canonical_length.
  assert (Hturn1 : loopBody view initVars
                   = Continue (mkVars 36 ch sr bits (-1) 0 true)).
  { unfold loopBody. cbn [offset initVars]. cbv zeta.
    replace (12 + 8 >? byteLength view) with false
      by (symmetry; rewrite Z.gtb_ltb; apply Z.ltb_ge; unfold n in *; lia).
    unfold view, n.
    rewrite (canonical_tag ch sr bits payload 12 x66 x6d x74 x20)
      by (reflexivity || lia).
    cbn [reading].
    rewrite (canonical_u32 ch sr bits payload (12 + 4) 16) by (reflexivity || lia).
    cbn [reading]. change (String.eqb _ "fmt ") with true. cbv iota.
    change (16 <? 16) with false. cbv iota.
    rewrite (canonical_u16 ch sr bits payload (12 + 8) 1) by (reflexivity || lia).
    cbn [reading]. change (negb (1 =? 1)) with false. cbv iota.
    rewrite (canonical_u16 ch sr bits payload (12 + 8 + 2) ch) by (reflexivity || lia).
    cbn [reading].
    rewrite (canonical_u32 ch sr bits payload (12 + 8 + 4) sr) by (reflexivity || lia).
    cbn [reading].
    rewrite (canonical_u16 ch sr bits payload (12 + 8 + 14) bits)
      by (reflexivity || lia).
    cbn [reading].
    destruct Hbits as [-> | ->]; reflexivity. }
  assert (Hturn2 : loopBody view (mkVars 36 ch sr bits (-1) 0 true)
                   = Break (mkVars 44 ch sr bits 44 n true)).
  { unfold loopBody. cbn [offset]. cbv zeta.
    replace (36 + 8 >? byteLength view) with false
      by (symmetry; rewrite Z.gtb_ltb; apply Z.ltb_ge; unfold n in *; lia).
    unfold view, n.
    rewrite (canonical_tag ch sr bits payload 36 x64 x61 x74 x61)
      by (reflexivity || lia).
    cbn [reading].
    rewrite (canonical_u32 ch sr bits payload (36 + 4) (Z.of_nat (List.length payload)))
      by (reflexivity || lia).
    cbn [reading]. reflexivity. }
  unfold scanChunks.
  assert (Hfuel : (2 <= List.length view)%nat)
    by (unfold byteLength in Hlen; unfold n in Hlen; lia).
  replace (List.length view) with (2 + (List.length view - 2))%nat by lia.
  assert (Hrun : scanLoop 2 view initVars = Exited (mkVars 44 ch sr bits 44 n true)).
  { cbn [scanLoop]. cbn [offset initVars].
    replace (12 <? byteLength view) with true
      by (symmetry; apply Z.ltb_lt; unfold n in *; lia).
    rewrite Hturn1. cbn [offset].
    replace (36 <? byteLength view) with true
      by (symmetry; apply Z.ltb_lt; unfold n in *; lia).
    now rewrite Hturn2. }
  rewrite scanLoop_more_fuel; [exact Hrun | congruence].
Qed.

(** *** Sample payloads *)

Lemma s16le_cons (s : Z) (rest : list byte) :
  s16le s ++ rest = leByte (s mod 65536) 0 :: leByte (s mod 65536) 1 :: rest.
Proof. reflexivity. Qed.

Lemma payload16_length (samples : list Z) :
  List.length (flat_map s16le samples) = (2 * List.length samples)%nat.
Proof.
  induction samples as [|s samples IH]; [reflexivity|].
  cbn [flat_map]. rewrite s16le_cons. cbn [List.length]. lia.
Qed.

Lemma toInt16_of_le (s : Z) : isInt16 s -> toInt16 (s mod 65536) = s.
Proof.
  unfold isInt16, toInt16. intros Hs.
  change (2 ^ 16) with 65536. change (2 ^ 15) with 32768.
  rewrite Zplus_mod_idemp_l. rewrite Z.mod_small by lia. lia.
Qed.

Lemma int16At_payload (samples : list Z) :
  forall (pre : list byte) (k : nat),
    Forall isInt16 samples -> (k < List.length samples)%nat ->
    int16At (pre ++ flat_map s16le samples)
            (Z.of_nat (List.length pre) + 2 * Z.of_nat k)
    = nth k samples 0.
Proof.
  induction samples as [|s samples IH]; intros pre k Hall Hk; [cbn in Hk; lia|].
  inversion Hall as [|? ? Hs Hrest]; subst.
  destruct k as [|k].
  - cbn [flat_map nth]. unfold int16At.
    replace (Z.of_nat (List.length pre) + 2 * Z.of_nat 0 + 1)
      with (Z.of_nat (List.length pre) + 1) by lia.
    replace (Z.of_nat (List.length pre) + 2 * Z.of_nat 0)
      with (Z.of_nat (List.length pre) + 0) by lia.
    rewrite !byteAt_app_r by lia. rewrite s16le_cons.
    unfold byteAt. change (Z.to_nat 0) with O. change (Z.to_nat 1) with 1%nat.
    cbn [nth]. rewrite !leByte_value.
    rewrite le16_value by (apply Z.mod_pos_bound; lia).
    now apply toInt16_of_le.
  - cbn [flat_map nth]. rewrite app_assoc.
    replace (Z.of_nat (List.length pre) + 2 * Z.of_nat (S k))
      with (Z.of_nat (List.length (pre ++ s16le s)) + 2 * Z.of_nat k)
      by (rewrite length_app; change (List.length (s16le s)) with 2%nat; lia).
    apply IH; [exact Hrest | cbn in Hk; lia].
Qed.

Lemma byteAt_payload8 (bytes : list Z) (pre : list byte) (k : nat) :
  Forall (fun x => 0 <= x <= 255) bytes -> (k < List.length bytes)%nat ->
  byteAt (pre ++ map byteOfZ bytes) (Z.of_nat (List.length pre) + Z.of_nat k)
  = nth k bytes 0.
Proof.
  intros Hall Hk. rewrite byteAt_app_r by lia. unfold byteAt. rewrite Nat2Z.id.
  rewrite (nth_indep _ x00 (byteOfZ 0)) by (rewrite length_map; lia).
  rewrite (map_nth byteOfZ bytes 0 k).
  apply byteOfZ_value.
  rewrite Forall_forall in Hall.
  specialize (Hall (nth k bytes 0) (nth_In _ _ Hk)). lia.
Qed.

Lemma map_indices_nth (f : Z -> Z) (l : list Z) :
  (forall k, (k < List.length l)%nat -> f (Z.of_nat k) = nth k l 0) ->
  map f (indices (Z.of_nat (List.length l))) = l.
Proof.
  unfold indices. rewrite Nat2Z.id. rewrite map_map.
  revert f. induction l as [|x l IH]; intros f Hf; [reflexivity|].
  cbn [List.length seq map]. f_equal.
  - exact (Hf O ltac:(cbn; lia)).
  - rewrite <- seq_shift, map_map.
    rewrite <- (IH (fun z => f (z + 1))) at 2.
    + apply map_ext. intros k. f_equal. lia.
    + intros k Hk. replace (Z.of_nat k + 1) with (Z.of_nat (S k)) by lia.
      apply (Hf (S k)). cbn. lia.
Qed.

(** X7.  Decoding inverts the canonical 16-bit encoding: a file made of the
    44-byte header (any channel count that fits 16 bits, any sample rate
    that fits 32 bits) and a non-empty sequence of signed 16-bit samples
    written little-endian decodes to a record with that channel count, that
    sample rate and exactly those samples. *)
Theorem wav16_round_trip (ch sr : Z) (samples : list Z) :
  0 <= ch < 65536 -> 0 <= sr < 4294967296 ->
  samples <> [] -> Forall isInt16 samples ->
  2 * Z.of_nat (List.length samples) < 4294967296 ->
  parseWavFile (wav16 ch sr samples) = Record_ (mkWavData ch sr samples 16).
Proof.
  intros Hch Hsr Hne Hall Hn. unfold wav16.
  set (payload := flat_map s16le samples).
  assert (Hplen : Z.of_nat (List.length payload) = 2 * Z.of_nat (List.length samples))
    by (unfold payload; rewrite payload16_length; lia).
  unfold parseWavFile.
  rewrite signatureOk_canonical.
  rewrite scanChunks_canonical by (auto; lia).
  assert (Hpos : 0 < Z.of_nat (List.length samples))
    by (destruct samples; [congruence | cbn; lia]).
  rewrite buildRecord_16;
    [| unfold foundBoth; cbn; repeat split; (discriminate || lia)
     | reflexivity | cbn; lia | reflexivity].
  cbn [dataChunkOffset dataChunkSize v_channels v_sampleRate].
  rewrite Hplen. replace (2 * Z.of_nat (List.length samples) / 2)
    with (Z.of_nat (List.length samples)) by (rewrite Z.mul_comm, Z.div_mul; lia).
  rewrite canonicalWav_spelled, byteLength_app.
  change (byteLength (canonicalHeader ch sr 16 (Z.of_nat (List.length payload)))) with 44.
  replace (_ >? _) with false
    by (symmetry; rewrite Z.gtb_ltb; apply Z.ltb_ge; unfold byteLength; lia).
  do 2 f_equal. apply map_indices_nth. intros k Hk.
  unfold sampleOfPayload. change (16 =? 16) with true. cbv iota.
  change 44 with (Z.of_nat (List.length (canonicalHeader ch sr 16
                                            (Z.of_nat (List.length payload))))).
  unfold payload. now apply int16At_payload.
Qed.

Lemma wav16_round_trip_witness :
  parseWavFile (wav16 2 44100 [0; -1; 32767; -32768])
  = Record_ (mkWavData 2 44100 [0; -1; 32767; -32768] 16).
Proof.
  apply wav16_round_trip;
    [lia | lia | discriminate
    | repeat constructor; unfold isInt16; lia | cbn; lia].
Defined.

(** X8.  The same for 8-bit data: a file made of the 44-byte header and a
    non-empty sequence of unsigned bytes decodes to a record whose samples
    are those bytes, each less 128 and times 256, in order. *)
Theorem wav8_round_trip (ch sr : Z) (bytes : list Z) :
  0 <= ch < 65536 -> 0 <= sr < 4294967296 ->
  bytes <> [] -> Forall (fun x => 0 <= x <= 255) bytes ->
  Z.of_nat (List.length bytes) < 4294967296 ->
  parseWavFile (wav8 ch sr bytes)
  = Record_ (mkWavData ch sr (map (fun x => (x - 128) * 256) bytes) 8).
Proof.
  intros Hch Hsr Hne Hall Hn. unfold wav8.
  set (payload := map byteOfZ bytes).
  assert (Hplen : List.length payload = List.length bytes)
    by (unfold payload; apply length_map).
  unfold parseWavFile.
  rewrite signatureOk_canonical.
  rewrite scanChunks_canonical by (auto; lia).
  assert (Hpos : 0 < Z.of_nat (List.length bytes))
    by (destruct bytes; [congruence | cbn; lia]).
  rewrite buildRecord_8;
    [| unfold foundBoth; cbn; repeat split; (discriminate || lia)
     | reflexivity | cbn; lia].
  cbn [dataChunkOffset dataChunkSize v_channels v_sampleRate].
  rewrite canonicalWav_spelled, byteLength_app.
  change (byteLength (canonicalHeader ch sr 8 (Z.of_nat (List.length payload)))) with 44.
  replace (_ >? _) with false
    by (symmetry; rewrite Z.gtb_ltb; apply Z.ltb_ge; unfold byteLength; lia).
  do 2 f_equal.
  rewrite Hplen.
  rewrite <- (length_map (fun x => (x - 128) * 256) bytes).
  apply map_indices_nth. intros k Hk. rewrite length_map in Hk.
  unfold sampleOfPayload. change (8 =? 16) with false. cbv iota.
  match goal with
  | |- context [byteAt (?h ++ _) _] => change 44 with (Z.of_nat (List.length h))
  end.
  unfold payload. rewrite byteAt_payload8 by assumption.
  set (f := fun x : Z => (x - 128) * 256).
  change ((nth k bytes 0 - 128) * 256) with (f (nth k bytes 0)).
  rewrite (nth_indep (map f bytes) 0 (f 0)) by (rewrite length_map; exact Hk).
  now rewrite map_nth.
Qed.

Lemma wav8_round_trip_witness :
  parseWavFile (wav8 1 8000 [128; 0; 255])
  = Record_ (mkWavData 1 8000 (map (fun x => (x - 128) * 256) [128; 0; 255]) 8).
Proof.
  apply wav8_round_trip;
    [lia | lia | discriminate | repeat constructor; lia | cbn; lia].
Defined.

Lemma decoder_always_ends_witness : scanChunks emptyDataWav <> OutOfFuel.
Proof. exact (proj1 (proj2 (decoder_always_ends emptyDataWav))). Defined.

(* ------------------------------------------------------------------ *)
(** ** More on the encode loop *)

Lemma truncate_integer (z : Z) : truncate (z # 1) = z.
Proof.
  unfold truncate, Qle_bool, Qfloor, Qceiling, Qopp, Qfloor. cbn [Qnum Qden].
  rewrite !Z.div_1_r. destruct (0 * 1 <=? z * 1); lia.
Qed.

Lemma truncate_quotient (a : Z) (c : positive) :
  0 <= a -> truncate (a # c) = a / Z.pos c.
Proof.
  intros Ha. unfold truncate, Qle_bool, Qfloor. cbn [Qnum Qden].
  replace (0 * Z.pos c <=? a * 1) with true by (symmetry; apply Z.leb_le; lia).
  reflexivity.
Qed.

Lemma lessThan_finite (i n : Z) (c : positive) :
  lessThan i (Finite (n # c)) = (i * Z.pos c <? n).
Proof.
  unfold lessThan, Qle_bool, inject_Z. cbn [Qnum Qden].
  rewrite Z.mul_1_r. now rewrite Z.ltb_antisym.
Qed.

Lemma blockSize_finite (i n : Z) (c : positive) :
  blockSize (Finite (n # c)) i
  = if 1152 * Z.pos c <=? n - i * Z.pos c
    then inject_Z 1152
    else ((n - i * Z.pos c) # c).
Proof.
  unfold blockSize, LAME_SAMPLE_BLOCK_SIZE, Qle_bool, Qminus, Qplus, Qopp, inject_Z.
  cbn [Qnum Qden]. rewrite Pos.mul_1_r, !Z.mul_1_r.
  replace (n + - i * Z.pos c) with (n - i * Z.pos c) by lia.
  reflexivity.
Qed.

(** The number of frames of the block formed at [i]. *)
Lemma blockSize_frames (i n : Z) (c : positive) :
  i * Z.pos c < n ->
  truncate (blockSize (Finite (n # c)) i) = Z.min 1152 (n / Z.pos c - i).
Proof.
  intros Hlt. rewrite blockSize_finite.
  assert (Hq : (n - i * Z.pos c) / Z.pos c = n / Z.pos c - i).
  { replace (n - i * Z.pos c) with (n + (- i) * Z.pos c) by lia.
    rewrite Z.div_add by lia. lia. }
  destruct (1152 * Z.pos c <=? n - i * Z.pos c) eqn:E.
  - apply Z.leb_le in E.
    change (inject_Z 1152) with (1152 # 1). rewrite truncate_integer.
    assert (1152 <= (n - i * Z.pos c) / Z.pos c)
      by (apply Z.div_le_lower_bound; lia).
    lia.
  - apply Z.leb_gt in E. rewrite truncate_quotient by lia. rewrite Hq.
    assert ((n - i * Z.pos c) / Z.pos c < 1152)
      by (apply Z.div_lt_upper_bound; lia).
    lia.
Qed.

Lemma seq_from (b : nat) :
  forall a, map Z.of_nat (seq a b) = map (fun x => Z.of_nat a + Z.of_nat x) (seq 0 b).
Proof.
  induction b as [|b IH]; intros a; [reflexivity|].
  cbn [seq map]. f_equal; [lia|].
  rewrite (IH (S a)). rewrite <- (seq_shift b 0), map_map.
  apply map_ext. intros x. lia.
Qed.

Lemma indices_split (k m : Z) :
  0 <= k <= m -> indices m = indices k ++ map (Z.add k) (indices (m - k)).
Proof.
  intros H. unfold indices.
  replace (Z.to_nat m) with (Z.to_nat k + Z.to_nat (m - k))%nat by lia.
  rewrite seq_app, map_app. f_equal.
  cbn [Nat.add]. rewrite seq_from, map_map.
  apply map_ext. intros a. lia.
Qed.

Section ScheduleProofs.

Variable encoder : Type.
Variable encodeBuffer :
  encoder -> list Z -> option (list Z) -> completion (encoder * list byte).

(** The loop encodes the blocks of the schedule, in order, collecting the
    non-empty chunks, and ends at the first exception. *)
Lemma encodeLoop_feed (samples : list Z) (channels : Z) (total : number) (fuel : nat) :
  forall i enc mp3Data blocks,
    blockSchedule fuel samples channels total i = Some blocks ->
    encodeLoop encoder encodeBuffer fuel samples channels total i enc mp3Data
    = feed encoder encodeBuffer enc mp3Data blocks.
Proof.
  induction fuel as [|fuel IH]; intros i enc mp3Data blocks Hs;
    cbn [blockSchedule encodeLoop] in *.
  - destruct (lessThan i total); [discriminate|].
    assert (blocks = []) by congruence. subst blocks. reflexivity.
  - destruct (lessThan i total).
    + destruct (blocksAt samples channels i (blockSize total i)) as [[l r]|];
        [|discriminate].
      destruct (blockSchedule fuel samples channels total (i + LAME_SAMPLE_BLOCK_SIZE))
        as [rest|] eqn:Hrest; [|discriminate].
      assert (blocks = (l, r) :: rest) by congruence. subst blocks.
      cbn [feed]. destruct (encodeBuffer enc l r) as [[enc' mp3buf]|]; [|reflexivity].
      now apply IH.
    + assert (blocks = []) by congruence. subst blocks. reflexivity.
Qed.

End ScheduleProofs.

(** *** Mono input *)

Lemma mono_block (samples : list Z) (i : Z) :
  0 <= i < Z.of_nat (List.length samples) ->
  blocksAt samples 1 i (blockSize (Finite (Z.of_nat (List.length samples) # 1)) i)
  = Normal (firstn (Z.to_nat (Z.min 1152 (Z.of_nat (List.length samples) - i)))
                   (skipn (Z.to_nat i) samples),
            None).
Proof.
  intros Hi. set (n := Z.of_nat (List.length samples)) in *.
  unfold blocksAt. change (1 =? 1) with true. cbv iota.
  unfold subarray, clampIndex. fold n.
  change (inject_Z i) with (i # 1). rewrite truncate_integer.
  replace (i <? 0) with false by (symmetry; apply Z.ltb_ge; lia).
  rewrite (Z.min_l i n) by lia.
  rewrite blockSize_finite. change (Z.pos 1) with 1. rewrite !Z.mul_1_r.
  destruct (1152 <=? n - i) eqn:E.
  - apply Z.leb_le in E.
    unfold Qplus, inject_Z. cbn [Qnum Qden Pos.mul]. rewrite truncate_integer.
    replace (i * 1 + 1152 * 1 <? 0) with false by (symmetry; apply Z.ltb_ge; lia).
    rewrite (Z.min_l (i * 1 + 1152 * 1) n) by lia.
    rewrite (Z.min_l 1152 (n - i)) by lia.
    do 3 f_equal. lia.
  - apply Z.leb_gt in E.
    unfold Qplus. cbn [Qnum Qden Pos.mul]. rewrite truncate_integer.
    replace (i * 1 + (n - i) * 1 <? 0) with false by (symmetry; apply Z.ltb_ge; lia).
    rewrite (Z.min_r (i * 1 + (n - i) * 1) n) by lia.
    rewrite (Z.min_r 1152 (n - i)) by lia.
    reflexivity.
Qed.

Lemma mono_schedule (samples : list Z) (fuel : nat) :
  forall i,
    0 <= i -> Z.of_nat (List.length samples) - i <= Z.of_nat fuel ->
    exists blocks,
      blockSchedule fuel samples 1 (Finite (Z.of_nat (List.length samples) # 1)) i
      = Some blocks
      /\ List.concat (map fst blocks) = skipn (Z.to_nat i) samples
      /\ Forall (fun block => snd block = None
                              /\ (0 < List.length (fst block) <= 1152)%nat) blocks.
Proof.
  set (n := Z.of_nat (List.length samples)).
  induction fuel as [|fuel IH]; intros i Hi Hfuel; cbn [blockSchedule];
    rewrite lessThan_finite; change (Z.pos 1) with 1; rewrite Z.mul_1_r.
  - destruct (i <? n) eqn:E; [apply Z.ltb_lt in E; lia|].
    apply Z.ltb_ge in E. exists []. repeat split; [|constructor].
    cbn. symmetry. apply skipn_all2. unfold n in E. lia.
  - destruct (i <? n) eqn:E.
    + apply Z.ltb_lt in E. fold n. unfold n at 2. rewrite mono_block by (fold n; lia).
      fold n.
      destruct (IH (i + LAME_SAMPLE_BLOCK_SIZE)) as (rest & Hrest & Hcat & Hall);
        [unfold LAME_SAMPLE_BLOCK_SIZE; lia | unfold LAME_SAMPLE_BLOCK_SIZE; lia |].
      fold n in Hrest. rewrite Hrest.
      eexists. split; [reflexivity|]. split.
      * cbn [map fst List.concat]. rewrite Hcat.
        unfold LAME_SAMPLE_BLOCK_SIZE.
        destruct (Z.le_gt_cases 1152 (n - i)) as [Hbig|Hsmall].
        -- rewrite Z.min_l by lia.
           replace (Z.to_nat (i + 1152)) with (Z.to_nat 1152 + Z.to_nat i)%nat by lia.
           rewrite <- skipn_skipn. apply firstn_skipn.
        -- rewrite Z.min_r by lia.
           rewrite (skipn_all2 (n := Z.to_nat (i + 1152))) by (unfold n in *; lia).
           rewrite app_nil_r. apply firstn_all2.
           rewrite length_skipn. unfold n in *. lia.
      * constructor; [|exact Hall]. cbn [fst snd]. split; [reflexivity|].
        rewrite length_firstn, length_skipn. unfold n in *. lia.
    + apply Z.ltb_ge in E. exists []. repeat split; [|constructor].
      cbn. symmetry. apply skipn_all2. unfold n in E. lia.
Qed.

(** *** Two channels or more *)

Lemma pairs_block (samples : list Z) (c : positive) (i : Z) :
  c <> 1%positive -> 0 <= i ->
  i * Z.pos c < Z.of_nat (List.length samples) ->
  let k := Z.min 1152 (Z.of_nat (List.length samples) / Z.pos c - i) in
  0 <= k
  /\ blocksAt samples (Z.pos c) i
              (blockSize (Finite (Z.of_nat (List.length samples) # c)) i)
     = Normal (map (fun j => sampleAt samples ((i + j) * 2)) (indices k),
               Some (map (fun j => sampleAt samples ((i + j) * 2 + 1)) (indices k))).
Proof.
  intros Hc Hi Hlt k.
  assert (Hk : 0 <= k).
  { unfold k.
    assert (i <= Z.of_nat (List.length samples) / Z.pos c)
      by (apply Z.div_le_lower_bound; lia).
    lia. }
  split; [exact Hk|].
  unfold blocksAt.
  replace (Z.pos c =? 1) with false
    by (symmetry; apply Z.eqb_neq; intros H; apply Hc; congruence).
  unfold toIndex. rewrite blockSize_frames by exact Hlt. fold k.
  replace (k <? 0) with false by (symmetry; apply Z.ltb_ge; lia).
  reflexivity.
Qed.

Lemma pairs_schedule (samples : list Z) (c : positive) (fuel : nat) :
  c <> 1%positive ->
  forall i,
    0 <= i ->
    Z.of_nat (List.length samples) - i * Z.pos c <= Z.of_nat fuel ->
    let frames := Z.max 0 (Z.of_nat (List.length samples) / Z.pos c - i) in
    exists blocks,
      blockSchedule fuel samples (Z.pos c)
                    (Finite (Z.of_nat (List.length samples) # c)) i
      = Some blocks
      /\ List.concat (map fst blocks)
         = map (fun j => sampleAt samples ((i + j) * 2)) (indices frames)
      /\ List.concat (map rightOf blocks)
         = map (fun j => sampleAt samples ((i + j) * 2 + 1)) (indices frames)
      /\ Forall (fun block =>
                   (List.length (fst block) <= 1152)%nat
                   /\ exists r, snd block = Some r
                                /\ List.length r = List.length (fst block))
                blocks.
Proof.
  intros Hc. set (n := Z.of_nat (List.length samples)).
  assert (Hdone : forall i, n <= i * Z.pos c -> Z.max 0 (n / Z.pos c - i) = 0).
  { intros i H.
    assert (n / Z.pos c <= i) by (apply Z.div_le_upper_bound; lia). lia. }
  induction fuel as [|fuel IH]; intros i Hi Hfuel frames; cbn [blockSchedule];
    rewrite lessThan_finite.
  - destruct (i * Z.pos c <? n) eqn:E; [apply Z.ltb_lt in E; lia|].
    apply Z.ltb_ge in E. exists []. unfold frames. rewrite (Hdone i E).
    repeat split. constructor.
  - destruct (i * Z.pos c <? n) eqn:E.
    + apply Z.ltb_lt in E.
      destruct (pairs_block samples c i Hc Hi E) as [Hk Hblock].
      fold n in Hk, Hblock. rewrite Hblock.
      destruct (IH (i + LAME_SAMPLE_BLOCK_SIZE)) as (rest & Hrest & Hleft & Hright & Hall);
        [unfold LAME_SAMPLE_BLOCK_SIZE; lia | unfold LAME_SAMPLE_BLOCK_SIZE; lia |].
      rewrite Hrest. eexists. split; [reflexivity|].
      unfold LAME_SAMPLE_BLOCK_SIZE in Hleft, Hright.
      assert (Hm : i <= n / Z.pos c) by (apply Z.div_le_lower_bound; lia).
      assert (Hsplit :
                forall f : Z -> Z,
                  map (fun j => f (i + j)) (indices frames)
                  = map (fun j => f (i + j)) (indices (Z.min 1152 (n / Z.pos c - i)))
                    ++ map (fun j => f (i + 1152 + j))
                           (indices (Z.max 0 (n / Z.pos c - (i + 1152))))).
      { intros f. unfold frames. fold n. rewrite Z.max_r by lia.
        destruct (Z.le_gt_cases 1152 (n / Z.pos c - i)) as [Hbig|Hsmall].
        - rewrite Z.min_l by lia. rewrite Z.max_r by lia.
          rewrite (indices_split 1152 (n / Z.pos c - i)) by lia.
          rewrite map_app, map_map. f_equal.
          replace (n / Z.pos c - (i + 1152)) with (n / Z.pos c - i - 1152) by lia.
          apply map_ext. intros j. f_equal. lia.
        - rewrite Z.min_r by lia. rewrite Z.max_l by lia.
          change (indices 0) with (@nil Z). cbn [map]. now rewrite app_nil_r. }
      split; [|split].
      * cbn [map fst List.concat]. rewrite Hleft.
        exact (eq_sym (Hsplit (fun t => sampleAt samples (t * 2)))).
      * cbn [map List.concat]. unfold rightOf at 1. cbn [snd]. rewrite Hright.
        exact (eq_sym (Hsplit (fun t => sampleAt samples (t * 2 + 1)))).
      * constructor; [|exact Hall]. cbn [fst snd]. split.
        -- rewrite length_map. unfold indices. rewrite length_map, length_seq. lia.
        -- eexists. split; [reflexivity|]. now rewrite !length_map.
    + apply Z.ltb_ge in E. exists []. unfold frames. fold n. rewrite (Hdone i E).
      repeat split. constructor.
Qed.

Section BlockTheorems.

Variable encoder : Type.
Variable encodeBuffer :
  encoder -> list Z -> option (list Z) -> completion (encoder * list byte).

(** X9.  Mono input reaches the encoder whole and in order: with one
    channel the loop encodes, one after the other and until the encoder
    throws, blocks without a right chunk whose left chunks have between 1
    and 1152 samples and, put end to end, are exactly the samples of the
    record. *)
Theorem mono_blocks_cover_samples (samples : list Z) (fuel : nat)
  (enc : encoder) (mp3Data : list (list byte)) :
  (List.length samples <= fuel)%nat ->
  exists blocks,
    encodeLoop encoder encodeBuffer fuel samples 1
               (divide (Z.of_nat (List.length samples)) 1) 0 enc mp3Data
    = feed encoder encodeBuffer enc mp3Data blocks
    /\ List.concat (map fst blocks) = samples
    /\ Forall (fun block => snd block = None
                            /\ (0 < List.length (fst block) <= 1152)%nat) blocks.
Proof.
  intros Hfuel.
  destruct (mono_schedule samples fuel 0) as (blocks & Hs & Hcat & Hall); [lia | lia |].
  exists blocks. split; [|split].
  - apply encodeLoop_feed. exact Hs.
  - exact Hcat.
  - exact Hall.
Qed.

(** X10.  With two channels or more the loop de-interleaves by pairs: up to
    an exception of the encoder it encodes blocks of at most 1152 frames,
    the left chunks holding, in order, the samples at the even positions and
    the right chunks those at the odd positions that follow them, for as
    many frames as the number of samples divided by the channel count,
    rounded down. *)
Theorem paired_blocks_deinterleave (samples : list Z) (channels : Z) (fuel : nat)
  (enc : encoder) (mp3Data : list (list byte)) :
  1 < channels ->
  (List.length samples <= fuel)%nat ->
  exists blocks,
    encodeLoop encoder encodeBuffer fuel samples channels
               (divide (Z.of_nat (List.length samples)) channels) 0 enc mp3Data
    = feed encoder encodeBuffer enc mp3Data blocks
    /\ List.concat (map fst blocks)
       = channelOfPairs samples 0 (Z.of_nat (List.length samples) / channels)
    /\ List.concat (map rightOf blocks)
       = channelOfPairs samples 1 (Z.of_nat (List.length samples) / channels)
    /\ Forall (fun block =>
                 (List.length (fst block) <= 1152)%nat
                 /\ exists r, snd block = Some r
                              /\ List.length r = List.length (fst block))
              blocks.
Proof.
  intros Hch Hfuel. destruct channels as [|c|c]; try lia.
  assert (Hc : c <> 1%positive) by (intros ->; lia).
  destruct (pairs_schedule samples c fuel Hc 0) as (blocks & Hs & Hl & Hr & Hall);
    [lia | lia |].
  assert (Hframes : Z.max 0 (Z.of_nat (List.length samples) / Z.pos c - 0)
                    = Z.of_nat (List.length samples) / Z.pos c).
  { assert (0 <= Z.of_nat (List.length samples) / Z.pos c) by (apply Z.div_pos; lia).
    lia. }
  rewrite Hframes in Hl, Hr.
  exists blocks. split; [|split; [|split]].
  - apply encodeLoop_feed. exact Hs.
  - rewrite Hl. unfold channelOfPairs. apply map_ext. intros t. f_equal. lia.
  - rewrite Hr. unfold channelOfPairs. apply map_ext. intros t. f_equal. lia.
  - exact Hall.
Qed.

End BlockTheorems.

Lemma mono_blocks_cover_samples_witness :
  exists blocks,
    encodeLoop nat toyEncode 3 [7; 8; 9] 1 (divide (Z.of_nat 3) 1) 0 O []
    = feed nat toyEncode O [] blocks
    /\ List.concat (map fst blocks) = [7; 8; 9]
    /\ Forall (fun block => snd block = None
                            /\ (0 < List.length (fst block) <= 1152)%nat) blocks.
Proof.
  apply (mono_blocks_cover_samples nat toyEncode [7; 8; 9] 3 O []). cbn. lia.
Defined.

Lemma paired_blocks_deinterleave_witness :
  exists blocks,
    encodeLoop nat toyEncode 5 [1; -1; 2; -2; 3] 2 (divide (Z.of_nat 5) 2) 0 O []
    = feed nat toyEncode O [] blocks
    /\ List.concat (map fst blocks) = channelOfPairs [1; -1; 2; -2; 3] 0 (Z.of_nat 5 / 2)
    /\ List.concat (map rightOf blocks)
       = channelOfPairs [1; -1; 2; -2; 3] 1 (Z.of_nat 5 / 2)
    /\ Forall (fun block =>
                 (List.length (fst block) <= 1152)%nat
                 /\ exists r, snd block = Some r
                              /\ List.length r = List.length (fst block))
              blocks.
Proof.
  apply (paired_blocks_deinterleave nat toyEncode [1; -1; 2; -2; 3] 2 5 O []);
    [lia | cbn; lia].
Defined.

Section EndOfLoop.

Variable encoder : Type.
Variable newEncoder : Z -> Z -> Z -> completion encoder.
Variable encodeBuffer :
  encoder -> list Z -> option (list Z) -> completion (encoder * list byte).
Variable flush : encoder -> completion (list byte).

Lemma encodeLoop_endless (samples : list Z) (channels : Z) (fuel : nat) :
  forall i enc mp3Data enc' collected,
    encodeLoop encoder encodeBuffer fuel samples channels Infinity i enc mp3Data
    <> LoopDone enc' collected.
Proof.
  induction fuel as [|fuel IH]; intros i enc mp3Data enc' collected;
    cbn [encodeLoop lessThan]; [discriminate|].
  destruct (blocksAt samples channels i (blockSize Infinity i)) as [[l r]|];
    [|discriminate].
  destruct (encodeBuffer enc l r) as [[enc1 mp3buf]|]; [|discriminate].
  apply IH.
Qed.

Lemma encodeLoop_endless_quiet (samples : list Z) (fuel : nat) :
  (forall enc l r, exists out, encodeBuffer enc l r = Normal out) ->
  forall i enc mp3Data,
    encodeLoop encoder encodeBuffer fuel samples 0 Infinity i enc mp3Data
    = LoopOutOfFuel.
Proof.
  intros Hquiet.
  induction fuel as [|fuel IH]; intros i enc mp3Data;
    cbn [encodeLoop lessThan]; [reflexivity|].
  change (blocksAt samples 0 i (blockSize Infinity i))
    with (Normal (map (fun j => sampleAt samples ((i + j) * 2)) (indices 1152),
                  Some (map (fun j => sampleAt samples ((i + j) * 2 + 1)) (indices 1152)))).
  cbv iota.
  destruct (Hquiet enc
              (map (fun j => sampleAt samples ((i + j) * 2)) (indices 1152))
              (Some (map (fun j => sampleAt samples ((i + j) * 2 + 1)) (indices 1152))))
    as ([enc1 mp3buf] & ->).
  apply IH.
Qed.

(** X11.  When the loop ends.  With at least one channel it ends within as
    many turns as the record has samples, whatever the encoder does.  With a
    channel count of 0, which the decoder lets through, and at least one
    sample, [samples.length / channels] is [Infinity] and the loop has no
    end: no number of turns yields an output blob, and if the encoder never
    throws the conversion never finishes. *)
Theorem encode_loop_end (wavData : WavData) (bitRate : Z) :
  (0 < channels wavData ->
   forall fuel, (List.length (samples wavData) <= fuel)%nat ->
                encodeWav encoder newEncoder encodeBuffer flush fuel wavData bitRate
                <> Unfinished)
  /\ (channels wavData = 0 -> samples wavData <> [] ->
      (forall fuel mp3Blob,
          encodeWav encoder newEncoder encodeBuffer flush fuel wavData bitRate
          <> Done mp3Blob)
      /\ ((forall enc l r, exists out, encodeBuffer enc l r = Normal out) ->
          (exists enc, newEncoder 0 (sampleRate wavData) bitRate = Normal enc) ->
          forall fuel,
            encodeWav encoder newEncoder encodeBuffer flush fuel wavData bitRate
            = Unfinished)).
Proof.
  split.
  - intros Hch fuel Hfuel. now apply encodeWav_finishes.
  - intros Hzero Hne.
    assert (Hinf : divide (Z.of_nat (List.length (samples wavData))) (channels wavData)
                   = Infinity).
    { unfold divide. rewrite Hzero. cbn [Z.eqb].
      destruct (samples wavData); [congruence | reflexivity]. }
    split.
    + intros fuel mp3Blob. unfold encodeWav. rewrite Hinf.
      destruct (newEncoder _ _ _) as [enc|]; [|discriminate].
      match goal with
      | |- context [encodeLoop _ _ ?f ?s ?c Infinity ?i ?e ?d] =>
          pose proof (encodeLoop_endless s c f i e d) as Hnever;
          destruct (encodeLoop encoder encodeBuffer f s c Infinity i e d) as [e' d'| |]
      end; try discriminate.
      exfalso. eapply Hnever. reflexivity.
    + intros Hquiet [enc Hnew] fuel. unfold encodeWav. rewrite Hinf, Hzero, Hnew.
      now rewrite encodeLoop_endless_quiet.
Qed.

End EndOfLoop.

Lemma encode_loop_end_witness :
  encodeWav nat toyNew toyEncode toyFlush 2400 threeBlockWav 128 <> Unfinished
  /\ encodeWav nat toyNew toyEncode toyFlush 1000 (mkWavData 0 8000 [1; 2] 16) 128
     = Unfinished.
Proof.
  destruct (encode_loop_end nat toyNew toyEncode toyFlush threeBlockWav 128) as [Hpos _].
  destruct (encode_loop_end nat toyNew toyEncode toyFlush (mkWavData 0 8000 [1; 2] 16) 128)
    as [_ Hzero].
  split.
  - apply Hpos; [reflexivity | apply Nat.leb_le; vm_compute; reflexivity].
  - destruct (Hzero eq_refl) as [_ Hquiet]; [discriminate|].
    apply Hquiet.
    + intros enc l r. eexists. reflexivity.
    + eexists. reflexivity.
Defined.

(** *** The name of the output file *)

Lemma lastIndexOf_absent (c : ascii) (s : string) :
  containsChar c s = false -> lastIndexOf c s = -1.
Proof.
  induction s as [|a s IH]; intros H; [reflexivity|].
  cbn [containsChar] in H. apply orb_false_iff in H as [Ha Hs].
  cbn [lastIndexOf]. rewrite (IH Hs), Ha. reflexivity.
Qed.

Lemma lastIndexOf_last (c : ascii) (stem ext : string) :
  containsChar c ext = false ->
  lastIndexOf c (stem ++ String c ext) = Z.of_nat (String.length stem).
Proof.
  intros Hext. induction stem as [|a stem IH].
  - cbn [String.append lastIndexOf String.length].
    rewrite (lastIndexOf_absent c ext Hext). cbn. now rewrite Ascii.eqb_refl.
  - cbn [String.append lastIndexOf String.length]. rewrite IH.
    replace (0 <=? Z.of_nat (String.length stem)) with true
      by (symmetry; apply Z.leb_le; lia).
    lia.
Qed.

Lemma substring_prefix (stem rest : string) :
  String.substring 0 (String.length stem) (stem ++ rest) = stem.
Proof.
  induction stem as [|a stem IH]; cbn [String.append String.length String.substring].
  - destruct rest; reflexivity.
  - now rewrite IH.
Qed.

Lemma substring_nothing (s : string) : String.substring 0 0 s = EmptyString.
Proof. destruct s; reflexivity. Qed.

(** X12.  The output name replaces what follows the last dot of the source
    name by [mp3]: [stem.ext] with a non-empty stem and no dot in [ext]
    becomes [stem.mp3].  A name without a dot, and a name whose only dot
    comes first, are kept whole and get [.mp3] appended. *)
Theorem output_name_replaces_extension (stem ext : string) :
  containsChar "."%char ext = false ->
  (stem <> EmptyString ->
   outputFileName (stem ++ String "."%char ext) = (stem ++ ".mp3")%string)
  /\ outputFileName ext = (ext ++ ".mp3")%string
  /\ outputFileName (String "."%char ext) = (String "."%char ext ++ ".mp3")%string.
Proof.
  intros Hext. split; [|split].
  - intros Hstem. unfold outputFileName, substringTo.
    rewrite (lastIndexOf_last _ stem ext Hext), Nat2Z.id, substring_prefix.
    destruct stem as [|a stem]; [congruence|]. reflexivity.
  - unfold outputFileName, substringTo.
    rewrite (lastIndexOf_absent _ ext Hext). change (Z.to_nat (-1)) with O.
    now rewrite substring_nothing.
  - unfold outputFileName, substringTo.
    pose proof (lastIndexOf_last "."%char EmptyString ext Hext) as Hlast.
    cbn [String.append String.length] in Hlast. rewrite Hlast.
    change (Z.to_nat (Z.of_nat 0)) with O. reflexivity.
Qed.

Lemma output_name_replaces_extension_witness :
  outputFileName "my.take.1.wav" = "my.take.1.mp3"%string
  /\ outputFileName "wav" = "wav.mp3"%string
  /\ outputFileName ".wav" = ".wav.mp3"%string.
Proof.
  destruct (output_name_replaces_extension "my.take.1" "wav" eq_refl) as (H1 & H2 & H3).
  split; [apply H1; discriminate|]. split; [exact H2 | exact H3].
Defined.

(* ------------------------------------------------------------------ *)
(** ** More on the controller *)

Lemma step_idsFromFiles (e : event) (s : State) :
  idsFromFiles s -> idsFromFiles (step e s).
Proof.
  unfold idsFromFiles. intros Inv.
  destruct e as [files| |h|fileId| |jszip|]; cbn [step].
  - unfold handleFilesSelect. destruct (isZipping s); [exact Inv|].
    destruct (0 <? _); [|exact Inv]. cbn [conversionJobs].
    intros j Hin. apply in_app_or in Hin as [Hin|Hin]; [auto|].
    apply newJobs_idle in Hin as (_ & _ & f & _ & ->). reflexivity.
  - destruct (isZipping s) eqn:Hz; [exact Inv|].
    unfold processNextFileInQueue. rewrite Hz.
    destruct (currentConvertingFileId s); [exact Inv|].
    destruct (find isIdle (conversionJobs s)) as [next|].
    + cbn [conversionJobs]. intros j Hin.
      apply in_map_iff in Hin as (k & <- & Hin).
      destruct (hasId (id next) k); [cbn; auto | auto].
    + destruct (existsb isActive (conversionJobs s)); exact Inv.
  - unfold mirrorHook. destruct (currentConvertingFileId s) as [c|]; [|exact Inv].
    cbn [conversionJobs]. intros j Hin.
    apply in_map_iff in Hin as (k & <- & Hin).
    destruct (hasId c k); [cbn; auto | auto].
  - unfold removeFile.
    destruct (isZipping s || (currentIs fileId s && isProcessingQueue s)); [exact Inv|].
    destruct (Z.of_nat _ =? 0); cbn [conversionJobs];
      intros j Hin; apply filter_In in Hin as [Hin _]; auto.
  - unfold handleResetClick. destruct (isZipping s); [exact Inv|].
    cbn [conversionJobs]. intros j [].
  - unfold startExport.
    destruct (isProcessingQueue s || isZipping s); [exact Inv|].
    destruct (Z.of_nat _ =? 0); [exact Inv|].
    destruct (negb jszip); exact Inv.
  - exact Inv.
Qed.

Lemma run_app (a b : list event) (s : State) : run (a ++ b) s = run b (run a s).
Proof. unfold run. apply fold_left_app. Qed.

Lemma run_idsFromFiles (events : list event) :
  forall s, idsFromFiles s -> idsFromFiles (run events s).
Proof.
  induction events as [|e events IH]; intros s Hs; [exact Hs|].
  cbn [run fold_left]. apply IH. now apply step_idsFromFiles.
Qed.

(** X13.  Whatever the user and the hook do, in whatever order, the
    controller keeps these facts: while a job is admitted the queue is
    flagged as processing and the admitted job is in the list; every job in
    an active status carries the id of the admitted job (there is none
    without an admitted job); both run counters are non-negative; and every
    job carries the id derived from its own file. *)
Theorem controller_invariants (events : list event) :
  let s := run events initialState in
  (forall c, currentConvertingFileId s = Some c ->
             isProcessingQueue s = true /\ In c (ids (conversionJobs s)))
  /\ (forall j, In j (conversionJobs s) -> isActive j = true ->
                currentConvertingFileId s = Some (id j))
  /\ 0 <= totalFilesInCurrentRun s
  /\ 0 <= filesProcessedInCurrentRun s
  /\ (forall j, In j (conversionJobs s) -> id j = generateFileId (file j)).
Proof.
  intros s.
  assert (Hreach : reachable s) by (apply reachable_run; constructor).
  destruct (reachable_invariants s Hreach) as (Hact & Hlisted & Hnn & Hnp).
  assert (Hids : idsFromFiles s)
    by (apply run_idsFromFiles; intros j []).
  split; [exact Hlisted|]. split; [|repeat split; assumption].
  intros j Hin Hactive. specialize (Hact j Hin Hactive).
  destruct (currentConvertingFileId s) as [c|]; [|discriminate].
  cbn [isCurrent] in Hact. unfold hasId in Hact.
  apply String.eqb_eq in Hact. now rewrite Hact.
Qed.

Lemma controller_invariants_witness :
  isProcessingQueue busyState = true
  /\ In (generateFileId take1) (ids (conversionJobs busyState)).
Proof.
  destruct (controller_invariants [FilesSelected [take1; take2]; QueueEffect])
    as (Hlisted & _).
  apply (Hlisted (generateFileId take1)). reflexivity.
Defined.

Lemma run_distinct (events : list event) :
  forall s,
    distinctBatches events ->
    activeIsCurrent s -> NoDup (ids (conversionJobs s)) ->
    activeIsCurrent (run events s) /\ NoDup (ids (conversionJobs (run events s))).
Proof.
  induction events as [|e events IH]; intros s Hd Ha Hnd; [split; assumption|].
  cbn [run fold_left]. apply IH.
  - intros files Hin. apply Hd. now right.
  - now apply step_activeIsCurrent.
  - apply step_ids_NoDup; [|exact Hnd]. intros files ->. apply Hd. now left.
Qed.

(** X14.  As long as no single selection holds two files of the same name,
    size and modification time, the job ids stay pairwise distinct through
    every sequence of events; then at most one job is in an active status,
    it is the admitted job, and without an admitted job none is. *)
Theorem distinct_batches_single_active (events : list event) :
  distinctBatches events ->
  let s := run events initialState in
  NoDup (ids (conversionJobs s))
  /\ activeCount s <= 1
  /\ (forall j, In j (conversionJobs s) -> isActive j = true ->
                currentConvertingFileId s = Some (id j))
  /\ (currentConvertingFileId s = None -> activeCount s = 0).
Proof.
  intros Hd s.
  destruct (run_distinct events initialState Hd) as [Ha Hnd];
    [intros j [] | constructor |].
  fold s in Ha, Hnd.
  split; [exact Hnd|]. split; [now apply activeCount_bound|]. split.
  - intros j Hin Hactive. specialize (Ha j Hin Hactive).
    destruct (currentConvertingFileId s) as [c|]; [|discriminate].
    cbn [isCurrent] in Ha. unfold hasId in Ha.
    apply String.eqb_eq in Ha. now rewrite Ha.
  - intros Hnone. unfold activeCount, count.
    assert (H : (List.length (filter isActive (conversionJobs s))
                 <= List.length (filter (isCurrent (currentConvertingFileId s))
                                       (conversionJobs s)))%nat)
      by (apply filter_length_mono; exact Ha).
    rewrite Hnone in H.
    change (isCurrent None) with (fun _ : ConversionJob => false) in H.
    rewrite (filter_false (conversionJobs s)) in H. cbn in H. lia.
Qed.

Lemma distinct_batches_single_active_witness :
  NoDup (ids (conversionJobs busyState)) /\ activeCount busyState <= 1.
Proof.
  destruct (distinct_batches_single_active [FilesSelected [take1; take2]; QueueEffect])
    as (Hnd & Hone & _).
  - intros files [H|[H|[]]]; [|discriminate H].
    assert (files = [take1; take2]) by congruence. subst files.
    vm_compute. repeat constructor; cbn; intuition discriminate.
  - split; [exact Hnd | exact Hone].
Defined.

(** *** One job among jobs of distinct ids *)

Lemma find_first_idle (before after : list ConversionJob) (j : ConversionJob) :
  Forall (fun x => isIdle x = false) before -> isIdle j = true ->
  find isIdle (before ++ j :: after) = Some j.
Proof.
  intros Hbefore Hj. induction Hbefore as [|x before Hx _ IH]; cbn [app find].
  - now rewrite Hj.
  - now rewrite Hx.
Qed.

Lemma others_differ (before after : list ConversionJob) (j : ConversionJob) :
  NoDup (ids (before ++ j :: after)) ->
  forall x, In x before \/ In x after -> hasId (id j) x = false.
Proof.
  intros Hnd x Hx. unfold hasId.
  destruct (String.eqb (id x) (id j)) eqn:E; [|reflexivity].
  apply String.eqb_eq in E. exfalso.
  rewrite ids_app in Hnd. cbn [ids map] in Hnd.
  apply NoDup_remove_2 in Hnd. apply Hnd.
  apply in_or_app. rewrite <- E. unfold ids.
  destruct Hx as [Hx|Hx]; [left | right]; now apply in_map.
Qed.

Lemma map_only_one (f : ConversionJob -> ConversionJob)
  (before after : list ConversionJob) (j : ConversionJob) :
  NoDup (ids (before ++ j :: after)) ->
  map (fun x => if hasId (id j) x then f x else x) (before ++ j :: after)
  = before ++ f j :: after.
Proof.
  intros Hnd. pose proof (others_differ before after j Hnd) as Hother.
  rewrite map_app. cbn [map]. unfold hasId at 2. rewrite String.eqb_refl.
  f_equal; [|f_equal].
  - rewrite <- (map_id before) at 2. apply map_ext_in. intros x Hx.
    now rewrite (Hother x (or_introl Hx)).
  - rewrite <- (map_id after) at 2. apply map_ext_in. intros x Hx.
    now rewrite (Hother x (or_intror Hx)).
Qed.

Lemma filter_none (p : ConversionJob -> bool) (l : list ConversionJob) :
  (forall x, In x l -> p x = false) -> filter p l = [].
Proof.
  induction l as [|x l IH]; intros H; [reflexivity|].
  cbn [filter]. rewrite (H x (or_introl eq_refl)).
  apply IH. intros y Hy. apply H. now right.
Qed.

Lemma count_only_one (before after : list ConversionJob) (j : ConversionJob) :
  NoDup (ids (before ++ j :: after)) ->
  count (hasId (id j)) (before ++ j :: after) = 1.
Proof.
  intros Hnd. pose proof (others_differ before after j Hnd) as Hother.
  unfold count. rewrite filter_app. cbn [filter].
  unfold hasId at 2. rewrite String.eqb_refl.
  rewrite (filter_none (hasId (id j)) before)
    by (intros x Hx; apply Hother; now left).
  rewrite (filter_none (hasId (id j)) after)
    by (intros x Hx; apply Hother; now right).
  reflexivity.
Qed.

(** X15.  Admission is first come, first served.  With no job admitted and
    no export underway, the first [IDLE] job of the list is admitted: it
    alone (ids being distinct) is rewritten, to [READING_FILE] with progress
    0 and neither result nor error; the marker takes its id and the queue is
    flagged as processing.  A new run starts when the previous one is
    complete or none was counted: the total becomes the number of [IDLE]
    jobs, the admitted one included, and the completed count 0; otherwise
    both counters stay.  Without any [IDLE] job nothing is admitted, and the
    processing flag is cleared unless a job is in an active status. *)
Theorem admission_is_fifo (s : State) :
  currentConvertingFileId s = None -> isZipping s = false ->
  (forall before j after,
      conversionJobs s = before ++ j :: after ->
      Forall (fun x => isIdle x = false) before -> isIdle j = true ->
      NoDup (ids (conversionJobs s)) ->
      let s' := processNextFileInQueue s in
      conversionJobs s' = before ++ mkJob (id j) (file j) READING_FILE 0 None None :: after
      /\ currentConvertingFileId s' = Some (id j)
      /\ isProcessingQueue s' = true
      /\ isZipping s' = false
      /\ (filesProcessedInCurrentRun s >= totalFilesInCurrentRun s
          \/ totalFilesInCurrentRun s = 0 ->
          totalFilesInCurrentRun s' = count isIdle (conversionJobs s)
          /\ filesProcessedInCurrentRun s' = 0)
      /\ (filesProcessedInCurrentRun s < totalFilesInCurrentRun s ->
          totalFilesInCurrentRun s <> 0 ->
          totalFilesInCurrentRun s' = totalFilesInCurrentRun s
          /\ filesProcessedInCurrentRun s' = filesProcessedInCurrentRun s))
  /\ ((forall x, In x (conversionJobs s) -> isIdle x = false) ->
      let s' := processNextFileInQueue s in
      conversionJobs s' = conversionJobs s
      /\ currentConvertingFileId s' = None
      /\ totalFilesInCurrentRun s' = totalFilesInCurrentRun s
      /\ filesProcessedInCurrentRun s' = filesProcessedInCurrentRun s
      /\ isProcessingQueue s'
         = (existsb isActive (conversionJobs s) && isProcessingQueue s)).
Proof.
  intros Hc Hz. split.
  - intros before j after Hjobs Hbefore Hj Hnd s'. unfold s', processNextFileInQueue.
    rewrite Hc, Hz, Hjobs, (find_first_idle before after j Hbefore Hj).
    rewrite Hjobs in Hnd.
    cbn [conversionJobs currentConvertingFileId isProcessingQueue isZipping
         totalFilesInCurrentRun filesProcessedInCurrentRun].
    rewrite (map_only_one startJob before after j Hnd).
    split; [reflexivity|]. split; [reflexivity|]. split; [reflexivity|].
    split; [reflexivity|]. split.
    + intros Hnew.
      replace ((filesProcessedInCurrentRun s >=? totalFilesInCurrentRun s)
               || (totalFilesInCurrentRun s =? 0)) with true; [split; reflexivity|].
      symmetry. apply orb_true_iff.
      destruct Hnew as [H|H]; [left; apply Z.geb_le; lia | right; now apply Z.eqb_eq].
    + intros Hlt Hne.
      replace ((filesProcessedInCurrentRun s >=? totalFilesInCurrentRun s)
               || (totalFilesInCurrentRun s =? 0)) with false; [split; reflexivity|].
      symmetry. apply orb_false_iff. split.
      * rewrite Z.geb_leb. apply Z.leb_gt. lia.
      * now apply Z.eqb_neq.
  - intros Hnone s'. unfold s', processNextFileInQueue. rewrite Hc, Hz.
    assert (Hfind : find isIdle (conversionJobs s) = None).
    { destruct (find isIdle (conversionJobs s)) as [x|] eqn:E; [|reflexivity].
      apply find_some in E as [Hin Hidle]. rewrite (Hnone x Hin) in Hidle.
      discriminate. }
    rewrite Hfind.
    destruct (existsb isActive (conversionJobs s));
      cbn [conversionJobs currentConvertingFileId isProcessingQueue
           totalFilesInCurrentRun filesProcessedInCurrentRun andb]; auto.
Qed.

Lemma admission_is_fifo_witness :
  conversionJobs (processNextFileInQueue (run [FilesSelected [take2]] convertedState))
  = conversionJobs convertedState
    ++ [mkJob (generateFileId take2) take2 READING_FILE 0 None None]
  /\ totalFilesInCurrentRun
       (processNextFileInQueue (run [FilesSelected [take2]] convertedState)) = 1.
Proof.
  destruct (admission_is_fifo (run [FilesSelected [take2]] convertedState))
    as [Hadmit _]; [reflexivity | reflexivity |].
  destruct (Hadmit (conversionJobs convertedState) (newJob take2) [])
    as (Hjobs & _ & _ & _ & Hnew & _).
  - reflexivity.
  - vm_compute. repeat constructor.
  - reflexivity.
  - vm_compute. repeat constructor; cbn; intuition discriminate.
  - split; [exact Hjobs|].
    destruct Hnew as [Htotal _]; [left; vm_compute; discriminate|].
    rewrite Htotal. vm_compute. reflexivity.
Defined.

(** X16.  How an outcome of the hook is reconciled.  With the admitted job
    in a list of distinct ids, the mirroring effect rewrites that job and no
    other: it takes the status of the hook; under [DONE] it gets progress
    100 and the result of the hook, under [ERROR] progress 0 and the error
    of the hook, its result left as it was; in both cases the marker is
    cleared and the completed count grows by exactly one.  Under any other
    status the marker and the counters stay, and an active status brings the
    progress of the hook.  The total, the processing flag and the export
    flag are never touched. *)
Theorem outcome_is_reconciled (s : State) (h : Hook)
  (before after : list ConversionJob) (j : ConversionJob) :
  currentConvertingFileId s = Some (id j) ->
  conversionJobs s = before ++ j :: after ->
  NoDup (ids (conversionJobs s)) ->
  let s' := mirrorHook h s in
  let j' := mirrorJob h j in
  conversionJobs s' = before ++ j' :: after
  /\ id j' = id j /\ file j' = file j /\ status j' = hookStatus h
  /\ totalFilesInCurrentRun s' = totalFilesInCurrentRun s
  /\ isProcessingQueue s' = isProcessingQueue s
  /\ isZipping s' = isZipping s
  /\ (hookStatus h = DONE ->
      progress j' = 100 /\ result j' = Some (hookResult h) /\ error j' = None
      /\ currentConvertingFileId s' = None
      /\ filesProcessedInCurrentRun s' = filesProcessedInCurrentRun s + 1)
  /\ (hookStatus h = ERROR ->
      progress j' = 0 /\ result j' = result j /\ error j' = hookError h
      /\ currentConvertingFileId s' = None
      /\ filesProcessedInCurrentRun s' = filesProcessedInCurrentRun s + 1)
  /\ (hookStatus h <> DONE -> hookStatus h <> ERROR ->
      currentConvertingFileId s' = Some (id j)
      /\ filesProcessedInCurrentRun s' = filesProcessedInCurrentRun s
      /\ result j' = result j /\ error j' = None
      /\ (hookStatus h <> IDLE -> progress j' = hookProgress h)
      /\ (hookStatus h = IDLE -> progress j' = progress j)).
Proof.
  intros Hc Hjobs Hnd s' j'. unfold s', j', mirrorHook.
  rewrite Hc, Hjobs. rewrite Hjobs in Hnd.
  cbn [conversionJobs currentConvertingFileId isProcessingQueue isZipping
       totalFilesInCurrentRun filesProcessedInCurrentRun].
  rewrite (map_only_one (mirrorJob h) before after j Hnd).
  rewrite (count_only_one before after j Hnd).
  change (0 <? 1) with true. rewrite andb_true_r.
  unfold mirrorJob. cbn [id file status progress result error].
  do 7 (split; [reflexivity|]).
  split; [intros Hs; rewrite Hs; cbn; repeat split; reflexivity|].
  split; [intros Hs; rewrite Hs; cbn; repeat split; reflexivity|].
  intros Hd He.
  destruct (hookStatus h); try congruence; cbn;
    (repeat split; try reflexivity; intros Hi; try reflexivity; congruence).
Qed.

Lemma outcome_is_reconciled_witness :
  conversionJobs (mirrorHook take1Done busyState)
  = [mirrorJob take1Done (startJob (newJob take1)); newJob take2]
  /\ currentConvertingFileId (mirrorHook take1Done busyState) = None
  /\ filesProcessedInCurrentRun (mirrorHook take1Done busyState)
     = filesProcessedInCurrentRun busyState + 1.
Proof.
  destruct (outcome_is_reconciled busyState take1Done [] [newJob take2]
              (startJob (newJob take1)))
    as (Hjobs & _ & _ & _ & _ & _ & _ & Hdone & _).
  - reflexivity.
  - reflexivity.
  - vm_compute. repeat constructor; cbn; intuition discriminate.
  - destruct (Hdone eq_refl) as (_ & _ & _ & Hmarker & Hcount).
    split; [exact Hjobs|]. split; [exact Hmarker | exact Hcount].
Defined.

(** *** A whole batch *)

Lemma all_new_idle (files : list File) :
  filter isIdle (map newJob files) = map newJob files.
Proof.
  induction files as [|f files IH]; [reflexivity|].
  cbn [map filter]. change (isIdle (newJob f)) with true. cbn iota. now rewrite IH.
Qed.

Lemma all_new_in_empty (files : list File) :
  filter (isNew []) (map newJob files) = map newJob files.
Proof.
  induction files as [|f files IH]; [reflexivity|].
  cbn [map filter]. change (isNew [] (newJob f)) with true. cbn iota. now rewrite IH.
Qed.

Lemma ids_newJobs (files : list File) :
  ids (map newJob files) = map generateFileId files.
Proof. unfold ids. rewrite map_map. reflexivity. Qed.

Lemma terminal_not_idle (h : Hook) (j : ConversionJob) :
  isTerminal (hookStatus h) = true -> isIdle (settled h j) = false.
Proof.
  unfold isTerminal, isIdle, settled, mirrorJob. cbn [status].
  destruct (hookStatus h); cbn; congruence.
Qed.

Lemma terminal_not_active (h : Hook) (j : ConversionJob) :
  isTerminal (hookStatus h) = true -> isActive (settled h j) = false.
Proof.
  unfold isTerminal, isActive, isActiveStatus, settled, mirrorJob. cbn [status].
  destruct (hookStatus h); cbn; congruence.
Qed.

Lemma ids_replace (before after : list ConversionJob) (x y : ConversionJob) :
  id y = id x -> ids (before ++ y :: after) = ids (before ++ x :: after).
Proof. intros H. rewrite !ids_app. cbn [ids map]. now rewrite H. Qed.

(** The mirroring effect on the admitted job, under a report that is no
    outcome and under an outcome. *)
Lemma mirror_report (h : Hook) (before after : list ConversionJob) (x : ConversionJob)
  (t : Z) (pq : bool) (T P : Z) (z : bool) :
  isTerminal (hookStatus h) = false ->
  NoDup (ids (before ++ x :: after)) ->
  mirrorHook h (mkState (before ++ x :: after) t pq (Some (id x)) T P z)
  = mkState (before ++ mirrorJob h x :: after) t pq (Some (id x)) T P z.
Proof.
  intros Hterm Hnd. unfold mirrorHook.
  cbn [conversionJobs currentConvertingFileId isProcessingQueue isZipping
       totalFilesInCurrentRun filesProcessedInCurrentRun fileUploadResetTrigger].
  rewrite (map_only_one (mirrorJob h) before after x Hnd), Hterm.
  reflexivity.
Qed.

Lemma mirror_outcome (h : Hook) (before after : list ConversionJob) (x : ConversionJob)
  (t : Z) (pq : bool) (T P : Z) (z : bool) :
  isTerminal (hookStatus h) = true ->
  NoDup (ids (before ++ x :: after)) ->
  mirrorHook h (mkState (before ++ x :: after) t pq (Some (id x)) T P z)
  = mkState (before ++ mirrorJob h x :: after) t pq None T (P + 1) z.
Proof.
  intros Hterm Hnd. unfold mirrorHook.
  cbn [conversionJobs currentConvertingFileId isProcessingQueue isZipping
       totalFilesInCurrentRun filesProcessedInCurrentRun fileUploadResetTrigger].
  rewrite (map_only_one (mirrorJob h) before after x Hnd), Hterm.
  rewrite (count_only_one before after x Hnd). reflexivity.
Qed.

Lemma reports_mirrored (before after : list ConversionJob)
  (t : Z) (pq : bool) (T P : Z) (z : bool) (mids : list Hook) :
  forall x,
    forallb (fun h => negb (isTerminal (hookStatus h))) mids = true ->
    NoDup (ids (before ++ x :: after)) ->
    run (map HookChanged mids)
        (mkState (before ++ x :: after) t pq (Some (id x)) T P z)
    = mkState (before ++ fold_left (fun y h => mirrorJob h y) mids x :: after)
              t pq (Some (id x)) T P z.
Proof.
  induction mids as [|m mids IH]; intros x Hall Hnd; [reflexivity|].
  cbn [forallb] in Hall. apply andb_true_iff in Hall as [Hm Hall].
  apply negb_true_iff in Hm.
  cbn [map fold_left].
  change (run (HookChanged m :: map HookChanged mids) ?s)
    with (run (map HookChanged mids) (mirrorHook m s)).
  rewrite (mirror_report m before after x t pq T P z Hm Hnd).
  change (Some (id x)) with (Some (id (mirrorJob m x))).
  apply IH; [exact Hall|].
  rewrite (ids_replace before after x (mirrorJob m x)); [exact Hnd | reflexivity].
Qed.

(** An outcome overwrites what the reports before it wrote. *)
Lemma outcome_absorbs (h m : Hook) (x : ConversionJob) :
  isTerminal (hookStatus h) = true -> isTerminal (hookStatus m) = false ->
  mirrorJob h (mirrorJob m x) = mirrorJob h x.
Proof.
  unfold isTerminal, mirrorJob. cbn [id file status progress result error].
  destruct (hookStatus h); cbn; try discriminate; intros _;
    destruct (hookStatus m); cbn; try discriminate; reflexivity.
Qed.

Lemma outcome_absorbs_all (h : Hook) (mids : list Hook) :
  isTerminal (hookStatus h) = true ->
  forallb (fun h => negb (isTerminal (hookStatus h))) mids = true ->
  forall x, mirrorJob h (fold_left (fun y m => mirrorJob m y) mids x) = mirrorJob h x.
Proof.
  intros Hterm. induction mids as [|m mids IH]; intros Hall x; [reflexivity|].
  cbn [forallb] in Hall. apply andb_true_iff in Hall as [Hm Hall].
  apply negb_true_iff in Hm. cbn [fold_left].
  rewrite (IH Hall). now apply outcome_absorbs.
Qed.

Lemma fold_keeps_id (mids : list Hook) :
  forall x, id (fold_left (fun y m => mirrorJob m y) mids x) = id x.
Proof.
  induction mids as [|m mids IH]; intros x; [reflexivity|].
  cbn [fold_left]. now rewrite IH.
Qed.

(** One round on the first idle job of a list of distinct ids. *)
Lemma round_settles (r : list Hook * Hook) (s : State)
  (before after : list ConversionJob) (j : ConversionJob) :
  validRound r = true ->
  currentConvertingFileId s = None -> isZipping s = false ->
  conversionJobs s = before ++ j :: after ->
  Forall (fun x => isIdle x = false) before -> isIdle j = true ->
  NoDup (ids (before ++ j :: after)) ->
  let newRun := (filesProcessedInCurrentRun s >=? totalFilesInCurrentRun s)
                || (totalFilesInCurrentRun s =? 0) in
  run (oneRound r) s
  = mkState (before ++ settled (snd r) j :: after) (fileUploadResetTrigger s) true None
            (if newRun then count isIdle (conversionJobs s) else totalFilesInCurrentRun s)
            ((if newRun then 0 else filesProcessedInCurrentRun s) + 1) false.
Proof.
  intros Hvalid Hc Hz Hjobs Hbefore Hj Hnd newRun.
  unfold validRound in Hvalid. apply andb_true_iff in Hvalid as [Hmids Hterm].
  unfold oneRound.
  change (run (QueueEffect :: ?l) s) with (run l (step QueueEffect s)).
  cbn [step]. rewrite Hz. unfold processNextFileInQueue. rewrite Hc, Hz, Hjobs.
  rewrite (find_first_idle before after j Hbefore Hj). cbv zeta.
  rewrite (map_only_one startJob before after j Hnd).
  rewrite <- Hjobs. fold newRun.
  assert (Hnd' : NoDup (ids (before ++ startJob j :: after))).
  { rewrite (ids_replace before after j (startJob j)); [exact Hnd | reflexivity]. }
  rewrite run_app.
  change (Some (id j)) with (Some (id (startJob j))).
  rewrite (reports_mirrored before after _ _ _ _ _ (fst r) (startJob j) Hmids Hnd').
  change (run [HookChanged (snd r)] ?st) with (mirrorHook (snd r) st).
  rewrite <- (fold_keeps_id (fst r) (startJob j)).
  rewrite mirror_outcome; [|exact Hterm|].
  - rewrite (outcome_absorbs_all (snd r) (fst r) Hterm Hmids). reflexivity.
  - rewrite (ids_replace before after (startJob j)); [exact Hnd'|].
    apply fold_keeps_id.
Qed.

(** The rounds that follow the first one of a run. *)
Lemma later_rounds (rs : list (list Hook * Hook)) :
  forall (files : list File) (before : list ConversionJob) (T P : Z),
    forallb validRound rs = true ->
    (List.length rs <= List.length files)%nat ->
    Forall (fun x => isIdle x = false) before ->
    NoDup (ids (before ++ map newJob files)) ->
    0 <= P -> P + Z.of_nat (List.length rs) <= T ->
    run (rounds rs) (mkState (before ++ map newJob files) 0 true None T P false)
    = mkState (before ++ settleFirst rs (map newJob files)) 0 true None T
              (P + Z.of_nat (List.length rs)) false.
Proof.
  induction rs as [|r rs IH]; intros files before T P Hvalid Hlen Hbefore Hnd HP HT.
  - cbn [rounds flat_map run fold_left settleFirst List.length].
    now rewrite Z.add_0_r.
  - destruct files as [|f files]; [cbn in Hlen; lia|].
    cbn [forallb] in Hvalid. apply andb_true_iff in Hvalid as [Hr Hvalid].
    cbn [List.length] in Hlen, HT.
    cbn [rounds flat_map map settleFirst]. fold (rounds rs). rewrite run_app.
    cbn [map] in Hnd.
    rewrite (round_settles r
               (mkState (before ++ newJob f :: map newJob files) 0 true None T P false)
               before (map newJob files) (newJob f) Hr
               eq_refl eq_refl eq_refl Hbefore eq_refl Hnd).
    cbn [conversionJobs totalFilesInCurrentRun filesProcessedInCurrentRun
         fileUploadResetTrigger].
    replace (P >=? T) with false by (symmetry; rewrite Z.geb_leb; apply Z.leb_gt; lia).
    replace (T =? 0) with false by (symmetry; apply Z.eqb_neq; lia).
    cbn [orb]. cbv iota.
    assert (Hvr : isTerminal (hookStatus (snd r)) = true).
    { unfold validRound in Hr. now apply andb_true_iff in Hr as [_ Hr]. }
    replace (before ++ settled (snd r) (newJob f) :: map newJob files)
      with ((before ++ [settled (snd r) (newJob f)]) ++ map newJob files)
      by (rewrite <- app_assoc; reflexivity).
    rewrite (IH files (before ++ [settled (snd r) (newJob f)]) T (P + 1)); try lia.
    + rewrite <- app_assoc. cbn [app List.length]. f_equal. lia.
    + exact Hvalid.
    + apply Forall_app. split; [exact Hbefore|].
      constructor; [now apply terminal_not_idle | constructor].
    + rewrite <- app_assoc. cbn [app].
      rewrite (ids_replace before (map newJob files) (newJob f)); [exact Hnd | reflexivity].
Qed.

Lemma settleFirst_all (rs : list (list Hook * Hook)) :
  forall jobs,
    forallb validRound rs = true -> List.length rs = List.length jobs ->
    forall x, In x (settleFirst rs jobs) -> isIdle x = false /\ isActive x = false.
Proof.
  induction rs as [|r rs IH]; intros [|j jobs] Hvalid Hlen x Hx;
    cbn [List.length] in Hlen; try discriminate.
  - destruct Hx.
  - cbn [forallb] in Hvalid. apply andb_true_iff in Hvalid as [Hr Hvalid].
    unfold validRound in Hr. apply andb_true_iff in Hr as [_ Hr].
    cbn [settleFirst] in Hx. destruct Hx as [<-|Hx].
    + split; [now apply terminal_not_idle | now apply terminal_not_active].
    + apply (IH jobs); [exact Hvalid | lia | exact Hx].
Qed.

Lemma find_none (p : ConversionJob -> bool) (l : list ConversionJob) :
  (forall x, In x l -> p x = false) -> find p l = None.
Proof.
  induction l as [|x l IH]; intros H; [reflexivity|].
  cbn [find]. rewrite (H x (or_introl eq_refl)).
  apply IH. intros y Hy. apply H. now right.
Qed.

Lemma existsb_none (p : ConversionJob -> bool) (l : list ConversionJob) :
  (forall x, In x l -> p x = false) -> existsb p l = false.
Proof.
  induction l as [|x l IH]; intros H; [reflexivity|].
  cbn [existsb]. rewrite (H x (or_introl eq_refl)).
  apply IH. intros y Hy. apply H. now right.
Qed.

(** X17.  A batch goes through the queue in order.  Files of pairwise
    distinct identity are selected in the initial state; then, round after
    round, the queue effect admits a job, the hook reports any statuses that
    are no outcome, and then an outcome ([DONE] or [ERROR]), each mirrored
    as it comes.  After that the first jobs of the batch, one per round and
    in the order of selection, are settled each with the outcome of its
    round, as if no report had come before it; the other jobs wait untouched
    and idle; no job is admitted; the run counts the whole batch as its
    total and one completed job per round.  Once the whole batch is through,
    the next queue effect clears the processing flag and leaves jobs and
    counters as they are. *)
Theorem batch_settles_in_order (files : list File) (rs : list (list Hook * Hook)) :
  NoDup (map generateFileId files) ->
  forallb validRound rs = true ->
  (0 < List.length rs <= List.length files)%nat ->
  run (FilesSelected files :: rounds rs) initialState = afterRounds files rs
  /\ (List.length rs = List.length files ->
      step QueueEffect (afterRounds files rs)
      = mkState (settleFirst rs (map newJob files)) 0 false None
                (Z.of_nat (List.length files)) (Z.of_nat (List.length files)) false).
Proof.
  intros Hnd Hvalid Hk. split.
  - change (run (FilesSelected files :: rounds rs) initialState)
      with (run (rounds rs) (handleFilesSelect files initialState)).
    unfold handleFilesSelect, initialState.
    cbn [isZipping conversionJobs fileUploadResetTrigger isProcessingQueue
         currentConvertingFileId totalFilesInCurrentRun filesProcessedInCurrentRun].
    rewrite all_new_in_empty, length_map.
    replace (0 <? Z.of_nat (List.length files)) with true
      by (symmetry; apply Z.ltb_lt; lia).
    cbn [app].
    destruct rs as [|r rs]; [cbn in Hk; lia|].
    destruct files as [|f files]; [cbn in Hk; lia|].
    cbn [forallb] in Hvalid. apply andb_true_iff in Hvalid as [Hr Hvalid].
    cbn [List.length] in Hk.
    cbn [rounds flat_map map]. fold (rounds rs). rewrite run_app.
    assert (Hnd' : NoDup (ids ([] ++ newJob f :: map newJob files))).
    { cbn [app]. change (newJob f :: map newJob files) with (map newJob (f :: files)).
      now rewrite ids_newJobs. }
    rewrite (round_settles r
               (mkState (newJob f :: map newJob files) 0 false None 0 0 false)
               [] (map newJob files) (newJob f) Hr
               eq_refl eq_refl eq_refl (Forall_nil _) eq_refl Hnd').
    cbn [conversionJobs totalFilesInCurrentRun filesProcessedInCurrentRun
         fileUploadResetTrigger].
    change ((0 >=? 0) || (0 =? 0)) with true. cbv iota.
    unfold count.
    change (newJob f :: map newJob files) with (map newJob (f :: files)).
    rewrite all_new_idle, length_map.
    assert (Hterm : isTerminal (hookStatus (snd r)) = true).
    { unfold validRound in Hr. now apply andb_true_iff in Hr as [_ Hr]. }
    match goal with
    | |- run (rounds rs) ?st = _ =>
        change st with (mkState (([] ++ [settled (snd r) (newJob f)]) ++ map newJob files)
                                0 true None (Z.of_nat (List.length (f :: files)))
                                (0 + 1) false)
    end.
    rewrite (later_rounds rs files ([] ++ [settled (snd r) (newJob f)])
               (Z.of_nat (List.length (f :: files))) (0 + 1)).
    + unfold afterRounds. cbn [app map settleFirst List.length]. f_equal; lia.
    + exact Hvalid.
    + lia.
    + constructor; [now apply terminal_not_idle | constructor].
    + change (NoDup (ids ([] ++ settled (snd r) (newJob f) :: map newJob files))).
      rewrite (ids_replace [] (map newJob files) (newJob f)); [exact Hnd' | reflexivity].
    + lia.
    + cbn [List.length]. lia.
  - intros Hall. unfold afterRounds.
    assert (Hsettled := settleFirst_all rs (map newJob files) Hvalid
                          ltac:(rewrite length_map; exact Hall)).
    cbn [step isZipping]. unfold processNextFileInQueue.
    cbn [isZipping conversionJobs fileUploadResetTrigger isProcessingQueue
         currentConvertingFileId totalFilesInCurrentRun filesProcessedInCurrentRun].
    rewrite find_none, existsb_none.
    + now rewrite Hall.
    + intros x Hx. now apply Hsettled.
    + intros x Hx. now apply Hsettled.
Qed.

Lemma batch_settles_in_order_witness :
  run (FilesSelected [take1; take2]
         :: rounds [([mkHook READING_FILE None (mkResult None None None) 0;
                      mkHook CONVERTING None (mkResult None None None) 40],
                     take1Done)])
      initialState
  = afterRounds [take1; take2]
      [([mkHook READING_FILE None (mkResult None None None) 0;
         mkHook CONVERTING None (mkResult None None None) 40], take1Done)].
Proof.
  apply (batch_settles_in_order [take1; take2]
           [([mkHook READING_FILE None (mkResult None None None) 0;
              mkHook CONVERTING None (mkResult None None None) 40], take1Done)]).
  - vm_compute. repeat constructor; cbn; intuition discriminate.
  - reflexivity.
  - cbn. lia.
Defined.

(** *** Reset *)

Lemma reset_is_fixed (s : State) (e : event) :
  addsNothing e = true -> step e (afterReset s) = afterReset s.
Proof.
  destruct e as [files| |h|fileId| |jszip|]; cbn [addsNothing];
    try discriminate; intros _; reflexivity.
Qed.

(** X18.  Reset.  While an export runs, a click on reset changes nothing.
    Otherwise it empties the list, clears the marker, the processing flag
    and both counters and advances the reset trigger of the upload control
    by one; and from then on, until files are selected or reset is clicked
    again, no event changes the controller: an outcome the hook reports for
    the job that was being converted is dropped, as is a removal, a queue
    effect, a click on "Download All" or the end of an export. *)
Theorem reset_discards_the_run (s : State) (events : list event) :
  (isZipping s = true -> run (ResetClicked :: events) s = run events s)
  /\ (isZipping s = false -> forallb addsNothing events = true ->
      run (ResetClicked :: events) s = afterReset s).
Proof.
  change (run (ResetClicked :: events) s) with (run events (handleResetClick s)).
  unfold handleResetClick. split.
  - intros ->. reflexivity.
  - intros Hz. rewrite Hz. fold (afterReset s).
    induction events as [|e events IH]; intros Hq; [reflexivity|].
    cbn [forallb] in Hq. apply andb_true_iff in Hq as [He Hq].
    change (run (e :: events) (afterReset s))
      with (run events (step e (afterReset s))).
    rewrite (reset_is_fixed s e He). now apply IH.
Qed.

Lemma reset_discards_the_run_witness :
  run [ResetClicked; HookChanged take1Done; QueueEffect; RemoveClicked (generateFileId take1)]
      busyState
  = afterReset busyState.
Proof.
  apply (reset_discards_the_run busyState
           [HookChanged take1Done; QueueEffect; RemoveClicked (generateFileId take1)]);
    reflexivity.
Defined.

(** *** Controls and handlers *)

Lemma isCurrent_currentIs (s : State) (job : ConversionJob) :
  isCurrent (currentConvertingFileId s) job = currentIs (id job) s.
Proof.
  unfold isCurrent, currentIs, hasId.
  destruct (currentConvertingFileId s) as [c|]; [apply String.eqb_sym | reflexivity].
Qed.

Lemma removed_id_gone (fileId : string) (jobs : list ConversionJob) :
  ~ In fileId (ids (filter (fun job => negb (hasId fileId job)) jobs)).
Proof.
  unfold ids. intros Hin. apply in_map_iff in Hin as (j & Hid & Hin).
  apply filter_In in Hin as [_ Hkeep]. apply negb_true_iff in Hkeep.
  unfold hasId in Hkeep. apply String.eqb_neq in Hkeep. contradiction.
Qed.

(** X19.  The guards of the handlers agree with what the page offers.  A
    click on "Download All" starts an export exactly when the button is
    rendered and enabled, and then it only raises the export flag;
    otherwise the click changes nothing.  A click on a disabled remove
    button changes nothing; a click on an enabled one leaves no job with
    that id in the list.  Whenever the reset button is rendered, a click
    on it resets the controller. *)
Theorem offered_controls_act (s : State) (jszipLoaded : bool) (job : ConversionJob) :
  (downloadAllEnabled jszipLoaded s = true ->
   step (DownloadAllClicked jszipLoaded) s = setZipping true s)
  /\ (downloadAllEnabled jszipLoaded s = false ->
      step (DownloadAllClicked jszipLoaded) s = s)
  /\ (removeDisabled s job = true -> step (RemoveClicked (id job)) s = s)
  /\ (removeDisabled s job = false ->
      ~ In (id job) (ids (conversionJobs (step (RemoveClicked (id job)) s))))
  /\ (showResetButton s = true -> step ResetClicked s = afterReset s).
Proof.
  cbn [step]. unfold downloadAllEnabled, canDownloadAll, startExport.
  repeat apply conj.
  - destruct (isProcessingQueue s), (isZipping s), jszipLoaded;
      cbn; rewrite ?andb_false_r, ?andb_true_r; try discriminate.
    intros H. apply Z.ltb_lt in H.
    replace (Z.of_nat _ =? 0) with false by (symmetry; apply Z.eqb_neq; lia).
    reflexivity.
  - destruct (isProcessingQueue s), (isZipping s), jszipLoaded;
      cbn; rewrite ?andb_false_r, ?andb_true_r; intros H; try reflexivity.
    + apply Z.ltb_ge in H.
      replace (Z.of_nat _ =? 0) with true by (symmetry; apply Z.eqb_eq; lia).
      reflexivity.
    + now destruct (Z.of_nat _ =? 0).
  - unfold removeDisabled, removeFile. rewrite isCurrent_currentIs.
    now intros ->.
  - unfold removeDisabled. rewrite isCurrent_currentIs. intros H.
    unfold removeFile at 1. rewrite H.
    destruct (Z.of_nat _ =? 0); cbn [conversionJobs]; apply removed_id_gone.
  - unfold showResetButton, handleResetClick. intros H.
    apply andb_true_iff in H as [_ H]. apply negb_true_iff in H.
    rewrite H. reflexivity.
Qed.

Lemma offered_controls_act_witness :
  step (DownloadAllClicked true) convertedState = setZipping true convertedState
  /\ step (RemoveClicked (id (startJob (newJob take1)))) busyState = busyState
  /\ step ResetClicked busyState = afterReset busyState.
Proof.
  destruct (offered_controls_act convertedState true (newJob take1))
    as (Hd & _).
  destruct (offered_controls_act busyState true (startJob (newJob take1)))
    as (_ & _ & Hr & _ & Hreset).
  split; [apply Hd; reflexivity|].
  split; [apply Hr; reflexivity | apply Hreset; reflexivity].
Defined.

(* ------------------------------------------------------------------ *)
(** ** The identity of a file *)

Lemma chars_app (a b : string) :
  list_ascii_of_string (a ++ b)
  = list_ascii_of_string a ++ list_ascii_of_string b.
Proof.
  induction a as [|c a IH]; [reflexivity|].
  cbn [String.append list_ascii_of_string app]. now rewrite IH.
Qed.

Lemma chars_inj (a b : string) :
  list_ascii_of_string a = list_ascii_of_string b -> a = b.
Proof.
  intros H. rewrite <- (string_of_list_ascii_of_string a),
              <- (string_of_list_ascii_of_string b).
  now rewrite H.
Qed.

(** The decimal rendering of an unsigned number holds no minus sign. *)
Lemma digits_no_dash (d : Decimal.uint) :
  ~ In "-"%char (list_ascii_of_string (NilEmpty.string_of_uint d)).
Proof.
  induction d; cbn [NilEmpty.string_of_uint list_ascii_of_string In];
    intros H; try (destruct H as [H|H]; [discriminate H | exact (IHd H)]).
  exact H.
Qed.

Lemma number_no_dash (d : Decimal.uint) :
  ~ In "-"%char (list_ascii_of_string (NilZero.string_of_uint d)).
Proof.
  destruct d; try apply digits_no_dash.
  cbn. intros [H|[]]. discriminate H.
Qed.

Lemma number_not_empty (d : Decimal.uint) :
  list_ascii_of_string (NilZero.string_of_uint d) <> [].
Proof. destruct d; cbn; discriminate. Qed.

(** Two lists that are cut at their first minus sign agree part by part. *)
Lemma split_first_dash (d1 d2 r1 r2 : list ascii) :
  ~ In "-"%char d1 -> ~ In "-"%char d2 ->
  d1 ++ "-"%char :: r1 = d2 ++ "-"%char :: r2 -> d1 = d2 /\ r1 = r2.
Proof.
  revert d2. induction d1 as [|a d1 IH]; intros [|b d2] H1 H2 E; cbn [app] in E.
  - injection E as E. now split.
  - injection E as Eb _. exfalso. apply H2. now left.
  - injection E as Ea _. exfalso. apply H1. now left.
  - injection E as Eab E.
    destruct (IH d2) as [Hd Hr]; [| |exact E|].
    + intros Hin. apply H1. now right.
    + intros Hin. apply H2. now right.
    + split; [now rewrite Eab, Hd | exact Hr].
Qed.

Lemma rev_no_dash (l : list ascii) : ~ In "-"%char l -> ~ In "-"%char (rev l).
Proof. intros H Hin. apply H. now apply in_rev. Qed.

Lemma number_inj (d1 d2 : Decimal.uint) :
  d1 <> Decimal.Nil -> d2 <> Decimal.Nil ->
  NilZero.string_of_uint d1 = NilZero.string_of_uint d2 -> d1 = d2.
Proof.
  intros H1 H2 E.
  pose proof (NilZero.usu d1 H1) as U1. pose proof (NilZero.usu d2 H2) as U2.
  rewrite E in U1. congruence.
Qed.

Lemma size_not_nil (n : N) : N.to_uint n <> Decimal.Nil.
Proof.
  destruct n as [|p]; [discriminate|].
  apply DecimalPos.Unsigned.to_uint_nonnil.
Qed.

(** The text of [lastModified], read from its end: the digits, then the
    sign if there is one. *)
Lemma lastModified_text (z : Z) :
  exists d, d <> Decimal.Nil
    /\ (Z.to_int z = Decimal.Pos d \/ Z.to_int z = Decimal.Neg d).
Proof.
  destruct z as [|p|p]; cbn [Z.to_int].
  - exists (Decimal.D0 Decimal.Nil). split; [discriminate | now left].
  - exists (Pos.to_uint p). split;
      [apply DecimalPos.Unsigned.to_uint_nonnil | now left].
  - exists (Pos.to_uint p). split;
      [apply DecimalPos.Unsigned.to_uint_nonnil | now right].
Qed.

(** The characters of an id, last first. *)
Lemma id_backwards (n : string) (s : Decimal.uint) (l : string) :
  rev (list_ascii_of_string
         (n ++ "-" ++ NilZero.string_of_uint s ++ "-" ++ l)%string)
  = rev (list_ascii_of_string l)
    ++ "-"%char :: rev (list_ascii_of_string (NilZero.string_of_uint s))
    ++ "-"%char :: rev (list_ascii_of_string n).
Proof.
  rewrite !chars_app. cbn [list_ascii_of_string].
  rewrite !rev_app_distr. cbn [rev app]. rewrite <- !app_assoc. reflexivity.
Qed.

Lemma head_not_dash (l r : list ascii) :
  l <> [] -> ~ In "-"%char l -> forall t, l ++ r <> "-"%char :: t.
Proof.
  intros Hne Hno t E. destruct l as [|a l]; [now apply Hne|].
  cbn [app] in E. injection E as Ea _. apply Hno. now left.
Qed.

Lemma rev_not_empty (l : list ascii) : l <> [] -> rev l <> [].
Proof.
  intros H E. apply H. apply rev_inj. exact E.
Qed.

(** X20.  The id of a file determines its name, its size and its
    modification time, and is determined by them: two files get the same
    id exactly when they agree in all three, whatever characters the name
    holds and whatever the sign of the modification time. *)
Theorem file_identity_is_the_triple (f g : File) :
  generateFileId f = generateFileId g
  <-> name f = name g /\ size f = size g /\ lastModified f = lastModified g.
Proof.
  split.
  2: { intros (Hn & Hs & Hl). unfold generateFileId. now rewrite Hn, Hs, Hl. }
  unfold generateFileId. intros E.
  apply (f_equal (fun s => rev (list_ascii_of_string s))) in E.
  rewrite !id_backwards in E.
  set (sf := NilZero.string_of_uint (N.to_uint (size f))) in *.
  set (sg := NilZero.string_of_uint (N.to_uint (size g))) in *.
  assert (Hsf : ~ In "-"%char (rev (list_ascii_of_string sf)))
    by (apply rev_no_dash, number_no_dash).
  assert (Hsg : ~ In "-"%char (rev (list_ascii_of_string sg)))
    by (apply rev_no_dash, number_no_dash).
  assert (Hnf : rev (list_ascii_of_string sf) <> [])
    by (apply rev_not_empty, number_not_empty).
  assert (Hng : rev (list_ascii_of_string sg) <> [])
    by (apply rev_not_empty, number_not_empty).
  assert (Hrest :
            rev (list_ascii_of_string sf) ++ "-"%char :: rev (list_ascii_of_string (name f))
            = rev (list_ascii_of_string sg) ++ "-"%char :: rev (list_ascii_of_string (name g))
            -> name f = name g /\ size f = size g).
  { intros R. apply split_first_dash in R as [Rs Rn]; [|assumption|assumption].
    split.
    - apply chars_inj, rev_inj, Rn.
    - apply rev_inj, chars_inj in Rs. unfold sf, sg in Rs.
      apply number_inj in Rs; try apply size_not_nil.
      now apply DecimalN.Unsigned.to_uint_inj. }
  destruct (lastModified_text (lastModified f)) as (df & Hdf & Hf).
  destruct (lastModified_text (lastModified g)) as (dg & Hdg & Hg).
  assert (Hnum : forall d, ~ In "-"%char
                   (rev (list_ascii_of_string (NilZero.string_of_uint d))))
    by (intros d; apply rev_no_dash, number_no_dash).
  destruct Hf as [Hf|Hf], Hg as [Hg|Hg]; rewrite Hf, Hg in E;
    cbn [NilZero.string_of_int list_ascii_of_string rev] in E;
    rewrite <- ?app_assoc in E; cbn [app] in E;
    apply split_first_dash in E as [Ed Er]; try apply Hnum.
  - destruct (Hrest Er) as [Hn Hs]. repeat split; try assumption.
    apply rev_inj, chars_inj, number_inj in Ed; try assumption.
    apply DecimalZ.to_int_inj. now rewrite Hf, Hg, Ed.
  - exfalso. exact (head_not_dash _ _ Hnf Hsf _ Er).
  - exfalso. symmetry in Er. exact (head_not_dash _ _ Hng Hsg _ Er).
  - injection Er as Er. destruct (Hrest Er) as [Hn Hs].
    repeat split; try assumption.
    apply rev_inj, chars_inj, number_inj in Ed; try assumption.
    apply DecimalZ.to_int_inj. now rewrite Hf, Hg, Ed.
Qed.

Lemma file_identity_is_the_triple_witness :
  generateFileId take1 <> generateFileId take2.
Proof.
  intros E. apply (file_identity_is_the_triple take1 take2) in E.
  destruct E as (Hname & _). discriminate Hname.
Defined.
